(** * Client-side GENA (UPnP eventing) of npupnp: a shallow embedding

    The development follows the client-side GENA unit of the library: the
    HTTP transport adapter
    ([gena_subscribe], [gena_unsubscribe]), the renewal scheduler
    ([ScheduleGenaAutoRenew], [AutoRenewSubscriptionJobWorker::work]), the
    subscription manager ([genaSubscribe], [genaRenewSubscription],
    [genaUnSubscribe]), the property-set parser ([UPnPPropertysetParser])
    and the notification receiver ([gena_process_notification_event]).

    Integers of the C++ code are [Z]; [std::string] is [string];
    [std::map]/[std::unordered_map] are [gmap string string]; the
    [std::list<ClientSubscription>] of a handle is a [list].  External
    collaborators (curl, the timer thread, the URL parser, the XML
    tokenizer) are oracles gathered in a record [Env]; what the code does
    to them is recorded in a trace of [Event]s.  Where the code releases
    the handle lock and takes it again, other threads may have changed the
    handle table: this is the function [yield] each operation receives. *)

From Stdlib Require Import ZArith String Ascii List Bool Lia DecimalString
  DecimalPos.
From stdpp Require Import base option list gmap strings.

Open Scope string_scope.
Open Scope list_scope.
Open Scope Z_scope.

(** ** Constants *)

(** [UPNP_E_SUCCESS] is 0: the code tests [return_code != 0] and
    [return_code != UPNP_E_SUCCESS] interchangeably. *)
Definition UPNP_E_SUCCESS : Z := 0.
Definition GENA_SUCCESS : Z := UPNP_E_SUCCESS.

(** Modelled from the spec: the error kinds BadHandle, BadSid,
    BadResponse, SocketConnect, SubscribeUnaccepted and
    UnsubscribeUnaccepted of section 7.  The header that defines the
    macros is not among the sources; the numbers are those of the
    library's public interface. *)
Definition UPNP_E_INVALID_HANDLE : Z := -100.
Definition UPNP_E_INVALID_SID : Z := -109.
Definition UPNP_E_BAD_RESPONSE : Z := -113.
Definition UPNP_E_SOCKET_CONNECT : Z := -204.
Definition UPNP_E_SUBSCRIBE_UNACCEPTED : Z := -301.
Definition UPNP_E_UNSUBSCRIBE_UNACCEPTED : Z := -302.
Definition GENA_E_BAD_HANDLE : Z := UPNP_E_INVALID_HANDLE.
Definition GENA_E_BAD_SID : Z := UPNP_E_INVALID_SID.

(** Modelled from the spec: the "infinite" sentinel of a TimeoutSpec
    (section 3); the code writes "infinite" for every negative request. *)
Definition UPNP_INFINITE : Z := -1.

(** Modelled from the spec: the HTTP statuses 200, 400 and 412 of
    section 4.4 ([statcodes.h] is not among the sources). *)
Definition HTTP_OK : Z := 200.
Definition HTTP_BAD_REQUEST : Z := 400.
Definition HTTP_PRECONDITION_FAILED : Z := 412.

Definition CURLE_OK : Z := 0.

(** Compile-time configuration ([config.h], not among the sources): taken
    as a parameter of every operation that reads it. *)
Record Config := {
  AUTO_RENEW_TIME : Z;
  CP_MINIMUM_SUBSCRIPTION_TIME : Z;
  LOCAL_PORT_V4 : Z;
  LOCAL_PORT_V6 : Z;
  NAME_SIZE : Z;
  get_sdk_client_info : string
}.

(** ** Data model *)

Record ClientSubscription := {
  renewEventId : Z;
  SID : string;
  eventURL : string
}.

Inductive Upnp_Handle_Type := HND_INVALID | HND_CLIENT | HND_DEVICE.

(** [Callback] is the function pointer, [Cookie] the [void*] handed back
    to it; both are opaque here. *)
Record Handle_Info := {
  HType : Upnp_Handle_Type;
  Callback : Z;
  Cookie : Z;
  ClientSubList : list ClientSubscription
}.

Inductive Upnp_EventType :=
| UPNP_EVENT_RECEIVED
| UPNP_EVENT_AUTORENEWAL_FAILED
| UPNP_EVENT_SUBSCRIPTION_EXPIRED.

Record Upnp_Event_Subscribe := {
  ues_Sid : string;
  ues_ErrCode : Z;
  ues_PublisherUrl : string;
  ues_TimeOut : Z
}.

Record Upnp_Event := {
  ue_Sid : string;
  ue_EventKey : Z;
  ue_ChangedVariables : gmap string string
}.

Inductive CallbackArg :=
| ArgEvent (e : Upnp_Event)
| ArgSubscribe (s : Upnp_Event_Subscribe).

(** [upnp_timeout] with its [upnp_timeout_data_subscribe] payload. *)
Record upnp_timeout := {
  ut_handle : Z;
  ut_Event : Upnp_Event_Subscribe
}.

Inductive Family := IPV4 | IPV6.

Record IPAddr := {
  family : Family;
  straddr : string
}.

Record uri_type := {
  hostport_IPaddress : IPAddr;
  uri_asurlstr : string
}.

Record MHDTransaction := {
  headers : gmap string string;
  postdata : string
}.

(** ** Effects *)

(** [HandleLock] and [HandleReadLock] take the same mutex. *)
Inductive Mutex := GlobalHndMutex | GlobalClientSubscribeMutex.

Inductive Event :=
| EvLock (m : Mutex)
| EvUnlock (m : Mutex)
| EvTimerRemove (id : Z)
| EvTimerSchedule (delay : Z) (job : upnp_timeout)
| EvHttpRequest (method url : string) (hlist : list string)
| EvSendStatus (code : Z)
| EvCallback (fn : Z) (ty : Upnp_EventType) (arg : CallbackArg) (cookie : Z).

Definition HandleLock := EvLock GlobalHndMutex.
Definition HandleReadLock := EvLock GlobalHndMutex.
Definition HandleUnlock := EvUnlock GlobalHndMutex.
Definition SubscribeLock := EvLock GlobalClientSubscribeMutex.
Definition SubscribeUnlock := EvUnlock GlobalClientSubscribeMutex.

(** A well-formed XML document as the tokenizer sees it: an element has
    a name (as written, prefix included) and a content made of text runs
    and child elements. *)
Inductive xml :=
| Element (name : string) (body : content)
with content :=
| CEnd
| CText (s : string) (rest : content)
| CChild (e : xml) (rest : content).

Scheme xml_content_ind := Induction for xml Sort Prop
  with content_xml_ind := Induction for content Sort Prop.
Combined Scheme xml_mutind from xml_content_ind, content_xml_ind.

(** What a curl transfer gives back: the [CURLcode], the HTTP status and
    the response headers, names lowercased by [header_callback_curl]. *)
Record CurlResult := {
  curlcode : Z;
  http_status : Z;
  http_headers : gmap string string
}.

(** The collaborators whose code is outside this unit. *)
Record Env := {
  (** return code and parsed URL *)
  http_FixStrUrl : string -> Z * uri_type;
  (** [NetIF::Interfaces::interfaceForAddress]: the local address to
      advertise, if an interface reaches the destination *)
  interfaceForAddress : IPAddr -> option IPAddr;
  curl_easy_perform : string -> string -> list string -> CurlResult;
  (** [timeout_header_value(headers, &t)]: success flag and the value
      left in [t], given the value it held *)
  timeout_header_value : gmap string string -> Z -> bool * Z;
  (** [TimerThread::schedule]: return code and event id *)
  TimerThread_schedule : Z -> upnp_timeout -> Z * Z;
  has_xml_content_type : MHDTransaction -> bool;
  (** the tokenizer of the XML base class: [None] when the document is
      not well formed *)
  xml_tokenize : string -> option xml
}.

(** [HandleTable]: the process-wide table the handle lock protects. *)
Abbreviation HandleTable := (gmap Z Handle_Info).

(** ** HTTP transport adapter *)

(** [operator<<(int)] of an [ostringstream]. *)
Definition decimal (z : Z) : string := NilZero.string_of_int (Z.to_int z).

Definition myCallbackUrl (cfg : Config) (netaddr : IPAddr) : string :=
  "http://"
  +:+ (match family netaddr with IPV6 => "[" | IPV4 => "" end)
  +:+ straddr netaddr
  +:+ (match family netaddr with IPV6 => "]" | IPV4 => "" end)
  +:+ ":"
  +:+ decimal (match family netaddr with
               | IPV6 => LOCAL_PORT_V6 cfg
               | IPV4 => LOCAL_PORT_V4 cfg
               end).

(** Lines 323-330: the requested timeout as text. *)
Definition timostr (cfg : Config) (timeout : Z) : string :=
  if timeout <? 0 then "infinite"
  else if timeout <? CP_MINIMUM_SUBSCRIPTION_TIME cfg
       then decimal (CP_MINIMUM_SUBSCRIPTION_TIME cfg)
       else decimal timeout.

(** Lines 366-384: the [curl_slist] of request headers, in order. *)
Definition subscribe_hlist (cfg : Config) (myaddr : IPAddr)
    (renewal_sid : string) (timeout : Z) : list string :=
  (if decide (renewal_sid = "")
   then ["CALLBACK: <" +:+ (myCallbackUrl cfg myaddr +:+ "/>"); "NT: upnp:event"]
   else ["SID: " +:+ renewal_sid])
  ++ ["TIMEOUT: Second-" +:+ timostr cfg timeout;
      "USER-AGENT: " +:+ get_sdk_client_info cfg].

(** Result of [gena_subscribe]: the return code, the value of [*timeout]
    at return (of the local when the pointer was null), [*sid], and the
    requests sent. *)
Record SubscribeResult := {
  sr_code : Z;
  sr_timeout : Z;
  sr_sid : string;
  sr_trace : list Event
}.

Definition gena_subscribe (cfg : Config) (env : Env) (url : string)
    (timeout : option Z) (renewal_sid : string) : SubscribeResult :=
  let local_timeout := CP_MINIMUM_SUBSCRIPTION_TIME cfg in
  let t := match timeout with Some t => t | None => local_timeout end in
  let '(return_code, dest_url) := http_FixStrUrl env url in
  if negb (return_code =? 0) then
    {| sr_code := return_code; sr_timeout := t; sr_sid := ""; sr_trace := [] |}
  else
    let urlforcurl := uri_asurlstr dest_url in
    match interfaceForAddress env (hostport_IPaddress dest_url) with
    | None =>
        {| sr_code := UPNP_E_SOCKET_CONNECT; sr_timeout := t; sr_sid := "";
           sr_trace := [] |}
    | Some myaddr =>
        let hlist := subscribe_hlist cfg myaddr renewal_sid t in
        let tr := [EvHttpRequest "SUBSCRIBE" urlforcurl hlist] in
        let r := curl_easy_perform env "SUBSCRIBE" urlforcurl hlist in
        if negb (curlcode r =? CURLE_OK) then
          {| sr_code := UPNP_E_SOCKET_CONNECT; sr_timeout := t; sr_sid := "";
             sr_trace := tr |}
        else if negb (http_status r =? HTTP_OK) then
          {| sr_code := UPNP_E_SUBSCRIBE_UNACCEPTED; sr_timeout := t;
             sr_sid := ""; sr_trace := tr |}
        else
          match http_headers r !! "sid", http_headers r !! "timeout" with
          | Some itsid, Some _ =>
              let '(ok, t') := timeout_header_value env (http_headers r) t in
              if negb ok then
                {| sr_code := UPNP_E_BAD_RESPONSE; sr_timeout := t';
                   sr_sid := ""; sr_trace := tr |}
              else
                {| sr_code := UPNP_E_SUCCESS; sr_timeout := t';
                   sr_sid := itsid; sr_trace := tr |}
          | _, _ =>
              {| sr_code := UPNP_E_BAD_RESPONSE; sr_timeout := t;
                 sr_sid := ""; sr_trace := tr |}
          end
    end.

(** [gena_unsubscribe]: the return code and the request sent. *)
Definition gena_unsubscribe (cfg : Config) (env : Env) (url sid : string)
    : Z * list Event :=
  let '(return_code, dest_url) := http_FixStrUrl env url in
  if negb (return_code =? 0) then (return_code, [])
  else
    let surl := uri_asurlstr dest_url in
    let hlist := ["SID: " +:+ sid; "USER-AGENT: " +:+ get_sdk_client_info cfg] in
    let tr := [EvHttpRequest "UNSUBSCRIBE" surl hlist] in
    let r := curl_easy_perform env "UNSUBSCRIBE" surl hlist in
    if negb (curlcode r =? CURLE_OK) then (UPNP_E_SOCKET_CONNECT, tr)
    else if negb (http_status r =? HTTP_OK)
         then (UPNP_E_UNSUBSCRIBE_UNACCEPTED, tr)
         else (return_code, tr).

(** ** Renewal scheduler *)

(** [clientCancelRenew(sub)]: the record it leaves behind the pointer and
    the timer it removes; a null pointer is [None]. *)
Definition clientCancelRenew (sub : option ClientSubscription)
    : option ClientSubscription * list Event :=
  match sub with
  | None => (None, [])
  | Some s =>
      let id := renewEventId s in
      (Some {| renewEventId := -1; SID := ""; eventURL := "" |},
       if negb (id =? -1) then [EvTimerRemove id] else [])
  end.

(** [upnp_strlcpy(dst, src, size)]: at most [size - 1] characters of
    [src] reach [dst]. *)
Definition upnp_strlcpy (src : string) (size : Z) : string :=
  substring 0 (Z.to_nat (size - 1)) src.

(** [ScheduleGenaAutoRenew]: return code, the subscription behind [sub]
    afterwards, and the jobs handed to the timer thread. *)
Definition ScheduleGenaAutoRenew (cfg : Config) (env : Env)
    (client_handle TimeOut : Z) (sub : ClientSubscription)
    : Z * ClientSubscription * list Event :=
  if TimeOut =? UPNP_INFINITE then (GENA_SUCCESS, sub, [])
  else
    let RenewEventStruct :=
      {| ues_Sid := SID sub;
         ues_ErrCode := UPNP_E_SUCCESS;
         ues_PublisherUrl := upnp_strlcpy (eventURL sub) (NAME_SIZE cfg);
         ues_TimeOut := TimeOut |} in
    let RenewEvent :=
      {| ut_handle := client_handle; ut_Event := RenewEventStruct |} in
    let delay := TimeOut - AUTO_RENEW_TIME cfg in
    let '(return_code, eventId) := TimerThread_schedule env delay RenewEvent in
    let tr := [EvTimerSchedule delay RenewEvent] in
    if negb (return_code =? UPNP_E_SUCCESS) then (return_code, sub, tr)
    else
      (GENA_SUCCESS,
       {| renewEventId := eventId; SID := SID sub; eventURL := eventURL sub |},
       tr).

(** ** Subscription table *)

(** Modelled from the spec: [GetHandleInfo] (the handle table lives in
    [upnpapi.cpp], not among the sources): "a process-wide handle table
    maps a small integer handle to a ClientState record". *)
Definition GetHandleInfo (tbl : HandleTable) (Hnd : Z)
    : Upnp_Handle_Type * option Handle_Info :=
  match tbl !! Hnd with
  | Some hi => (HType hi, Some hi)
  | None => (HND_INVALID, None)
  end.

(** The [Handle_Info] behind [Hnd] when [GetHandleInfo] answers
    [HND_CLIENT]. *)
Definition client_of (tbl : HandleTable) (Hnd : Z) : option Handle_Info :=
  match GetHandleInfo tbl Hnd with
  | (HND_CLIENT, Some hi) => Some hi
  | _ => None
  end.

(** Modelled from the spec: [GetClientHandleInfo], "locate the single
    active client handle and its ClientState": the first client found in
    the table. *)
Definition GetClientHandleInfo (tbl : HandleTable) : option (Z * Handle_Info) :=
  List.find (fun p => match HType (snd p) with HND_CLIENT => true | _ => false end)
            (map_to_list tbl).

Definition set_ClientSubList (hi : Handle_Info) (l : list ClientSubscription)
    : Handle_Info :=
  {| HType := HType hi; Callback := Callback hi; Cookie := Cookie hi;
     ClientSubList := l |}.

(** The predicate of the lambdas [e.SID == sid]. *)
Definition sid_is (sid : string) (e : ClientSubscription) : bool :=
  String.eqb (SID e) sid.

(** [std::find_if]: the first element that satisfies [p]. *)
Definition find_if (p : ClientSubscription -> bool)
    (l : list ClientSubscription) : option ClientSubscription :=
  List.find p l.

(** [std::list::remove_if]. *)
Definition remove_if (p : ClientSubscription -> bool)
    (l : list ClientSubscription) : list ClientSubscription :=
  List.filter (fun e => negb (p e)) l.

(** A write through the iterator [std::find_if] returned: the first
    element that satisfies [p] is replaced by its image. *)
Fixpoint assign_at (p : ClientSubscription -> bool)
    (f : ClientSubscription -> ClientSubscription)
    (l : list ClientSubscription) : list ClientSubscription :=
  match l with
  | [] => []
  | e :: l' => if p e then f e :: l' else e :: assign_at p f l'
  end.

Definition set_renewEventId (id : Z) (e : ClientSubscription) : ClientSubscription :=
  {| renewEventId := id; SID := SID e; eventURL := eventURL e |}.

Definition set_SID (sid : string) (e : ClientSubscription) : ClientSubscription :=
  {| renewEventId := renewEventId e; SID := sid; eventURL := eventURL e |}.

(** ** Subscription manager *)

Record SubscribeOutcome := {
  gs_code : Z;
  gs_TimeOut : Z;
  gs_out_sid : string;
  gs_table : HandleTable;
  gs_trace : list Event
}.

(** [genaSubscribe].  [tbl] is the table when the read lock is taken;
    [yield tbl] is the table when the handle lock is taken again after
    the round trip. *)
Definition genaSubscribe (cfg : Config) (env : Env)
    (yield : HandleTable -> HandleTable) (tbl : HandleTable)
    (client_handle : Z) (PublisherURL : string) (TimeOut : Z)
    : SubscribeOutcome :=
  match client_of tbl client_handle with
  | None =>
      {| gs_code := GENA_E_BAD_HANDLE; gs_TimeOut := TimeOut; gs_out_sid := "";
         gs_table := tbl;
         gs_trace := [HandleReadLock; SubscribeLock; HandleUnlock; SubscribeUnlock] |}
  | Some _ =>
      let r := gena_subscribe cfg env PublisherURL (Some TimeOut) "" in
      let tr := [HandleReadLock; HandleUnlock; SubscribeLock]
                ++ sr_trace r ++ [HandleLock] in
      let tbl2 := yield tbl in
      if negb (sr_code r =? UPNP_E_SUCCESS) then
        {| gs_code := sr_code r; gs_TimeOut := sr_timeout r; gs_out_sid := "";
           gs_table := tbl2;
           gs_trace := tr ++ [HandleUnlock; SubscribeUnlock] |}
      else
        match client_of tbl2 client_handle with
        | None =>
            {| gs_code := GENA_E_BAD_HANDLE; gs_TimeOut := sr_timeout r;
               gs_out_sid := ""; gs_table := tbl2;
               gs_trace := tr ++ [HandleUnlock; SubscribeUnlock] |}
        | Some handle_info =>
            let newSubscription :=
              {| renewEventId := -1; SID := sr_sid r; eventURL := PublisherURL |} in
            let '(return_code, front, str) :=
              ScheduleGenaAutoRenew cfg env client_handle (sr_timeout r)
                                    newSubscription in
            {| gs_code := return_code; gs_TimeOut := sr_timeout r;
               gs_out_sid := sr_sid r;
               gs_table :=
                 <[client_handle :=
                     set_ClientSubList handle_info
                       (front :: ClientSubList handle_info)]> tbl2;
               gs_trace := tr ++ str ++ [HandleUnlock; SubscribeUnlock] |}
        end
  end.

Record RenewOutcome := {
  gr_code : Z;
  gr_TimeOut : Z;
  gr_table : HandleTable;
  gr_trace : list Event
}.

(** [genaRenewSubscription].  [yield] acts on the table the first
    critical section leaves.  The last [remove_if] compares with
    [sub->SID], which by then holds the new SID. *)
Definition genaRenewSubscription (cfg : Config) (env : Env)
    (yield : HandleTable -> HandleTable) (tbl : HandleTable)
    (client_handle : Z) (in_sid : string) (TimeOut : Z) : RenewOutcome :=
  match client_of tbl client_handle with
  | None =>
      {| gr_code := GENA_E_BAD_HANDLE; gr_TimeOut := TimeOut; gr_table := tbl;
         gr_trace := [HandleLock; HandleUnlock] |}
  | Some handle_info =>
      match find_if (sid_is in_sid) (ClientSubList handle_info) with
      | None =>
          {| gr_code := GENA_E_BAD_SID; gr_TimeOut := TimeOut; gr_table := tbl;
             gr_trace := [HandleLock; HandleUnlock] |}
      | Some sub =>
          let sub_copy := set_renewEventId (-1) sub in
          let tbl1 :=
            <[client_handle :=
                set_ClientSubList handle_info
                  (assign_at (sid_is in_sid) (set_renewEventId (-1))
                             (ClientSubList handle_info))]> tbl in
          let r := gena_subscribe cfg env (eventURL sub_copy) (Some TimeOut)
                                  (SID sub_copy) in
          let tr := [HandleLock; EvTimerRemove (renewEventId sub); HandleUnlock]
                    ++ sr_trace r ++ [HandleLock] in
          let tbl2 := yield tbl1 in
          match client_of tbl2 client_handle with
          | None =>
              {| gr_code := GENA_E_BAD_HANDLE; gr_TimeOut := sr_timeout r;
                 gr_table := tbl2; gr_trace := tr ++ [HandleUnlock] |}
          | Some handle_info2 =>
              let cancel := snd (clientCancelRenew (Some sub_copy)) in
              if negb (sr_code r =? UPNP_E_SUCCESS) then
                {| gr_code := sr_code r; gr_TimeOut := sr_timeout r;
                   gr_table :=
                     <[client_handle :=
                         set_ClientSubList handle_info2
                           (remove_if (sid_is in_sid)
                                      (ClientSubList handle_info2))]> tbl2;
                   gr_trace := tr ++ cancel ++ [HandleUnlock] |}
              else
                match find_if (sid_is in_sid) (ClientSubList handle_info2) with
                | None =>
                    {| gr_code := GENA_E_BAD_SID; gr_TimeOut := sr_timeout r;
                       gr_table := tbl2;
                       gr_trace := tr ++ cancel ++ [HandleUnlock] |}
                | Some sub2 =>
                    let '(return_code, sub3, str) :=
                      ScheduleGenaAutoRenew cfg env client_handle (sr_timeout r)
                                            (set_SID (sr_sid r) sub2) in
                    let l3 := assign_at (sid_is in_sid) (fun _ => sub3)
                                        (ClientSubList handle_info2) in
                    let l4 := if negb (return_code =? GENA_SUCCESS)
                              then remove_if (sid_is (SID sub3)) l3
                              else l3 in
                    {| gr_code := return_code; gr_TimeOut := sr_timeout r;
                       gr_table :=
                         <[client_handle := set_ClientSubList handle_info2 l4]> tbl2;
                       gr_trace := tr ++ str ++ cancel ++ [HandleUnlock] |}
                end
          end
      end
  end.

Record UnSubscribeOutcome := {
  gu_code : Z;
  gu_table : HandleTable;
  gu_trace : list Event
}.

(** [genaUnSubscribe]: the result of [gena_unsubscribe] is dropped. *)
Definition genaUnSubscribe (cfg : Config) (env : Env)
    (yield : HandleTable -> HandleTable) (tbl : HandleTable)
    (client_handle : Z) (in_sid : string) : UnSubscribeOutcome :=
  match client_of tbl client_handle with
  | None =>
      {| gu_code := GENA_E_BAD_HANDLE; gu_table := tbl;
         gu_trace := [HandleLock; HandleUnlock] |}
  | Some handle_info =>
      match find_if (sid_is in_sid) (ClientSubList handle_info) with
      | None =>
          {| gu_code := GENA_E_BAD_SID; gu_table := tbl;
             gu_trace := [HandleLock; HandleUnlock] |}
      | Some sub_copy =>
          let tr := [HandleLock; HandleUnlock]
                    ++ snd (gena_unsubscribe cfg env (eventURL sub_copy) (SID sub_copy))
                    ++ snd (clientCancelRenew (Some sub_copy))
                    ++ [HandleLock] in
          let tbl2 := yield tbl in
          match client_of tbl2 client_handle with
          | None =>
              {| gu_code := GENA_E_BAD_HANDLE; gu_table := tbl2;
                 gu_trace := tr ++ [HandleUnlock] |}
          | Some handle_info2 =>
              {| gu_code := GENA_SUCCESS;
                 gu_table :=
                   <[client_handle :=
                       set_ClientSubList handle_info2
                         (remove_if (sid_is in_sid)
                                    (ClientSubList handle_info2))]> tbl2;
                 gu_trace := tr ++ [HandleUnlock] |}
          end
      end
  end.

Record WorkOutcome := {
  jw_sub_struct : Upnp_Event_Subscribe;
  jw_table : HandleTable;
  jw_trace : list Event
}.

(** [AutoRenewSubscriptionJobWorker::work].  [yield_renew] is what other
    threads do during the renewal round trip, [yield_cb] what they do
    before the job takes the handle lock for the callback. *)
Definition AutoRenewSubscriptionJobWorker_work (cfg : Config) (env : Env)
    (yield_renew yield_cb : HandleTable -> HandleTable) (tbl : HandleTable)
    (m_event : upnp_timeout) : WorkOutcome :=
  let sub_struct := ut_Event m_event in
  let '(sub_struct', send_callback, eventType, tbl1, tr1) :=
    if AUTO_RENEW_TIME cfg =? 0 then
      ({| ues_Sid := ues_Sid sub_struct; ues_ErrCode := UPNP_E_SUCCESS;
          ues_PublisherUrl := ues_PublisherUrl sub_struct;
          ues_TimeOut := ues_TimeOut sub_struct |},
       true, UPNP_EVENT_SUBSCRIPTION_EXPIRED, tbl, [])
    else
      let r := genaRenewSubscription cfg env yield_renew tbl (ut_handle m_event)
                 (ues_Sid sub_struct) (ues_TimeOut sub_struct) in
      let errCode := gr_code r in
      ({| ues_Sid := ues_Sid sub_struct; ues_ErrCode := errCode;
          ues_PublisherUrl := ues_PublisherUrl sub_struct;
          ues_TimeOut := gr_TimeOut r |},
       negb (errCode =? UPNP_E_SUCCESS) && negb (errCode =? GENA_E_BAD_SID)
         && negb (errCode =? GENA_E_BAD_HANDLE),
       UPNP_EVENT_AUTORENEWAL_FAILED, gr_table r, gr_trace r)
  in
  if send_callback then
    let tbl2 := yield_cb tbl1 in
    match client_of tbl2 (ut_handle m_event) with
    | None =>
        {| jw_sub_struct := sub_struct'; jw_table := tbl2;
           jw_trace := tr1 ++ [HandleReadLock; HandleUnlock] |}
    | Some handle_info =>
        {| jw_sub_struct := sub_struct'; jw_table := tbl2;
           jw_trace := tr1 ++ [HandleReadLock; HandleUnlock;
                               EvCallback (Callback handle_info) eventType
                                 (ArgSubscribe sub_struct') (Cookie handle_info)] |}
    end
  else
    {| jw_sub_struct := sub_struct'; jw_table := tbl1; jw_trace := tr1 |}.

(** ** Property-set parser *)

Definition ascii_in (set : list ascii) (c : ascii) : bool :=
  existsb (Ascii.eqb c) set.

Fixpoint ltrimstring (ws : list ascii) (s : string) : string :=
  match s with
  | EmptyString => EmptyString
  | String c s' => if ascii_in ws c then ltrimstring ws s' else s
  end.

Fixpoint rtrimstring (ws : list ascii) (s : string) : string :=
  match s with
  | EmptyString => EmptyString
  | String c s' =>
      match rtrimstring ws s' with
      | EmptyString => if ascii_in ws c then EmptyString else String c EmptyString
      | t => String c t
      end
  end.

(** Modelled from the spec: [trimstring], "trimmed of leading/trailing
    whitespace"; the body is not among the sources, [smallut.h] declares
    it as removing the characters of the set at the beginning and the end
    of the string. *)
Definition trimstring (ws : list ascii) (s : string) : string :=
  rtrimstring ws (ltrimstring ws s).

(** The set [" \t\n\r"] that [EndElement] passes. *)
Definition xml_blanks : list ascii :=
  [" "%char; "009"%char; "010"%char; "013"%char].

Fixpoint after_colon (s : string) : option string :=
  match s with
  | EmptyString => None
  | String c s' => if Ascii.eqb c ":" then Some s' else after_colon s'
  end.

(** The name without its namespace prefix. *)
Definition local_name (s : string) : string :=
  match after_colon s with Some l => l | None => s end.

Definition tolower (c : ascii) : ascii :=
  let n := nat_of_ascii c in
  if ((65 <=? n) && (n <=? 90))%nat then ascii_of_nat (n + 32) else c.

Fixpoint stringtolower (s : string) : string :=
  match s with
  | EmptyString => EmptyString
  | String c s' => String (tolower c) (stringtolower s')
  end.

(** Modelled from the spec: [dom_cmp_name] (not among the sources),
    "local-name compares equal (case-insensitive for the parent tag
    match)", "namespace prefixes are ignored"; 0 means equal. *)
Definition dom_cmp_name (domname ref : string) : Z :=
  if String.eqb (stringtolower (local_name domname)) (stringtolower ref)
  then 0 else 1.

Record UPnPPropertysetParser := {
  m_path : list string;
  m_chardata : string;
  propdata : gmap string string
}.

(** [EndElement]: [m_path] still ends with the element being closed. *)
Definition EndElement (p : UPnPPropertysetParser) (name : string)
    : UPnPPropertysetParser :=
  let parentname :=
    if (length (m_path p) =? 1)%nat then "root"
    else default "" (m_path p !! (length (m_path p) - 2)%nat) in
  let chardata := trimstring xml_blanks (m_chardata p) in
  {| m_path := m_path p;
     m_chardata := "";
     propdata := if dom_cmp_name parentname "property" =? 0
                 then <[name := chardata]> (propdata p)
                 else propdata p |}.

(** [CharacterData]: an empty run is dropped (character data of an XML
    document holds no NUL, so [*s == 0] is emptiness). *)
Definition CharacterData (p : UPnPPropertysetParser) (s : string)
    : UPnPPropertysetParser :=
  match s with
  | EmptyString => p
  | _ => {| m_path := m_path p; m_chardata := m_chardata p +:+ s;
            propdata := propdata p |}
  end.

Definition push_path (p : UPnPPropertysetParser) (name : string)
    : UPnPPropertysetParser :=
  {| m_path := m_path p ++ [name]; m_chardata := m_chardata p;
     propdata := propdata p |}.

Definition pop_path (p : UPnPPropertysetParser) : UPnPPropertysetParser :=
  {| m_path := removelast (m_path p); m_chardata := m_chardata p;
     propdata := propdata p |}.

(** Modelled from the spec: the driver of the XML base class (expatmm or
    picoxml, not among the sources), a "streaming XML parser": on a start
    tag the name is pushed on [m_path] ([StartElement] is not overridden),
    each text run goes to [CharacterData], on an end tag [EndElement] runs
    and the name is popped. *)
Fixpoint walk (p : UPnPPropertysetParser) (e : xml) : UPnPPropertysetParser :=
  match e with
  | Element name body =>
      pop_path (EndElement (walk_content (push_path p name) body) name)
  end
with walk_content (p : UPnPPropertysetParser) (c : content)
    : UPnPPropertysetParser :=
  match c with
  | CEnd => p
  | CText s rest => walk_content (CharacterData p s) rest
  | CChild e rest => walk_content (walk p e) rest
  end.

Definition parser_init : UPnPPropertysetParser :=
  {| m_path := []; m_chardata := ""; propdata := ∅ |}.

(** The map a successful parse of [doc] leaves in [propset]. *)
Definition parse_propertyset (doc : xml) : gmap string string :=
  propdata (walk parser_init doc).

(** [parser.Parse()]: [None] is [false]. *)
Definition UPnPPropertysetParser_Parse (env : Env) (input : string)
    : option (gmap string string) :=
  match xml_tokenize env input with
  | None => None
  | Some doc => Some (parse_propertyset doc)
  end.

(** The name [EndElement] finds for the parent when the elements open
    around the one being closed are [base], outermost first. *)
Definition parent_of (base : list string) : string := List.last base "root".

(** *** The extraction rule in the words of the specification *)

(** The character data of an element: its text runs, concatenated. *)
Fixpoint own_text (c : content) : string :=
  match c with
  | CEnd => ""
  | CText s rest => s +:+ own_text rest
  | CChild _ rest => own_text rest
  end.

Definition is_property (parentname : string) : bool :=
  dom_cmp_name parentname "property" =? 0.

(** One pair per element whose parent is a [property], in the order of
    the end tags; [key] says how the element name becomes the variable
    name. *)
Fixpoint property_pairs (key : string -> string) (parentname : string)
    (e : xml) : list (string * string) :=
  match e with
  | Element name body =>
      content_pairs key name body
      ++ (if is_property parentname
          then [(key name, trimstring xml_blanks (own_text body))]
          else [])
  end
with content_pairs (key : string -> string) (parentname : string)
    (c : content) : list (string * string) :=
  match c with
  | CEnd => []
  | CText _ rest => content_pairs key parentname rest
  | CChild e rest =>
      property_pairs key parentname e ++ content_pairs key parentname rest
  end.

(** Later pairs overwrite earlier ones. *)
Definition last_wins (l : list (string * string)) (m : gmap string string)
    : gmap string string :=
  fold_left (fun m p => <[fst p := snd p]> m) l m.

(** The map of the specification: keys are local names. *)
Definition propertyset_spec (doc : xml) : gmap string string :=
  last_wins (property_pairs local_name "root" doc) ∅.

(** The map with the names kept as the tokenizer hands them over. *)
Definition propertyset_verbatim (doc : xml) : gmap string string :=
  last_wins (property_pairs (fun name => name) "root" doc) ∅.

Fixpoint all_blank (s : string) : bool :=
  match s with
  | EmptyString => true
  | String c s' => ascii_in xml_blanks c && all_blank s'
  end.

(** Documents whose text sits in leaf position: a text run that comes
    before a child element is made of blanks only.  [blank] tells whether
    the text of the element read so far is blank. *)
Fixpoint leaf_text (e : xml) : bool :=
  match e with
  | Element _ body => leaf_body true body
  end
with leaf_body (blank : bool) (c : content) : bool :=
  match c with
  | CEnd => true
  | CText s rest => leaf_body (blank && all_blank s) rest
  | CChild e rest => blank && leaf_text e && leaf_body true rest
  end.

(** Documents whose variable elements (those under a [property]) are
    written without a namespace prefix. *)
Fixpoint plain_names (parentname : string) (e : xml) : bool :=
  match e with
  | Element name body =>
      (if is_property parentname
       then match after_colon name with None => true | Some _ => false end
       else true)
      && plain_names_content name body
  end
with plain_names_content (parentname : string) (c : content) : bool :=
  match c with
  | CEnd => true
  | CText _ rest => plain_names_content parentname rest
  | CChild e rest =>
      plain_names parentname e && plain_names_content parentname rest
  end.

(** ** Notification receiver *)

(** [isspace] and [isdigit] of the C locale. *)
Definition isspace (c : ascii) : bool :=
  ascii_in [" "%char; "009"%char; "010"%char; "011"%char; "012"%char; "013"%char] c.

Definition isdigit (c : ascii) : bool :=
  let n := nat_of_ascii c in ((48 <=? n) && (n <=? 57))%nat.

Definition digit_value (c : ascii) : Z := Z.of_nat (nat_of_ascii c) - 48.

Fixpoint skip_space (s : string) : string :=
  match s with
  | EmptyString => EmptyString
  | String c s' => if isspace c then skip_space s' else s
  end.

(** The longest run of digits at the head of [s], read in base 10 onto
    [acc], and what follows it. *)
Fixpoint scan_digits (acc : Z) (s : string) : Z * string :=
  match s with
  | EmptyString => (acc, EmptyString)
  | String c s' =>
      if isdigit c then scan_digits (10 * acc + digit_value c) s' else (acc, s)
  end.

(** Storing into an [int]: two's complement on 32 bits. *)
Definition wrap_int (z : Z) : Z := (z + 2 ^ 31) mod 2 ^ 32 - 2 ^ 31.

(** The conversion of [%d] and of [strtol]: the value is read as a
    [long] of 64 bits and saturates at [LONG_MIN] and [LONG_MAX]. *)
Definition saturate_long (z : Z) : Z :=
  Z.max (- 2 ^ 63) (Z.min (2 ^ 63 - 1) z).

(** The digits of [%d] once white space and sign are read, and the
    [%1c] after them: the return value of [sscanf] and [eventKey].  The
    number saturates as a [long] and is then stored into the [int]. *)
Definition scan_number (neg : bool) (s2 : string) : Z * Z :=
  match s2 with
  | EmptyString => (0, 0)
  | String d _ =>
      if isdigit d then
        let '(v, rest) := scan_digits 0 s2 in
        let eventKey := wrap_int (saturate_long (if neg then - v else v)) in
        match rest with
        | EmptyString => (1, eventKey)
        | String _ _ => (2, eventKey)
        end
      else (0, 0)
  end.

(** [sscanf(s, "%d%1c", &eventKey, cb)]: the return value and [eventKey]
    (0 stands for the unassigned variable when nothing was converted).
    [%d] skips white space, takes an optional sign and a run of digits;
    [%1c] takes one more character if there is one.  -1 is [EOF]. *)
Definition sscanf_d_1c (s : string) : Z * Z :=
  match skip_space s with
  | EmptyString => (-1, 0)
  | String c s1 =>
      if Ascii.eqb c "-" then scan_number true s1
      else if Ascii.eqb c "+" then scan_number false s1
      else scan_number false (String c s1)
  end.

(** Lines 775-794: the answer and the upcall once the subscription is
    found. *)
Definition notify_deliver (handle_info : Handle_Info)
    (subscription : ClientSubscription) (eventKey : Z)
    (propset : gmap string string) : list Event :=
  [EvSendStatus HTTP_OK;
   HandleUnlock;
   EvCallback (Callback handle_info) UPNP_EVENT_RECEIVED
     (ArgEvent {| ue_Sid := SID subscription; ue_EventKey := eventKey;
                  ue_ChangedVariables := propset |})
     (Cookie handle_info)].

(** Lines 716-795: correlation, once the transaction is validated. *)
Definition notify_correlate (yield : HandleTable -> HandleTable)
    (tbl : HandleTable) (sid : string) (eventKey : Z)
    (propset : gmap string string) : list Event :=
  match GetClientHandleInfo tbl with
  | None => [HandleLock; EvSendStatus HTTP_PRECONDITION_FAILED; HandleUnlock]
  | Some (_, handle_info) =>
      match find_if (sid_is sid) (ClientSubList handle_info) with
      | Some subscription =>
          HandleLock :: notify_deliver handle_info subscription eventKey propset
      | None =>
          if eventKey =? 0 then
            [HandleLock; HandleUnlock; SubscribeLock; HandleLock]
            ++ match GetClientHandleInfo (yield tbl) with
               | None =>
                   [EvSendStatus HTTP_PRECONDITION_FAILED; SubscribeUnlock;
                    HandleUnlock]
               | Some (_, handle_info2) =>
                   match find_if (sid_is sid) (ClientSubList handle_info2) with
                   | None =>
                       [EvSendStatus HTTP_PRECONDITION_FAILED; SubscribeUnlock;
                        HandleUnlock]
                   | Some subscription =>
                       SubscribeUnlock
                       :: notify_deliver handle_info2 subscription eventKey propset
                   end
               end
          else [HandleLock; EvSendStatus HTTP_PRECONDITION_FAILED; HandleUnlock]
      end
  end.

(** [gena_process_notification_event]: what the receiver does on a
    transaction, in order.  [tbl] is the table when the handle lock is
    first taken, [yield tbl] the table when it is taken again on the
    recovery path. *)
Definition gena_process_notification_event (env : Env)
    (yield : HandleTable -> HandleTable) (tbl : HandleTable)
    (mhdt : MHDTransaction) : list Event :=
  match headers mhdt !! "sid" with
  | None => [EvSendStatus HTTP_PRECONDITION_FAILED]
  | Some sid =>
      match headers mhdt !! "seq" with
      | None => [EvSendStatus HTTP_BAD_REQUEST]
      | Some seq =>
          let '(n, eventKey) := sscanf_d_1c seq in
          if negb (n =? 1) then [EvSendStatus HTTP_BAD_REQUEST]
          else
            match headers mhdt !! "nt", headers mhdt !! "nts" with
            | Some nt, Some nts =>
                if negb (String.eqb nt "upnp:event")
                   || negb (String.eqb nts "upnp:propchange")
                then [EvSendStatus HTTP_PRECONDITION_FAILED]
                else if negb (has_xml_content_type env mhdt)
                        || String.eqb (postdata mhdt) ""
                then [EvSendStatus HTTP_BAD_REQUEST]
                else
                  match UPnPPropertysetParser_Parse env (postdata mhdt) with
                  | None => [EvSendStatus HTTP_BAD_REQUEST]
                  | Some propset =>
                      notify_correlate yield tbl sid eventKey propset
                  end
            | _, _ => [EvSendStatus HTTP_BAD_REQUEST]
            end
      end
  end.

(** ** Observations on traces *)

(** The statuses sent with [http_SendStatusResponse]. *)
Definition statuses (tr : list Event) : list Z :=
  flat_map (fun e => match e with EvSendStatus c => [c] | _ => [] end) tr.

(** The upcalls to user code. *)
Definition callbacks (tr : list Event) : list Event :=
  List.filter (fun e => match e with EvCallback _ _ _ _ => true | _ => false end) tr.

(** The jobs handed to the timer thread. *)
Definition scheduled (tr : list Event) : list Event :=
  List.filter (fun e => match e with EvTimerSchedule _ _ => true | _ => false end) tr.

(** The header lists of the requests sent with [method]. *)
Definition requests (method : string) (tr : list Event) : list (list string) :=
  flat_map (fun e => match e with
                     | EvHttpRequest m _ hlist =>
                         if String.eqb m method then [hlist] else []
                     | _ => []
                     end) tr.

(** A header line of the request is a TIMEOUT header. *)
Definition is_timeout_header (h : string) : bool := String.prefix "TIMEOUT:" h.

(** The subscriptions of a handle ([[]] when it is not a client). *)
Definition subscriptions (tbl : HandleTable) (Hnd : Z) : list ClientSubscription :=
  match client_of tbl Hnd with
  | Some hi => ClientSubList hi
  | None => []
  end.

(** The table holds a subscription with this SID under the handle. *)
Definition has_sid (tbl : HandleTable) (Hnd : Z) (sid : string) : Prop :=
  exists sub, find_if (sid_is sid) (subscriptions tbl Hnd) = Some sub.

(** ** The SEQ header in the words of the specification *)

Fixpoint all_digits (s : string) : bool :=
  match s with
  | EmptyString => true
  | String c s' => isdigit c && all_digits s'
  end.

Fixpoint all_space (s : string) : bool :=
  match s with
  | EmptyString => true
  | String c s' => isspace c && all_space s'
  end.

(** "A non-negative decimal integer": a non-empty run of digits. *)
Definition nonneg_decimal (s : string) : bool :=
  negb (String.eqb s "") && all_digits s.

(** What the receiver accepts: white space, an optional sign, a
    non-empty run of digits, and nothing after it. *)
Definition signed_decimal (s : string) : Prop :=
  exists ws sign ds,
    s = ws +:+ sign +:+ ds /\ all_space ws = true
    /\ (sign = "" \/ sign = "+" \/ sign = "-")
    /\ nonneg_decimal ds = true.

(** The number of times a mutex is taken. *)
Definition acquisitions (m : Mutex) (tr : list Event) : nat :=
  length (List.filter
            (fun e => match e, m with
                      | EvLock GlobalHndMutex, GlobalHndMutex => true
                      | EvLock GlobalClientSubscribeMutex, GlobalClientSubscribeMutex => true
                      | _, _ => false
                      end) tr).

(** The transaction passes every check of lines 659-715, with these
    SID, event key and property set. *)
Definition notify_validated (env : Env) (mhdt : MHDTransaction)
    (sid : string) (eventKey : Z) (propset : gmap string string) : Prop :=
  headers mhdt !! "sid" = Some sid
  /\ (exists seq, headers mhdt !! "seq" = Some seq
                  /\ sscanf_d_1c seq = (1, eventKey))
  /\ headers mhdt !! "nt" = Some "upnp:event"
  /\ headers mhdt !! "nts" = Some "upnp:propchange"
  /\ has_xml_content_type env mhdt = true
  /\ postdata mhdt <> ""
  /\ UPnPPropertysetParser_Parse env (postdata mhdt) = Some propset.

(** The table the first critical section of [genaRenewSubscription]
    leaves: the renewal timer of the subscription is forgotten. *)
Definition renew_marked (tbl : HandleTable) (client_handle : Z)
    (in_sid : string) : HandleTable :=
  match client_of tbl client_handle with
  | Some handle_info =>
      <[client_handle :=
          set_ClientSubList handle_info
            (assign_at (sid_is in_sid) (set_renewEventId (-1))
                       (ClientSubList handle_info))]> tbl
  | None => tbl
  end.

(** ** Sample inputs *)

Fixpoint strip_prefix (p s : string) : option string :=
  match p, s with
  | EmptyString, _ => Some s
  | String a p', String b s' => if Ascii.eqb a b then strip_prefix p' s' else None
  | String _ _, EmptyString => None
  end.

(** Modelled from the spec: [timeout_header_value] (not among the
    sources), "the parsed integer seconds from the TIMEOUT: Second-<N>
    header (or the infinite sentinel)". *)
Definition timeout_header_value_spec (hdrs : gmap string string) (old : Z)
    : bool * Z :=
  match hdrs !! "timeout" with
  | None => (false, old)
  | Some v =>
      match strip_prefix "second-" (stringtolower v) with
      | None => (false, old)
      | Some n =>
          if String.eqb n "infinite" then (true, UPNP_INFINITE)
          else if nonneg_decimal n then (true, fst (scan_digits 0 n))
          else (false, old)
      end
  end.

Definition cfg0 : Config :=
  {| AUTO_RENEW_TIME := 10; CP_MINIMUM_SUBSCRIPTION_TIME := 15;
     LOCAL_PORT_V4 := 49152; LOCAL_PORT_V6 := 49152; NAME_SIZE := 256;
     get_sdk_client_info := "Linux UPnP/1.0 npupnp" |}.

(** The configuration without auto-renewal. *)
Definition cfg_noauto : Config :=
  {| AUTO_RENEW_TIME := 0; CP_MINIMUM_SUBSCRIPTION_TIME := 15;
     LOCAL_PORT_V4 := 49152; LOCAL_PORT_V6 := 49152; NAME_SIZE := 256;
     get_sdk_client_info := "Linux UPnP/1.0 npupnp" |}.

Definition url0 : string := "http://10.0.0.5:49152/svc/evt".

Definition doc_foo : xml :=
  Element "e:propertyset"
    (CChild (Element "e:property"
               (CChild (Element "Foo" (CText "1" CEnd)) CEnd)) CEnd).

Definition body_foo : string :=
  "<e:propertyset><e:property><Foo>1</Foo></e:property></e:propertyset>".

(** The variable element carries a namespace prefix. *)
Definition doc_prefixed : xml :=
  Element "e:propertyset"
    (CChild (Element "e:property"
               (CChild (Element "e:Foo" (CText "1" CEnd)) CEnd)) CEnd).

(** Text in front of the variable element, inside [e:property]. *)
Definition doc_stray : xml :=
  Element "e:propertyset"
    (CChild (Element "e:property"
               (CText "x" (CChild (Element "Foo" (CText "1" CEnd)) CEnd))) CEnd).

Definition newline : string := String "010"%char EmptyString.

(** An indented document: blanks between the tags and around the value,
    a parent written in capitals, and the variable [Bar] given twice. *)
Definition doc_pretty : xml :=
  Element "e:propertyset"
    (CText newline
       (CChild (Element "e:property"
                  (CText (newline +:+ "  ")
                     (CChild (Element "Foo" (CText " 1" (CText " " CEnd)))
                        (CText newline CEnd))))
          (CText newline
             (CChild (Element "E:PROPERTY"
                        (CChild (Element "Bar" (CText "a" CEnd))
                           (CChild (Element "Bar" (CText "b" CEnd)) CEnd)))
                (CText newline CEnd))))).

(** An environment whose publisher answers every request with [reply]
    and whose timer thread answers [sched]. *)
Definition env_with (reply : CurlResult) (sched : Z * Z) : Env :=
  {| http_FixStrUrl := fun url =>
       (0, {| hostport_IPaddress := {| family := IPV4; straddr := "10.0.0.5" |};
              uri_asurlstr := url |});
     interfaceForAddress := fun _ =>
       Some {| family := IPV4; straddr := "10.0.0.2" |};
     curl_easy_perform := fun _ _ _ => reply;
     timeout_header_value := timeout_header_value_spec;
     TimerThread_schedule := fun _ _ => sched;
     has_xml_content_type := fun mhdt =>
       match headers mhdt !! "content-type" with
       | Some v => String.prefix "text/xml" v
       | None => false
       end;
     xml_tokenize := fun s =>
       if String.eqb s body_foo then Some doc_foo else None |}.

Definition reply_ok : CurlResult :=
  {| curlcode := CURLE_OK; http_status := 200;
     http_headers := {[ "sid" := "uuid:efgh"; "timeout" := "Second-1800" ]} |}.

Definition reply_infinite : CurlResult :=
  {| curlcode := CURLE_OK; http_status := 200;
     http_headers := {[ "sid" := "uuid:efgh"; "timeout" := "Second-infinite" ]} |}.

Definition reply_500 : CurlResult :=
  {| curlcode := CURLE_OK; http_status := 500; http_headers := ∅ |}.

(** The transfer itself fails (a [CURLcode] other than [CURLE_OK]). *)
Definition reply_down : CurlResult :=
  {| curlcode := 7; http_status := 0; http_headers := ∅ |}.

Definition env_ok : Env := env_with reply_ok (0, 42).
Definition env_infinite : Env := env_with reply_infinite (0, 42).
Definition env_500 : Env := env_with reply_500 (0, 42).
Definition env_down : Env := env_with reply_down (0, 42).
(** The timer thread refuses the job. *)
Definition env_nosched : Env := env_with reply_ok (-104, 0).

Definition sub_abcd : ClientSubscription :=
  {| renewEventId := 7; SID := "uuid:abcd"; eventURL := url0 |}.

Definition client1 : Handle_Info :=
  {| HType := HND_CLIENT; Callback := 100; Cookie := 200;
     ClientSubList := [sub_abcd] |}.

(** One client, handle 1, with the subscription [uuid:abcd]. *)
Definition tbl1 : HandleTable := {[ 1 := client1 ]}.

(** One client, handle 1, without subscriptions. *)
Definition tbl_empty : HandleTable :=
  {[ 1 := set_ClientSubList client1 [] ]}.

(** No other thread touches the table. *)
Definition quiet (tbl : HandleTable) : HandleTable := tbl.

(** Another thread unregisters the client meanwhile. *)
Definition unregistered (Hnd : Z) (tbl : HandleTable) : HandleTable :=
  delete Hnd tbl.

(** The subscribing thread records [uuid:abcd] meanwhile. *)
Definition subscribed (tbl : HandleTable) : HandleTable := tbl1.

Definition notify_headers (seq : string) : gmap string string :=
  {[ "sid" := "uuid:abcd"; "seq" := seq; "nt" := "upnp:event";
     "nts" := "upnp:propchange"; "content-type" := "text/xml" ]}.

Definition notify_seq (seq : string) : MHDTransaction :=
  {| headers := notify_headers seq; postdata := body_foo |}.

Definition job_abcd : upnp_timeout :=
  {| ut_handle := 1;
     ut_Event := {| ues_Sid := "uuid:abcd"; ues_ErrCode := 0;
                    ues_PublisherUrl := url0; ues_TimeOut := 1800 |} |}.

(** ** The rest of the subscription manager *)

Record UnregisterOutcome := {
  gx_code : Z;
  gx_table : HandleTable;
  gx_trace : list Event
}.

(** The loop of [genaUnregisterClient], [tr] being what was done so far.
    Each turn takes the handle lock on the table other threads left
    ([yield] of the table at the previous unlock), takes the first
    subscription out together with every entry of the same SID, and
    unsubscribes it with the lock released.  [None]: the turns allowed
    by [fuel] did not empty the list. *)
Fixpoint genaUnregisterClient_loop (fuel : nat) (cfg : Config) (env : Env)
    (yield : HandleTable -> HandleTable) (tbl : HandleTable)
    (client_handle : Z) (tr : list Event) : option UnregisterOutcome :=
  match fuel with
  | O => None
  | S fuel' =>
      match client_of tbl client_handle with
      | None =>
          Some {| gx_code := GENA_E_BAD_HANDLE; gx_table := tbl;
                  gx_trace := tr ++ [HandleLock; HandleUnlock] |}
      | Some handle_info =>
          match ClientSubList handle_info with
          | [] =>
              Some {| gx_code := UPNP_E_SUCCESS;
                      gx_table :=
                        <[client_handle := set_ClientSubList handle_info []]> tbl;
                      gx_trace := tr ++ [HandleLock; HandleUnlock] |}
          | sub_copy :: _ =>
              let tbl1 :=
                <[client_handle :=
                    set_ClientSubList handle_info
                      (remove_if (sid_is (SID sub_copy))
                                 (ClientSubList handle_info))]> tbl in
              genaUnregisterClient_loop fuel' cfg env yield (yield tbl1)
                client_handle
                (tr ++ [HandleLock; HandleUnlock]
                    ++ snd (gena_unsubscribe cfg env (eventURL sub_copy)
                                             (SID sub_copy))
                    ++ snd (clientCancelRenew (Some sub_copy)))
          end
      end
  end.

(** [genaUnregisterClient]. *)
Definition genaUnregisterClient (fuel : nat) (cfg : Config) (env : Env)
    (yield : HandleTable -> HandleTable) (tbl : HandleTable)
    (client_handle : Z) : option UnregisterOutcome :=
  genaUnregisterClient_loop fuel cfg env yield tbl client_handle [].

(** ** More observations on traces *)

(** The timers removed with [TimerThread::remove], in order. *)
Definition removed_timers (tr : list Event) : list Z :=
  flat_map (fun e => match e with EvTimerRemove id => [id] | _ => [] end) tr.

(** The delays and jobs handed to [TimerThread::schedule], in order. *)
Definition scheduled_jobs (tr : list Event) : list (Z * upnp_timeout) :=
  flat_map (fun e => match e with
                     | EvTimerSchedule delay job => [(delay, job)]
                     | _ => []
                     end) tr.

(** The lock discipline of a trace, read from left to right with the
    mutexes held so far: a mutex is not taken twice nor released when
    free ([std::mutex] is not recursive), no HTTP request goes out while
    the handle mutex is held, no upcall is made while a mutex is held,
    and at the end both are free. *)
Fixpoint lock_safe (hnd sub : bool) (tr : list Event) : bool :=
  match tr with
  | [] => negb hnd && negb sub
  | EvLock GlobalHndMutex :: tr' => negb hnd && lock_safe true sub tr'
  | EvUnlock GlobalHndMutex :: tr' => hnd && lock_safe false sub tr'
  | EvLock GlobalClientSubscribeMutex :: tr' => negb sub && lock_safe hnd true tr'
  | EvUnlock GlobalClientSubscribeMutex :: tr' => sub && lock_safe hnd false tr'
  | EvHttpRequest _ _ _ :: tr' => negb hnd && lock_safe hnd sub tr'
  | EvCallback _ _ _ _ :: tr' => negb hnd && negb sub && lock_safe hnd sub tr'
  | _ :: tr' => lock_safe hnd sub tr'
  end.

(** Other threads leave the client behind [Hnd] alone. *)
Definition leaves_client (yield : HandleTable -> HandleTable) (Hnd : Z) : Prop :=
  forall tbl, client_of (yield tbl) Hnd = client_of tbl Hnd.

(** ** URI parsing ([uri.cpp]) *)

Module Uri.

(** [isalpha] and [isalnum] of the C locale. *)
Definition isalpha (c : ascii) : bool :=
  let n := nat_of_ascii c in
  (((65 <=? n) && (n <=? 90)) || ((97 <=? n) && (n <=? 122)))%nat.

Definition isalnum (c : ascii) : bool := isalpha c || isdigit c.

(** [std::string::find(ch, pos)]; [None] is [npos]. *)
Fixpoint find (ch : ascii) (s : string) (pos : nat) : option nat :=
  match s with
  | EmptyString => None
  | String c s' =>
      match pos with
      | O => if Ascii.eqb c ch then Some O else option_map S (find ch s' O)
      | S p => option_map S (find ch s' p)
      end
  end.

(** [std::string::substr(pos)] and [substr(pos, len)], for [pos] within
    the string (the library throws beyond it; the callers below never
    get there). *)
Fixpoint substr_from (s : string) (pos : nat) {struct pos} : string :=
  match pos, s with
  | O, _ => s
  | S p, String _ s' => substr_from s' p
  | S _, EmptyString => EmptyString
  end.

Fixpoint prefix (s : string) (len : nat) : string :=
  match len, s with
  | S n, String c s' => String c (prefix s' n)
  | _, _ => EmptyString
  end.

Definition substr (s : string) (pos len : nat) : string :=
  prefix (substr_from s pos) len.

Fixpoint all_chars (p : ascii -> bool) (s : string) : bool :=
  match s with
  | EmptyString => true
  | String c s' => p c && all_chars p s'
  end.

(** The characters a scheme is made of: "[::alphanum::+-.]". *)
Definition scheme_char (c : ascii) : bool :=
  isalnum c || Ascii.eqb c "+" || Ascii.eqb c "-" || Ascii.eqb c ".".

(** [parse_scheme(in, out)]: the returned size and [out].  The loop over
    [i < colon] reads the characters of [in.substr(0, colon)]. *)
Definition parse_scheme (inp : string) : nat * string :=
  match inp with
  | EmptyString => (O, "")
  | String c0 _ =>
      if negb (isalpha c0) then (O, "")
      else
        match find ":" inp 0 with
        | None => (O, "")
        | Some colon =>
            if all_chars scheme_char (substr inp 0 colon)
            then (String.length (substr inp 0 colon), substr inp 0 colon)
            else (O, "")
        end
  end.

(** A [char] as the [int] it is promoted to, and an [int] stored into a
    [char].  Only codes below 128 are compared with, so the signedness
    of [char] plays no part. *)
Definition char_code (c : ascii) : Z := Z.of_nat (nat_of_ascii c).
Definition char_of (z : Z) : ascii := ascii_of_nat (Z.to_nat (z mod 256)).

Definition h2d (c : Z) : Z :=
  if (48 <=? c) && (c <=? 57) then c - 48
  else if (65 <=? c) && (c <=? 70) then 10 + c - 65
  else -1.

(** [remove_escaped_chars]: the function is written on what remains of
    [in] from index [i] on.  [i < in.size() - 2] says that at least
    three characters remain; a '%' then consumes three of them, another
    character one; the last two characters are copied as they are. *)
Fixpoint remove_escaped_chars (s : string) : string :=
  match s with
  | String c1 t =>
      match t with
      | String c2 (String c3 rest) =>
          if Ascii.eqb c1 "%" then
            let d1 := h2d (char_code c2) in
            let d2 := h2d (char_code c3) in
            if negb (d1 =? -1) && negb (d2 =? -1)
            then String (char_of (Z.shiftl d1 4 + d2)) (remove_escaped_chars rest)
            else String "%" (String c2 (String c3 (remove_escaped_chars rest)))
          else String c1 (remove_escaped_chars t)
      | _ => s
      end
  | EmptyString => s
  end.

(** Percent-encoding as RFC 2396 has it, with upper-case digits: the
    encoder [remove_escaped_chars] is the inverse of.  [must] says which
    characters are escaped besides '%' itself. *)
Definition hex_digit (n : Z) : ascii :=
  if n <? 10 then char_of (48 + n) else char_of (65 + (n - 10)).

Definition escape_char (c : ascii) : string :=
  String "%" (String (hex_digit (char_code c / 16))
                (String (hex_digit (char_code c mod 16)) "")).

Fixpoint escape (must : ascii -> bool) (s : string) : string :=
  match s with
  | EmptyString => EmptyString
  | String c s' =>
      (if must c || Ascii.eqb c "%" then escape_char c else String c "")
        +:+ escape must s'
  end.

(** A scheme of RFC 2396: a letter, then letters, digits, '+', '-', '.'. *)
Definition valid_scheme (sch : string) : bool :=
  match sch with
  | EmptyString => false
  | String c _ => isalpha c && all_chars scheme_char sch
  end.

(** *** Dot segments *)

(** [in.find_first_of(markers, pos)]; [None] is [npos]. *)
Fixpoint find_first_of (markers : list ascii) (s : string) (pos : nat)
    : option nat :=
  match s with
  | EmptyString => None
  | String c s' =>
      match pos with
      | O => if ascii_in markers c then Some O
             else option_map S (find_first_of markers s' O)
      | S p => option_map S (find_first_of markers s' p)
      end
  end.

(** [in[n]], for [n] within the string. *)
Definition nth_char (s : string) (n : nat) : ascii :=
  match String.get n s with
  | Some c => c
  | None => "000"%char
  end.

Definition markers : list ascii := ["/"%char; "?"%char].

(** What the loop of [remove_dots] does with one element; [None] is the
    early [return std::string()]. *)
Definition path_elt (vpath : list string) (elt : string)
    : option (list string) :=
  if String.eqb elt "" || String.eqb elt "." then Some vpath
  else if String.eqb elt ".." then
    match vpath with
    | [] => None
    | _ :: _ => Some (removelast vpath)
    end
  else Some (vpath ++ [elt]).

(** The [while (pos != npos)] loop of [remove_dots], one iteration per
    unit of [fuel]; every iteration moves [pos] forward, so that
    [length in + 1 - pos] iterations are never exceeded. *)
Fixpoint remove_dots_loop (fuel : nat) (inp : string) (pos : nat)
    (vpath : list string) : option (list string) :=
  match fuel with
  | O => Some vpath
  | S fuel' =>
      let epos :=
        match find_first_of markers inp pos with
        | Some e => if Ascii.eqb (nth_char inp e) "?" then None else Some e
        | None => None
        end in
      match epos with
      | Some e =>
          if Nat.eqb e pos then remove_dots_loop fuel' inp (S pos) vpath
          else
            match path_elt vpath (substr inp pos (e - pos)) with
            | None => None
            | Some v => remove_dots_loop fuel' inp e v
            end
      | None => path_elt vpath (substr_from inp pos)
      end
  end.

(** [s.back()] and [s.pop_back()]. *)
Fixpoint back (s : string) : option ascii :=
  match s with
  | EmptyString => None
  | String c EmptyString => Some c
  | String _ s' => back s'
  end.

Fixpoint pop_back (s : string) : string :=
  match s with
  | EmptyString => EmptyString
  | String c EmptyString => EmptyString
  | String c s' => String c (pop_back s')
  end.

Definition ends_with_slash (s : string) : bool :=
  match back s with
  | Some c => Ascii.eqb c "/"
  | None => false
  end.

(** [out += elt + "/"] for every element. *)
Fixpoint concat_elts (vpath : list string) : string :=
  match vpath with
  | [] => ""
  | elt :: v => elt +:+ "/" +:+ concat_elts v
  end.

(** The output stage of [remove_dots]. *)
Definition remove_dots_out (isabs endslash : bool) (vpath : list string)
    : string :=
  let out := (if isabs then "/" else "") +:+ concat_elts vpath in
  if negb endslash && (1 <? String.length out)%nat && ends_with_slash out
  then pop_back out else out.

Definition remove_dots (inp : string) : string :=
  match inp with
  | EmptyString => inp
  | String c0 _ =>
      let isabs := Ascii.eqb c0 "/" in
      let endslash := ends_with_slash inp in
      match remove_dots_loop (S (String.length inp)) inp 0 [] with
      | None => ""
      | Some vpath => remove_dots_out isabs endslash vpath
      end
  end.

(** The same loop read one character at a time: [elt] holds the
    characters since the last '/'. *)
Fixpoint dots_scan (vpath : list string) (elt : string) (s : string)
    : option (list string) :=
  match s with
  | EmptyString => path_elt vpath elt
  | String c s' =>
      if Ascii.eqb c "/" then
        match path_elt vpath elt with
        | None => None
        | Some v => dots_scan v "" s'
        end
      else if Ascii.eqb c "?" then path_elt vpath (elt +:+ s)
      else dots_scan vpath (elt +:+ String c "") s'
  end.

(** A path segment that is kept: not empty, not a dot segment, without
    '/' or '?'. *)
Definition plain_elt (x : string) : bool :=
  negb (String.eqb x "") && negb (String.eqb x ".")
  && negb (String.eqb x "..")
  && all_chars (fun c => negb (ascii_in markers c)) x.

Definition query_free (s : string) : bool :=
  all_chars (fun c => negb (Ascii.eqb c "?")) s.

(** [n] times "../". *)
Fixpoint dotdots (n : nat) : string :=
  match n with
  | O => ""
  | S n' => "../" +:+ dotdots n'
  end.

(** *** Host, port and the whole URI *)

(** Modelled from the spec: the error kind InvalidUrl of section 7
    ([upnp.h] is not among the sources); the number is that of the
    library's public interface, and only its sign matters below. *)
Definition UPNP_E_INVALID_URL : Z := -108.

Inductive sa_family := AF_UNSPEC | AF_INET | AF_INET6 | AF_OTHER.

(** [sockaddr_storage], read as a [sockaddr_in] or a [sockaddr_in6]: the
    port (in host order) is at the same place in both. *)
Record sockaddr_storage := {
  ss_family : sa_family;
  sin_port : Z;
  sin_addr : string;
  sin6_scope_id : Z
}.

Record addrinfo := {
  ai_family : sa_family;
  ai_addr : sockaddr_storage
}.

Record hostport_type := {
  text : string;
  IPaddress : sockaddr_storage
}.

(** [uri_type] and [hostport_type] with the fields the functions below
    read and write ([uri.h] is not among the sources). *)
Inductive uriType := URITP_ABSOLUTE | URITP_RELATIVE.
Inductive pathType := ABS_PATH | REL_PATH | OPAQUE_PART.

Record uri_type := {
  type : uriType;
  path_type : pathType;
  scheme : string;
  hostport : hostport_type;
  path : string;
  query : string;
  fragment : string
}.

(** The resolver and the address parser of the C library, and the
    interface index the library was started with.  [getaddrinfo] gives
    its return value and the list [res0]; [inet_pton] its return value
    and the address it stores when that is 1. *)
Record NetEnv := {
  getaddrinfo : string -> Z * list addrinfo;
  inet_pton : sa_family -> string -> Z * string;
  gIF_INDEX : Z
}.

(** [hostport_type()]. *)
Definition hostport_empty : hostport_type :=
  {| text := "";
     IPaddress := {| ss_family := AF_UNSPEC; sin_port := 0;
                     sin_addr := ""; sin6_scope_id := 0 |} |}.

(** The longest prefix of [s] whose characters satisfy [p], and the
    rest: a [while] loop that moves a pointer over a C string. *)
Fixpoint span (p : ascii -> bool) (s : string) : string * string :=
  match s with
  | EmptyString => (EmptyString, EmptyString)
  | String c s' =>
      if p c then let '(a, b) := span p s' in (String c a, b)
      else (EmptyString, s)
  end.

(** The characters of a C string: those before the first NUL. *)
Definition c_str (s : string) : string :=
  fst (span (fun c => negb (Ascii.eqb c "000")) s).

(** [atoi], as [(int)strtol(s, NULL, 10)] with a 64-bit [long]: white
    space, an optional sign, digits; [strtol] saturates at the limits of
    [long] and the conversion to [int] keeps the low 32 bits. *)
Definition atoi (s : string) : Z :=
  match skip_space s with
  | EmptyString => 0
  | String c s1 =>
      let v (neg : bool) (ds : string) :=
        let n := fst (scan_digits 0 ds) in
        wrap_int (Z.max (- 2 ^ 63) (Z.min (2 ^ 63 - 1)
                                      (if neg then - n else n))) in
      if Ascii.eqb c "-" then v true s1
      else if Ascii.eqb c "+" then v false s1
      else v false (String c s1)
  end.

(** The loop condition of the host name scan. *)
Definition host_char (c : ascii) : bool :=
  negb (Ascii.eqb c ":") && negb (Ascii.eqb c "/")
  && (isalnum c || Ascii.eqb c "." || Ascii.eqb c "-").

(** What follows the last '.' of [s], if there is a '.'. *)
Fixpoint after_last_dot (s : string) : option string :=
  match s with
  | EmptyString => None
  | String c s' =>
      match after_last_dot s' with
      | Some t => Some t
      | None => if Ascii.eqb c "." then Some s' else None
      end
  end.

(** [last_dot != NULL] and the character after it is a digit, read once
    the character after the name is overwritten with NUL. *)
Definition looks_numeric (srvname : string) : bool :=
  match after_last_dot srvname with
  | Some (String d _) => isdigit d
  | _ => false
  end.

Definition starts_with (ch : ascii) (s : string) : bool :=
  match s with
  | String c _ => Ascii.eqb c ch
  | EmptyString => false
  end.

Definition str_tail (s : string) : string :=
  match s with
  | String _ s' => s'
  | EmptyString => EmptyString
  end.

(** The second half of [parse_hostport], from "Check if a port is
    specified" on.  [c] is the offset of the pointer [c] in [workbuf],
    [srvport] what [workbuf] holds from there. *)
Definition parse_hostport_port (env : NetEnv) (inp : string)
    (out : hostport_type) (af : sa_family) (srvname : string)
    (has_port : bool) (c : nat) (srvport : string) : Z * hostport_type :=
  let digits := fst (span isdigit srvport) in
  let port := if has_port then atoi srvport mod 65536 else 80 in
  if has_port && (port =? 0) then (UPNP_E_INVALID_URL, out)
  else
    let hostport_size :=
      (c + (if has_port then String.length digits else O))%nat in
    let ip := IPaddress out in
    let '(ret, ip') :=
      match af with
      | AF_INET =>
          let '(r, a) := inet_pton env AF_INET srvname in
          (r, {| ss_family := AF_INET; sin_port := port;
                 sin_addr := if r =? 1 then a else sin_addr ip;
                 sin6_scope_id := sin6_scope_id ip |})
      | AF_INET6 =>
          let '(r, a) := inet_pton env AF_INET6 srvname in
          (r, {| ss_family := AF_INET6; sin_port := port;
                 sin_addr := if r =? 1 then a else sin_addr ip;
                 sin6_scope_id := gIF_INDEX env |})
      | _ =>
          (1, {| ss_family := ss_family ip; sin_port := port;
                 sin_addr := sin_addr ip;
                 sin6_scope_id := sin6_scope_id ip |})
      end in
    if ret <=? 0 then (UPNP_E_INVALID_URL, {| text := text out; IPaddress := ip' |})
    else (Z.of_nat hostport_size,
          {| text := prefix inp hostport_size; IPaddress := ip' |}).

(** [parse_hostport(in, out)]: the return value and [*out]. *)
Definition parse_hostport (env : NetEnv) (inp : string)
    : Z * hostport_type :=
  let out := hostport_empty in
  let workbuf := upnp_strlcpy inp 256 in
  if starts_with "[" workbuf then
    let '(srvname, r) :=
      span (fun c => negb (Ascii.eqb c "]")) (str_tail workbuf) in
    match r with
    | EmptyString => (UPNP_E_INVALID_URL, out)
    | String _ r1 =>
        let has_port := starts_with ":" r1 in
        parse_hostport_port env inp out AF_INET6 srvname has_port
          (1 + String.length srvname + 1 + (if has_port then 1 else 0))%nat
          (if has_port then str_tail r1 else r1)
    end
  else
    let '(srvname, r) := span host_char workbuf in
    let has_port := starts_with ":" r in
    let c := (String.length srvname + (if has_port then 1 else 0))%nat in
    let srvport := if has_port then str_tail r else r in
    if looks_numeric srvname then
      parse_hostport_port env inp out AF_INET srvname has_port c srvport
    else
      let '(ret, res0) := getaddrinfo env srvname in
      if ret =? 0 then
        match List.find (fun res => match ai_family res with
                                    | AF_INET | AF_INET6 => true
                                    | _ => false
                                    end) res0 with
        | Some res =>
            parse_hostport_port env inp
              {| text := text out; IPaddress := ai_addr res |}
              AF_UNSPEC srvname has_port c srvport
        | None => (UPNP_E_INVALID_URL, out)
        end
      else (UPNP_E_INVALID_URL, out).

(** The last part of [parse_uri]: path, query and fragment from
    [begin_path] on. *)
Definition parse_uri_path (inp : string) (begin_path : nat)
    (out : uri_type) : uri_type :=
  let question := find "?" inp begin_path in
  let hash := find "#" inp begin_path in
  let set (p : string) (q f : option string) :=
    {| type := type out;
       path_type := if starts_with "/" p then ABS_PATH else path_type out;
       scheme := scheme out; hostport := hostport out;
       path := p;
       query := match q with Some x => x | None => query out end;
       fragment := match f with Some x => x | None => fragment out end |} in
  match question, hash with
  | None, None => set (substr_from inp begin_path) None None
  | Some question, None =>
      set (substr inp begin_path (question - begin_path))
        (Some (substr_from inp (question + 1))) None
  | None, Some hash =>
      set (substr inp begin_path (hash - begin_path))
        None (Some (substr_from inp (hash + 1)))
  | Some question, Some hash =>
      if (hash <? question)%nat then
        set (substr inp begin_path (hash - begin_path))
          None (Some (substr_from inp (hash + 1)))
      else
        set (substr inp begin_path (question - begin_path))
          (Some (substr inp (question + 1) (hash - question - 1)))
          (Some (substr_from inp (hash + 1)))
  end.

(** [parse_uri(in, out)]: the return value and [*out], which keeps the
    fields the function does not write. *)
Definition parse_uri (env : NetEnv) (inp : string) (out : uri_type)
    : Z * uri_type :=
  let '(n, sch) := parse_scheme inp in
  let absolute := negb (Nat.eqb n 0) in
  let begin_hostport := if absolute then S n else n in
  let out1 :=
    {| type := if absolute then URITP_ABSOLUTE else URITP_RELATIVE;
       path_type := if absolute then OPAQUE_PART else REL_PATH;
       scheme := sch; hostport := hostport out; path := path out;
       query := query out; fragment := fragment out |} in
  if (begin_hostport + 1 <? String.length inp)%nat
     && Ascii.eqb (nth_char inp begin_hostport) "/"
     && Ascii.eqb (nth_char inp (begin_hostport + 1)) "/"
  then
    let begin_hostport := (begin_hostport + 2)%nat in
    let '(begin_path, hp) :=
      parse_hostport env (c_str (substr_from inp begin_hostport)) in
    let out2 :=
      {| type := type out1; path_type := path_type out1;
         scheme := scheme out1; hostport := hp; path := path out1;
         query := query out1; fragment := fragment out1 |} in
    if 0 <=? begin_path then
      (UPNP_E_SUCCESS,
       parse_uri_path inp (Z.to_nat begin_path + begin_hostport) out2)
    else (begin_path, out2)
  else (UPNP_E_SUCCESS, parse_uri_path inp begin_hostport out1).

End Uri.

(** Strings without the markers of [remove_dots], without a given
    character. *)
Definition marker_free (s : string) : bool :=
  Uri.all_chars (fun c => negb (ascii_in Uri.markers c)) s.

Definition lacks (ch : ascii) (s : string) : bool :=
  Uri.all_chars (fun c => negb (Ascii.eqb c ch)) s.

(** What [parse_uri] makes of the input from [begin_path] on: the path,
    then the query behind a '?', then the fragment behind a '#'. *)
Definition uri_tail (out0 out : Uri.uri_type) (tail : string) : Prop :=
  exists q f,
    tail = Uri.path out +:+ q +:+ f
    /\ (q = "" /\ Uri.query out = Uri.query out0
        \/ q = String "?" (Uri.query out))
    /\ (f = "" /\ Uri.fragment out = Uri.fragment out0
        \/ f = String "#" (Uri.fragment out))
    /\ lacks "?" (Uri.path out) = true
    /\ lacks "#" (Uri.path out) = true
    /\ (q <> "" -> lacks "#" (Uri.query out) = true).

(** ** The thread pool ([ThreadPool.cpp]) *)

Module ThreadPool.

Inductive ThreadPriority := LOW_PRIORITY | MED_PRIORITY | HIGH_PRIORITY.

(** [ThreadPoolJob]: the routine and its argument are pointers, kept as
    numbers; [requestTime] is a [steady_clock::time_point], in
    nanoseconds. *)
Record ThreadPoolJob := {
  func : Z;
  arg : Z;
  priority : ThreadPriority;
  requestTime : Z;
  jobId : Z
}.

(** The fields of [ThreadPoolAttr] the file reads ([ThreadPool.h] is not
    among the sources). *)
Record ThreadPoolAttr := {
  minThreads : Z;
  maxThreads : Z;
  maxIdleTime : Z;
  jobsPerThread : Z;
  maxJobsTotal : Z;
  starvationTime : Z
}.

Section Pool.

(** [double], its addition and the conversion from [long]. *)
Context {double : Type} (dadd : double -> double -> double)
  (of_long : Z -> double).

(** The counters of [ThreadPoolStats] that the job queues feed. *)
Record ThreadPoolStats := {
  totalTimeHQ : double;
  totalJobsHQ : Z;
  totalTimeMQ : double;
  totalJobsMQ : Z;
  totalTimeLQ : double;
  totalJobsLQ : Z
}.

(** [ThreadPool::Internal], without its mutex and condition variables:
    the functions below run with the mutex held. *)
Record Internal := {
  lastJobId : Z;
  shuttingdown : bool;
  totalThreads : Z;
  pendingWorkerThreadStart : Z;
  busyThreads : Z;
  persistentThreads : Z;
  lowJobQ : list ThreadPoolJob;
  medJobQ : list ThreadPoolJob;
  highJobQ : list ThreadPoolJob;
  persistentJob : option ThreadPoolJob;
  attr : ThreadPoolAttr;
  stats : ThreadPoolStats
}.

Definition set_queues (tp : Internal) (low med high : list ThreadPoolJob)
    (st : ThreadPoolStats) : Internal :=
  {| lastJobId := lastJobId tp; shuttingdown := shuttingdown tp;
     totalThreads := totalThreads tp;
     pendingWorkerThreadStart := pendingWorkerThreadStart tp;
     busyThreads := busyThreads tp;
     persistentThreads := persistentThreads tp;
     lowJobQ := low; medJobQ := med; highJobQ := high;
     persistentJob := persistentJob tp; attr := attr tp; stats := st |}.

Definition StatsAccountLQ (st : ThreadPoolStats) (diffTime : Z)
    : ThreadPoolStats :=
  {| totalTimeHQ := totalTimeHQ st; totalJobsHQ := totalJobsHQ st;
     totalTimeMQ := totalTimeMQ st; totalJobsMQ := totalJobsMQ st;
     totalTimeLQ := dadd (totalTimeLQ st) (of_long diffTime);
     totalJobsLQ := totalJobsLQ st + 1 |}.

Definition StatsAccountMQ (st : ThreadPoolStats) (diffTime : Z)
    : ThreadPoolStats :=
  {| totalTimeHQ := totalTimeHQ st; totalJobsHQ := totalJobsHQ st;
     totalTimeMQ := dadd (totalTimeMQ st) (of_long diffTime);
     totalJobsMQ := totalJobsMQ st + 1;
     totalTimeLQ := totalTimeLQ st; totalJobsLQ := totalJobsLQ st |}.

Definition StatsAccountHQ (st : ThreadPoolStats) (diffTime : Z)
    : ThreadPoolStats :=
  {| totalTimeHQ := dadd (totalTimeHQ st) (of_long diffTime);
     totalJobsHQ := totalJobsHQ st + 1;
     totalTimeMQ := totalTimeMQ st; totalJobsMQ := totalJobsMQ st;
     totalTimeLQ := totalTimeLQ st; totalJobsLQ := totalJobsLQ st |}.

(** [duration_cast<milliseconds>(now - job->requestTime).count()]: the
    cast truncates toward zero. *)
Definition diffTime (now : Z) (job : ThreadPoolJob) : Z :=
  Z.quot (now - requestTime job) 1000000.

Definition CalcWaitTime (now : Z) (p : ThreadPriority)
    (job : ThreadPoolJob) (st : ThreadPoolStats) : ThreadPoolStats :=
  match p with
  | LOW_PRIORITY => StatsAccountLQ st (diffTime now job)
  | MED_PRIORITY => StatsAccountMQ st (diffTime now job)
  | HIGH_PRIORITY => StatsAccountHQ st (diffTime now job)
  end.

(** The [while (!done)] loop of [bumpPriority], one iteration per unit
    of [fuel]. *)
Fixpoint bumpPriority_loop (fuel : nat) (now : Z) (tp : Internal)
    : Internal :=
  match fuel with
  | O => tp
  | S fuel' =>
      let low_queue :=
        match lowJobQ tp with
        | tempJob :: low' =>
            if maxIdleTime (attr tp) <=? diffTime now tempJob then
              bumpPriority_loop fuel' now
                (set_queues tp low' (medJobQ tp ++ [tempJob]) (highJobQ tp)
                   (StatsAccountLQ (stats tp) (diffTime now tempJob)))
            else tp
        | [] => tp
        end in
      match medJobQ tp with
      | tempJob :: med' =>
          if starvationTime (attr tp) <=? diffTime now tempJob then
            bumpPriority_loop fuel' now
              (set_queues tp (lowJobQ tp) med' (highJobQ tp ++ [tempJob])
                 (StatsAccountMQ (stats tp) (diffTime now tempJob)))
          else low_queue
      | [] => low_queue
      end
  end.

(** [bumpPriority], called at the time [now]: a job leaves the middle
    queue or moves from the low queue to the middle one at every
    iteration but the last, hence the bound on their number. *)
Definition bumpPriority (now : Z) (tp : Internal) : Internal :=
  bumpPriority_loop
    (S (2 * length (lowJobQ tp) + length (medJobQ tp))) now tp.

(** What [bumpPriority] promises, for the jobs [ms] moved from the low
    queue to the middle one and the jobs [hs] moved from the middle
    queue to the high one. *)
Definition bumped (now : Z) (tp tp' : Internal)
    (ms hs : list ThreadPoolJob) : Prop :=
  lowJobQ tp = ms ++ lowJobQ tp'
  /\ medJobQ tp ++ ms = hs ++ medJobQ tp'
  /\ highJobQ tp' = highJobQ tp ++ hs
  /\ Forall (fun j => maxIdleTime (attr tp) <= diffTime now j) ms
  /\ Forall (fun j => starvationTime (attr tp) <= diffTime now j) hs
  /\ match medJobQ tp' with
     | j :: _ => diffTime now j < starvationTime (attr tp)
     | [] => True
     end
  /\ match lowJobQ tp' with
     | j :: _ => diffTime now j < maxIdleTime (attr tp)
     | [] => True
     end
  /\ totalJobsLQ (stats tp') = totalJobsLQ (stats tp) + Z.of_nat (length ms)
  /\ totalJobsMQ (stats tp') = totalJobsMQ (stats tp) + Z.of_nat (length hs)
  /\ totalJobsHQ (stats tp') = totalJobsHQ (stats tp)
  /\ totalTimeLQ (stats tp')
     = fold_left (fun t j => dadd t (of_long (diffTime now j))) ms
         (totalTimeLQ (stats tp))
  /\ totalTimeMQ (stats tp')
     = fold_left (fun t j => dadd t (of_long (diffTime now j))) hs
         (totalTimeMQ (stats tp))
  /\ totalTimeHQ (stats tp') = totalTimeHQ (stats tp)
  /\ attr tp' = attr tp
  /\ persistentJob tp' = persistentJob tp
  /\ shuttingdown tp' = shuttingdown tp.

End Pool.

End ThreadPool.

(** ** Small utilities ([smallut.h]) *)

(** [s.insert(0, n, ch)] and [leftzeropad(s, len)]. *)
Fixpoint insert_front (n : nat) (ch : ascii) (s : string) : string :=
  match n with
  | O => s
  | S n' => String ch (insert_front n' ch s)
  end.

Definition leftzeropad (s : string) (len : nat) : string :=
  if negb (Nat.eqb (String.length s) 0) && (String.length s <? len)%nat
  then insert_front (len - String.length s) "0" s
  else s.

(** The macro [VERSION_AT_LEAST]. *)
Definition VERSION_AT_LEAST (LIBMAJ LIBMIN LIBREV TARGMAJ TARGMIN TARGREV : Z)
    : bool :=
  (TARGMAJ <? LIBMAJ)
  || ((LIBMAJ =? TARGMAJ)
      && ((TARGMIN <? LIBMIN)
          || ((LIBMIN =? TARGMIN) && (TARGREV <=? LIBREV)))).

(** ** Sample inputs for the URI parser and the thread pool *)

Definition net0 : Uri.NetEnv :=
  {| Uri.getaddrinfo := fun name =>
       if String.eqb name "localhost"
       then (0, [ {| Uri.ai_family := Uri.AF_INET;
                     Uri.ai_addr := {| Uri.ss_family := Uri.AF_INET;
                                       Uri.sin_port := 0;
                                       Uri.sin_addr := "127.0.0.1";
                                       Uri.sin6_scope_id := 0 |} |} ])
       else (-2, []);
     Uri.inet_pton := fun _ s => (1, s);
     Uri.gIF_INDEX := 0 |}.

Definition uri_empty : Uri.uri_type :=
  {| Uri.type := Uri.URITP_RELATIVE; Uri.path_type := Uri.REL_PATH;
     Uri.scheme := ""; Uri.hostport := Uri.hostport_empty;
     Uri.path := ""; Uri.query := ""; Uri.fragment := "" |}.

Definition job_at (id t : Z) (p : ThreadPool.ThreadPriority)
    : ThreadPool.ThreadPoolJob :=
  {| ThreadPool.func := 0; ThreadPool.arg := 0; ThreadPool.priority := p;
     ThreadPool.requestTime := t; ThreadPool.jobId := id |}.

Definition pool0 : @ThreadPool.Internal Z :=
  {| ThreadPool.lastJobId := 3; ThreadPool.shuttingdown := false;
     ThreadPool.totalThreads := 1;
     ThreadPool.pendingWorkerThreadStart := 0;
     ThreadPool.busyThreads := 0; ThreadPool.persistentThreads := 0;
     ThreadPool.lowJobQ := [job_at 0 0 ThreadPool.LOW_PRIORITY];
     ThreadPool.medJobQ := [job_at 1 0 ThreadPool.MED_PRIORITY];
     ThreadPool.highJobQ := [job_at 2 0 ThreadPool.HIGH_PRIORITY];
     ThreadPool.persistentJob := None;
     ThreadPool.attr :=
       {| ThreadPool.minThreads := 1; ThreadPool.maxThreads := 10;
          ThreadPool.maxIdleTime := 10000; ThreadPool.jobsPerThread := 10;
          ThreadPool.maxJobsTotal := 100;
          ThreadPool.starvationTime := 500 |};
     ThreadPool.stats :=
       {| ThreadPool.totalTimeHQ := 0; ThreadPool.totalJobsHQ := 0;
          ThreadPool.totalTimeMQ := 0; ThreadPool.totalJobsMQ := 0;
          ThreadPool.totalTimeLQ := 0; ThreadPool.totalJobsLQ := 0 |} |}.

(** * Properties *)

(** ** HTTP transport adapter *)

Section Transport.

Context (cfg : Config) (env : Env).

Lemma gena_subscribe_sent url timeout renewal_sid dest_url myaddr :
  http_FixStrUrl env url = (0, dest_url) ->
  interfaceForAddress env (hostport_IPaddress dest_url) = Some myaddr ->
  sr_trace (gena_subscribe cfg env url timeout renewal_sid)
  = [EvHttpRequest "SUBSCRIBE" (uri_asurlstr dest_url)
       (subscribe_hlist cfg myaddr renewal_sid
          (match timeout with
           | Some t => t
           | None => CP_MINIMUM_SUBSCRIPTION_TIME cfg
           end))].
Proof.
  intros Hurl Hif. unfold gena_subscribe. rewrite Hurl. cbn [negb Z.eqb].
  rewrite Hif.
  destruct (negb (curlcode _ =? CURLE_OK)); [reflexivity|].
  destruct (negb (http_status _ =? HTTP_OK)); [reflexivity|].
  destruct (http_headers _ !! "sid"); [|reflexivity].
  destruct (http_headers _ !! "timeout"); [|reflexivity].
  destruct (timeout_header_value _ _ _) as [[] t']; reflexivity.
Qed.

Lemma timeout_headers_of_hlist myaddr renewal_sid timeout :
  List.filter is_timeout_header (subscribe_hlist cfg myaddr renewal_sid timeout)
  = ["TIMEOUT: Second-" +:+ timostr cfg timeout].
Proof.
  unfold subscribe_hlist. destruct (decide (renewal_sid = "")); reflexivity.
Qed.

(** C5: the SUBSCRIBE request that goes out carries exactly one TIMEOUT
    header, [TIMEOUT: Second-N], where N is "infinite" for a negative
    requested timeout, the minimum subscription time for a non-negative
    one below that minimum, and the requested value otherwise. *)
Theorem gena_subscribe_timeout_header url timeout renewal_sid dest_url myaddr :
  http_FixStrUrl env url = (0, dest_url) ->
  interfaceForAddress env (hostport_IPaddress dest_url) = Some myaddr ->
  exists hlist N,
    requests "SUBSCRIBE"
      (sr_trace (gena_subscribe cfg env url (Some timeout) renewal_sid)) = [hlist]
    /\ List.filter is_timeout_header hlist = ["TIMEOUT: Second-" +:+ N]
    /\ (timeout < 0 -> N = "infinite")
    /\ (0 <= timeout < CP_MINIMUM_SUBSCRIPTION_TIME cfg ->
        N = decimal (CP_MINIMUM_SUBSCRIPTION_TIME cfg))
    /\ (0 <= timeout -> CP_MINIMUM_SUBSCRIPTION_TIME cfg <= timeout ->
        N = decimal timeout).
Proof.
  intros Hurl Hif.
  exists (subscribe_hlist cfg myaddr renewal_sid timeout), (timostr cfg timeout).
  rewrite (gena_subscribe_sent _ _ _ _ _ Hurl Hif).
  split; [reflexivity|]. split; [apply timeout_headers_of_hlist|].
  unfold timostr. repeat split; intros.
  - destruct (Z.ltb_spec timeout 0); [reflexivity | lia].
  - destruct (Z.ltb_spec timeout 0); [lia|].
    destruct (Z.ltb_spec timeout (CP_MINIMUM_SUBSCRIPTION_TIME cfg)); [reflexivity | lia].
  - destruct (Z.ltb_spec timeout 0); [lia|].
    destruct (Z.ltb_spec timeout (CP_MINIMUM_SUBSCRIPTION_TIME cfg)); [lia | reflexivity].
Qed.

(** C4: once the request is sent, a failed transfer gives
    [UPNP_E_SOCKET_CONNECT], a status other than 200 gives
    [UPNP_E_SUBSCRIBE_UNACCEPTED], a 200 answer without SID or TIMEOUT
    header gives [UPNP_E_BAD_RESPONSE], and on success the SID of the
    answer and the timeout read from its TIMEOUT header are returned. *)
Theorem gena_subscribe_outcomes url timeout renewal_sid dest_url myaddr :
  http_FixStrUrl env url = (0, dest_url) ->
  interfaceForAddress env (hostport_IPaddress dest_url) = Some myaddr ->
  let t := match timeout with
           | Some t => t
           | None => CP_MINIMUM_SUBSCRIPTION_TIME cfg
           end in
  let reply := curl_easy_perform env "SUBSCRIBE" (uri_asurlstr dest_url)
                 (subscribe_hlist cfg myaddr renewal_sid t) in
  let r := gena_subscribe cfg env url timeout renewal_sid in
  (curlcode reply <> CURLE_OK -> sr_code r = UPNP_E_SOCKET_CONNECT)
  /\ (curlcode reply = CURLE_OK -> http_status reply <> HTTP_OK ->
      sr_code r = UPNP_E_SUBSCRIBE_UNACCEPTED)
  /\ (curlcode reply = CURLE_OK -> http_status reply = HTTP_OK ->
      http_headers reply !! "sid" = None \/ http_headers reply !! "timeout" = None ->
      sr_code r = UPNP_E_BAD_RESPONSE)
  /\ (forall sid tv granted,
        curlcode reply = CURLE_OK -> http_status reply = HTTP_OK ->
        http_headers reply !! "sid" = Some sid ->
        http_headers reply !! "timeout" = Some tv ->
        timeout_header_value env (http_headers reply) t = (true, granted) ->
        sr_code r = UPNP_E_SUCCESS /\ sr_sid r = sid /\ sr_timeout r = granted).
Proof.
  intros Hurl Hif t reply r. subst r. unfold gena_subscribe.
  rewrite Hurl. cbn [negb Z.eqb]. rewrite Hif. fold t. fold reply.
  split; [|split; [|split]].
  - intros Hc. apply Z.eqb_neq in Hc. rewrite Hc. reflexivity.
  - intros Hc Hs. apply Z.eqb_eq in Hc. apply Z.eqb_neq in Hs.
    rewrite Hc, Hs. reflexivity.
  - intros Hc Hs Hmiss. apply Z.eqb_eq in Hc. apply Z.eqb_eq in Hs.
    rewrite Hc, Hs. cbn [negb].
    destruct Hmiss as [Hm | Hm]; rewrite Hm; [reflexivity|].
    destruct (http_headers reply !! "sid"); reflexivity.
  - intros sid tv granted Hc Hs Hsid Htv Hparse.
    apply Z.eqb_eq in Hc. apply Z.eqb_eq in Hs.
    rewrite Hc, Hs, Hsid, Htv, Hparse. repeat split.
Qed.

End Transport.

Lemma gena_subscribe_timeout_header_witness :
  exists hlist N,
    requests "SUBSCRIBE"
      (sr_trace (gena_subscribe cfg0 env_ok url0 (Some 5) "")) = [hlist]
    /\ List.filter is_timeout_header hlist = ["TIMEOUT: Second-" +:+ N]
    /\ (5 < 0 -> N = "infinite")
    /\ (0 <= 5 < CP_MINIMUM_SUBSCRIPTION_TIME cfg0 ->
        N = decimal (CP_MINIMUM_SUBSCRIPTION_TIME cfg0))
    /\ (0 <= 5 -> CP_MINIMUM_SUBSCRIPTION_TIME cfg0 <= 5 -> N = decimal 5).
Proof.
  apply (gena_subscribe_timeout_header cfg0 env_ok url0 5 ""
           {| hostport_IPaddress := {| family := IPV4; straddr := "10.0.0.5" |};
              uri_asurlstr := url0 |}
           {| family := IPV4; straddr := "10.0.0.2" |}); reflexivity.
Defined.

Lemma gena_subscribe_outcomes_witness :
  sr_code (gena_subscribe cfg0 env_ok url0 (Some 1800) "") = UPNP_E_SUCCESS
  /\ sr_sid (gena_subscribe cfg0 env_ok url0 (Some 1800) "") = "uuid:efgh"
  /\ sr_timeout (gena_subscribe cfg0 env_ok url0 (Some 1800) "") = 1800.
Proof.
  apply (proj2 (proj2 (proj2
    (gena_subscribe_outcomes cfg0 env_ok url0 (Some 1800) ""
       {| hostport_IPaddress := {| family := IPV4; straddr := "10.0.0.5" |};
          uri_asurlstr := url0 |}
       {| family := IPV4; straddr := "10.0.0.2" |} eq_refl eq_refl)))
    "uuid:efgh" "Second-1800" 1800); reflexivity.
Defined.

(** ** Subscription table *)

Lemma client_of_Some tbl Hnd hi :
  client_of tbl Hnd = Some hi <-> tbl !! Hnd = Some hi /\ HType hi = HND_CLIENT.
Proof.
  unfold client_of, GetHandleInfo. split.
  - destruct (tbl !! Hnd) as [hi'|] eqn:E; [|discriminate].
    destruct (HType hi') eqn:T; try discriminate.
    intros [= <-]. auto.
  - intros [-> T]. rewrite T. reflexivity.
Qed.

Lemma client_of_insert tbl Hnd hi l :
  HType hi = HND_CLIENT ->
  client_of (<[Hnd := set_ClientSubList hi l]> tbl) Hnd
  = Some (set_ClientSubList hi l).
Proof.
  intros T. apply client_of_Some. rewrite lookup_insert_eq. auto.
Qed.

Lemma subscriptions_insert tbl Hnd hi l :
  HType hi = HND_CLIENT ->
  subscriptions (<[Hnd := set_ClientSubList hi l]> tbl) Hnd = l.
Proof.
  intros T. unfold subscriptions. rewrite client_of_insert by assumption.
  reflexivity.
Qed.

Lemma find_if_remove_if sid l :
  find_if (sid_is sid) (remove_if (sid_is sid) l) = None.
Proof.
  unfold find_if, remove_if. induction l as [|e l IH]; [reflexivity|].
  cbn [List.filter]. destruct (sid_is sid e) eqn:E; cbn [negb]; [exact IH|].
  cbn [List.find]. rewrite E. exact IH.
Qed.

Lemma sid_is_set_SID sid e : sid_is sid (set_SID sid e) = true.
Proof. unfold sid_is. cbn. apply String.eqb_refl. Qed.

(** ** Traces of the building blocks *)

Lemma gena_subscribe_trace cfg env url timeout renewal_sid :
  let tr := sr_trace (gena_subscribe cfg env url timeout renewal_sid) in
  tr = [] \/ exists u hlist, tr = [EvHttpRequest "SUBSCRIBE" u hlist].
Proof.
  unfold gena_subscribe. destruct (http_FixStrUrl env url) as [rc dest].
  destruct (negb (rc =? 0)); [left; reflexivity|].
  destruct (interfaceForAddress _ _); [|left; reflexivity].
  right. eexists _, _.
  destruct (negb (curlcode _ =? CURLE_OK)); [reflexivity|].
  destruct (negb (http_status _ =? HTTP_OK)); [reflexivity|].
  destruct (http_headers _ !! "sid"); [|reflexivity].
  destruct (http_headers _ !! "timeout"); [|reflexivity].
  destruct (timeout_header_value _ _ _) as [[] t']; reflexivity.
Qed.

Lemma scheduled_app a b : scheduled (a ++ b) = scheduled a ++ scheduled b.
Proof. apply List.filter_app. Qed.

Lemma callbacks_app a b : callbacks (a ++ b) = callbacks a ++ callbacks b.
Proof. apply List.filter_app. Qed.

Create Rewrite HintDb trace.
#[local] Hint Rewrite scheduled_app callbacks_app : trace.

(** Closes a goal on the upcalls or the timer jobs of a trace made of
    lock events and of pieces already known to hold none. *)
Ltac quiet_trace :=
  cbn [gs_trace gr_trace jw_trace snd];
  autorewrite with trace;
  repeat match goal with
         | H : scheduled _ = [] |- _ => rewrite H
         | H : callbacks _ = [] |- _ => rewrite H
         end;
  reflexivity.

Lemma gena_subscribe_quiet cfg env url timeout renewal_sid :
  scheduled (sr_trace (gena_subscribe cfg env url timeout renewal_sid)) = []
  /\ callbacks (sr_trace (gena_subscribe cfg env url timeout renewal_sid)) = [].
Proof.
  destruct (gena_subscribe_trace cfg env url timeout renewal_sid)
    as [-> | (u & hl & ->)]; split; reflexivity.
Qed.

Lemma ScheduleGenaAutoRenew_callbacks cfg env Hnd TimeOut sub :
  callbacks (snd (ScheduleGenaAutoRenew cfg env Hnd TimeOut sub)) = [].
Proof.
  unfold ScheduleGenaAutoRenew. destruct (TimeOut =? UPNP_INFINITE); [reflexivity|].
  destruct (TimerThread_schedule _ _ _) as [rc id].
  destruct (negb (rc =? UPNP_E_SUCCESS)); reflexivity.
Qed.

Lemma clientCancelRenew_callbacks sub :
  callbacks (snd (clientCancelRenew sub)) = [].
Proof.
  destruct sub as [s|]; [|reflexivity]. cbn.
  destruct (negb (renewEventId s =? -1)); reflexivity.
Qed.

(** A scheduling attempt that the timer thread refuses. *)
Lemma ScheduleGenaAutoRenew_refused cfg env Hnd TimeOut sub rc id :
  TimeOut <> UPNP_INFINITE ->
  TimerThread_schedule env (TimeOut - AUTO_RENEW_TIME cfg)
    {| ut_handle := Hnd;
       ut_Event := {| ues_Sid := SID sub; ues_ErrCode := UPNP_E_SUCCESS;
                      ues_PublisherUrl := upnp_strlcpy (eventURL sub) (NAME_SIZE cfg);
                      ues_TimeOut := TimeOut |} |} = (rc, id) ->
  rc <> UPNP_E_SUCCESS ->
  exists tr, ScheduleGenaAutoRenew cfg env Hnd TimeOut sub = (rc, sub, tr).
Proof.
  intros Hinf Hs Hrc. unfold ScheduleGenaAutoRenew.
  apply Z.eqb_neq in Hinf. rewrite Hinf, Hs.
  apply Z.eqb_neq in Hrc. rewrite Hrc. cbn [negb]. eauto.
Qed.

(** ** Subscription manager *)

Section Manager.

(** An operation of the manager on handle [Hnd], in the table [tbl],
    with [yield] for what other threads do while it waits for the network. *)
Context (cfg : Config) (env : Env) (yield : HandleTable -> HandleTable)
        (tbl : HandleTable) (Hnd : Z).

(** C3 (amended): when the renewal round trip fails and the handle is
    still a registered client once the handle lock is taken again, the
    subscriptions with the original SID are removed from the client's
    table and the error of the round trip is returned; when the handle
    is no longer a client at that point, [GENA_E_BAD_HANDLE] is returned
    instead, and the table is left as the other threads made it. *)
Theorem renew_transport_failure in_sid TimeOut hi sub :
  client_of tbl Hnd = Some hi ->
  find_if (sid_is in_sid) (ClientSubList hi) = Some sub ->
  let r := gena_subscribe cfg env (eventURL sub) (Some TimeOut) (SID sub) in
  sr_code r <> UPNP_E_SUCCESS ->
  let o := genaRenewSubscription cfg env yield tbl Hnd in_sid TimeOut in
  (forall hi2,
      client_of (yield (renew_marked tbl Hnd in_sid)) Hnd = Some hi2 ->
      gr_code o = sr_code r
      /\ subscriptions (gr_table o) Hnd
         = remove_if (sid_is in_sid) (ClientSubList hi2)
      /\ ~ has_sid (gr_table o) Hnd in_sid)
  /\ (client_of (yield (renew_marked tbl Hnd in_sid)) Hnd = None ->
      gr_code o = GENA_E_BAD_HANDLE
      /\ gr_table o = yield (renew_marked tbl Hnd in_sid)
      /\ ~ has_sid (gr_table o) Hnd in_sid).
Proof.
  intros Hc Hf r Hr o. subst o. split.
  - intros hi2 Hy.
    unfold genaRenewSubscription, renew_marked in *. rewrite Hc in *. rewrite Hf.
    cbn [set_renewEventId eventURL SID]. fold r. rewrite Hy.
    apply Z.eqb_neq in Hr. rewrite Hr. cbn [negb gr_code gr_table].
    apply client_of_Some in Hy as [_ Ty].
    assert (Hs : subscriptions
                   (<[Hnd := set_ClientSubList hi2
                               (remove_if (sid_is in_sid) (ClientSubList hi2))]>
                      (yield (<[Hnd := set_ClientSubList hi
                                         (assign_at (sid_is in_sid)
                                            (set_renewEventId (-1))
                                            (ClientSubList hi))]> tbl))) Hnd
                 = remove_if (sid_is in_sid) (ClientSubList hi2))
      by (apply subscriptions_insert; exact Ty).
    split; [reflexivity|]. split; [exact Hs|].
    unfold has_sid. rewrite Hs, find_if_remove_if. intros [s Hs']. discriminate.
  - intros Hy.
    unfold genaRenewSubscription, renew_marked in *. rewrite Hc in *. rewrite Hf.
    cbn [set_renewEventId eventURL SID]. rewrite Hy. cbn [gr_code gr_table].
    split; [reflexivity|]. split; [reflexivity|].
    unfold has_sid, subscriptions. rewrite Hy. intros [s Hs']. discriminate.
Qed.

(** C6 (amended): with a subscription S in the table, a first
    unsubscribe returns success and leaves no subscription S, whatever
    the network does, provided the handle is still a registered client
    once the handle lock is taken again, and a second unsubscribe on the
    resulting table then returns [GENA_E_BAD_SID]; when the handle is no
    longer a client at that point, the first unsubscribe returns
    [GENA_E_BAD_HANDLE]. *)
Theorem unsubscribe_twice in_sid :
  has_sid tbl Hnd in_sid ->
  let o := genaUnSubscribe cfg env yield tbl Hnd in_sid in
  (client_of (yield tbl) Hnd <> None ->
   gu_code o = GENA_SUCCESS
   /\ ~ has_sid (gu_table o) Hnd in_sid
   /\ forall cfg' env' yield',
        gu_code (genaUnSubscribe cfg' env' yield' (gu_table o) Hnd in_sid)
        = GENA_E_BAD_SID)
  /\ (client_of (yield tbl) Hnd = None ->
      gu_code o = GENA_E_BAD_HANDLE
      /\ gu_table o = yield tbl
      /\ ~ has_sid (gu_table o) Hnd in_sid).
Proof.
  intros [sub Hf] o. subst o. unfold subscriptions in Hf.
  destruct (client_of tbl Hnd) as [hi|] eqn:Hc; [|discriminate].
  split.
  - intros Hy.
    destruct (client_of (yield tbl) Hnd) as [hi2|] eqn:Hc2; [|congruence].
    assert (Ho : genaUnSubscribe cfg env yield tbl Hnd in_sid
                 = {| gu_code := GENA_SUCCESS;
                      gu_table :=
                        <[Hnd := set_ClientSubList hi2
                                   (remove_if (sid_is in_sid) (ClientSubList hi2))]>
                          (yield tbl);
                      gu_trace :=
                        ([HandleLock; HandleUnlock]
                         ++ snd (gena_unsubscribe cfg env (eventURL sub) (SID sub))
                         ++ snd (clientCancelRenew (Some sub)) ++ [HandleLock])
                        ++ [HandleUnlock] |})
      by (unfold genaUnSubscribe; rewrite Hc, Hf, Hc2; reflexivity).
    rewrite Ho. cbn [gu_code gu_table].
    apply client_of_Some in Hc2 as [_ Ty].
    split; [reflexivity|]. split.
    + unfold has_sid. rewrite subscriptions_insert by exact Ty.
      rewrite find_if_remove_if. intros [s Hs]. discriminate.
    + intros cfg' env' yield'. unfold genaUnSubscribe.
      rewrite client_of_insert by exact Ty. cbn [ClientSubList set_ClientSubList].
      rewrite find_if_remove_if. reflexivity.
  - intros Hy. unfold genaUnSubscribe. rewrite Hc, Hf, Hy.
    cbn [gu_code gu_table]. split; [reflexivity|]. split; [reflexivity|].
    unfold has_sid, subscriptions. rewrite Hy. intros [s Hs]. discriminate.
Qed.

End Manager.

Lemma renew_transport_failure_witness :
  (gr_code (genaRenewSubscription cfg0 env_down quiet tbl1 1 "uuid:abcd" 1800)
   = UPNP_E_SOCKET_CONNECT
   /\ subscriptions
        (gr_table (genaRenewSubscription cfg0 env_down quiet tbl1 1 "uuid:abcd" 1800)) 1
      = []
   /\ ~ has_sid
        (gr_table (genaRenewSubscription cfg0 env_down quiet tbl1 1 "uuid:abcd" 1800))
        1 "uuid:abcd")
  /\ gr_code (genaRenewSubscription cfg0 env_down (unregistered 1) tbl1 1
                 "uuid:abcd" 1800) = GENA_E_BAD_HANDLE.
Proof.
  split.
  - destruct (renew_transport_failure cfg0 env_down quiet tbl1 1 "uuid:abcd"
                1800 client1 sub_abcd eq_refl eq_refl
                ltac:(vm_compute; discriminate)) as [H _].
    exact (H (set_ClientSubList client1 [set_renewEventId (-1) sub_abcd])
             eq_refl).
  - destruct (renew_transport_failure cfg0 env_down (unregistered 1) tbl1 1
                "uuid:abcd" 1800 client1 sub_abcd eq_refl eq_refl
                ltac:(vm_compute; discriminate)) as [_ H].
    exact (proj1 (H eq_refl)).
Defined.

(** C3 as stated fails: the round trip fails with
    [UPNP_E_SOCKET_CONNECT], the client is unregistered meanwhile, and the
    caller gets [GENA_E_BAD_HANDLE]. *)
Lemma renew_transport_failure_unregistered :
  client_of tbl1 1 = Some client1
  /\ find_if (sid_is "uuid:abcd") (ClientSubList client1) = Some sub_abcd
  /\ sr_code (gena_subscribe cfg0 env_down (eventURL sub_abcd) (Some 1800)
                             (SID sub_abcd)) = UPNP_E_SOCKET_CONNECT
  /\ gr_code (genaRenewSubscription cfg0 env_down (unregistered 1) tbl1 1
                                    "uuid:abcd" 1800) = GENA_E_BAD_HANDLE
  /\ GENA_E_BAD_HANDLE <> UPNP_E_SOCKET_CONNECT.
Proof.
  repeat split; try reflexivity. discriminate.
Qed.

Lemma unsubscribe_twice_witness :
  (gu_code (genaUnSubscribe cfg0 env_down quiet tbl1 1 "uuid:abcd") = GENA_SUCCESS
   /\ ~ has_sid (gu_table (genaUnSubscribe cfg0 env_down quiet tbl1 1 "uuid:abcd"))
          1 "uuid:abcd"
   /\ forall cfg' env' yield',
        gu_code (genaUnSubscribe cfg' env' yield'
                   (gu_table (genaUnSubscribe cfg0 env_down quiet tbl1 1 "uuid:abcd"))
                   1 "uuid:abcd")
        = GENA_E_BAD_SID)
  /\ gu_code (genaUnSubscribe cfg0 env_down (unregistered 1) tbl1 1 "uuid:abcd")
     = GENA_E_BAD_HANDLE.
Proof.
  assert (has_sid tbl1 1 "uuid:abcd") as Hs by (exists sub_abcd; reflexivity).
  split.
  - destruct (unsubscribe_twice cfg0 env_down quiet tbl1 1 "uuid:abcd" Hs)
      as [H _].
    apply H. vm_compute. discriminate.
  - destruct (unsubscribe_twice cfg0 env_down (unregistered 1) tbl1 1
                "uuid:abcd" Hs) as [_ H].
    exact (proj1 (H eq_refl)).
Defined.

(** C6 as stated fails: the client is unregistered while the UNSUBSCRIBE
    request is in flight, and the first unsubscribe returns
    [GENA_E_BAD_HANDLE]. *)
Lemma unsubscribe_unregistered :
  find_if (sid_is "uuid:abcd") (subscriptions tbl1 1) = Some sub_abcd
  /\ gu_code (genaUnSubscribe cfg0 env_ok (unregistered 1) tbl1 1 "uuid:abcd")
     = GENA_E_BAD_HANDLE
  /\ GENA_E_BAD_HANDLE <> GENA_SUCCESS.
Proof.
  repeat split; try reflexivity. discriminate.
Qed.

(** ** Renewal scheduler *)

(** C9: scheduling a renewal for a granted timeout equal to the infinite
    sentinel returns success, hands nothing to the timer thread and
    leaves the subscription (its [renewEventId] included) as it was; a
    subscribe that is granted "infinite" schedules no timer, and when it
    succeeds the new subscription has [renewEventId] -1. *)
Theorem schedule_infinite cfg env yield tbl Hnd url TimeOut sub hi :
  ScheduleGenaAutoRenew cfg env Hnd UPNP_INFINITE sub = (GENA_SUCCESS, sub, [])
  /\ let r := gena_subscribe cfg env url (Some TimeOut) "" in
     let o := genaSubscribe cfg env yield tbl Hnd url TimeOut in
     (sr_timeout r = UPNP_INFINITE -> scheduled (gs_trace o) = [])
     /\ (sr_timeout r = UPNP_INFINITE ->
         sr_code r = UPNP_E_SUCCESS ->
         client_of tbl Hnd <> None ->
         client_of (yield tbl) Hnd = Some hi ->
         gs_code o = GENA_SUCCESS
         /\ subscriptions (gs_table o) Hnd
            = {| renewEventId := -1; SID := sr_sid r; eventURL := url |}
              :: ClientSubList hi).
Proof.
  split; [reflexivity|]. intros r o. subst o.
  pose proof (gena_subscribe_quiet cfg env url (Some TimeOut) "") as [Hq _].
  fold r in Hq. unfold genaSubscribe. fold r. split.
  - intros Hinf.
    destruct (client_of tbl Hnd); [|reflexivity].
    destruct (negb (sr_code r =? UPNP_E_SUCCESS)); [quiet_trace|].
    destruct (client_of (yield tbl) Hnd); [|quiet_trace].
    rewrite Hinf.
    change (ScheduleGenaAutoRenew cfg env Hnd UPNP_INFINITE ?s)
      with (GENA_SUCCESS, s, @nil Event).
    quiet_trace.
  - intros Hinf Hok Hc Hy.
    destruct (client_of tbl Hnd); [|congruence].
    rewrite Hok, Hy, Hinf. cbn [negb Z.eqb UPNP_E_SUCCESS].
    change (ScheduleGenaAutoRenew cfg env Hnd UPNP_INFINITE ?s)
      with (GENA_SUCCESS, s, @nil Event).
    cbn [gs_code gs_table].
    apply client_of_Some in Hy as [_ Ty].
    rewrite subscriptions_insert by exact Ty. split; reflexivity.
Qed.

Lemma schedule_infinite_witness :
  gs_code (genaSubscribe cfg0 env_infinite quiet tbl1 1 url0 (-1)) = GENA_SUCCESS
  /\ subscriptions (gs_table (genaSubscribe cfg0 env_infinite quiet tbl1 1 url0 (-1))) 1
     = {| renewEventId := -1;
          SID := sr_sid (gena_subscribe cfg0 env_infinite url0 (Some (-1)) "");
          eventURL := url0 |} :: ClientSubList client1.
Proof.
  apply (proj2 (proj2 (schedule_infinite cfg0 env_infinite quiet tbl1 1 url0 (-1)
                         sub_abcd client1))).
  - reflexivity.
  - reflexivity.
  - vm_compute. discriminate.
  - reflexivity.
Defined.

(** C10: when the SUBSCRIBE round trip succeeds and the timer thread
    refuses the renewal job, [genaSubscribe] returns the scheduler's code,
    the new subscription stays at the front of the table with
    [renewEventId] -1 and [out_sid] holds the granted SID; in the same
    situation [genaRenewSubscription] returns the scheduler's code and
    removes the renewed subscription from the table. *)
Theorem schedule_failure_subscribe_vs_renew
    cfg env yield tbl Hnd url in_sid TimeOut hi0 hi hi2 sub sub2 rc id rc' id' :
  (let r := gena_subscribe cfg env url (Some TimeOut) "" in
   let o := genaSubscribe cfg env yield tbl Hnd url TimeOut in
   client_of tbl Hnd <> None ->
   sr_code r = UPNP_E_SUCCESS ->
   client_of (yield tbl) Hnd = Some hi0 ->
   sr_timeout r <> UPNP_INFINITE ->
   TimerThread_schedule env (sr_timeout r - AUTO_RENEW_TIME cfg)
     {| ut_handle := Hnd;
        ut_Event := {| ues_Sid := sr_sid r; ues_ErrCode := UPNP_E_SUCCESS;
                       ues_PublisherUrl := upnp_strlcpy url (NAME_SIZE cfg);
                       ues_TimeOut := sr_timeout r |} |} = (rc, id) ->
   rc <> UPNP_E_SUCCESS ->
   gs_code o = rc
   /\ gs_out_sid o = sr_sid r
   /\ subscriptions (gs_table o) Hnd
      = {| renewEventId := -1; SID := sr_sid r; eventURL := url |}
        :: ClientSubList hi0)
  /\
  (let r := gena_subscribe cfg env (eventURL sub) (Some TimeOut) (SID sub) in
   let o := genaRenewSubscription cfg env yield tbl Hnd in_sid TimeOut in
   client_of tbl Hnd = Some hi ->
   find_if (sid_is in_sid) (ClientSubList hi) = Some sub ->
   sr_code r = UPNP_E_SUCCESS ->
   client_of (yield (renew_marked tbl Hnd in_sid)) Hnd = Some hi2 ->
   find_if (sid_is in_sid) (ClientSubList hi2) = Some sub2 ->
   sr_timeout r <> UPNP_INFINITE ->
   TimerThread_schedule env (sr_timeout r - AUTO_RENEW_TIME cfg)
     {| ut_handle := Hnd;
        ut_Event := {| ues_Sid := sr_sid r; ues_ErrCode := UPNP_E_SUCCESS;
                       ues_PublisherUrl := upnp_strlcpy (eventURL sub2) (NAME_SIZE cfg);
                       ues_TimeOut := sr_timeout r |} |} = (rc', id') ->
   rc' <> UPNP_E_SUCCESS ->
   gr_code o = rc'
   /\ subscriptions (gr_table o) Hnd
      = remove_if (sid_is (sr_sid r))
          (assign_at (sid_is in_sid) (fun _ => set_SID (sr_sid r) sub2)
                     (ClientSubList hi2))
   /\ ~ has_sid (gr_table o) Hnd (sr_sid r)).
Proof.
  split.
  - intros r o Hc Hok Hy Hinf Hs Hrc. subst o. unfold genaSubscribe. fold r.
    destruct (client_of tbl Hnd); [|congruence].
    rewrite Hok, Hy. cbn [negb Z.eqb UPNP_E_SUCCESS].
    destruct (ScheduleGenaAutoRenew_refused cfg env Hnd (sr_timeout r)
                {| renewEventId := -1; SID := sr_sid r; eventURL := url |}
                rc id Hinf Hs Hrc) as [tr ->].
    cbn [gs_code gs_out_sid gs_table].
    apply client_of_Some in Hy as [_ Ty].
    rewrite subscriptions_insert by exact Ty. repeat split.
  - intros r o Hc Hf Hok Hy Hf2 Hinf Hs Hrc. subst o.
    unfold genaRenewSubscription, renew_marked in *. rewrite Hc in *. rewrite Hf.
    cbn [set_renewEventId eventURL SID]. fold r. rewrite Hy, Hok, Hf2.
    cbn [negb Z.eqb UPNP_E_SUCCESS].
    destruct (ScheduleGenaAutoRenew_refused cfg env Hnd (sr_timeout r)
                (set_SID (sr_sid r) sub2) rc' id' Hinf Hs Hrc) as [tr ->].
    apply Z.eqb_neq in Hrc. unfold GENA_SUCCESS. rewrite Hrc.
    cbn [negb gr_code gr_table set_SID SID].
    apply client_of_Some in Hy as [_ Ty].
    unfold has_sid. rewrite subscriptions_insert by exact Ty.
    split; [reflexivity|]. split; [reflexivity|].
    rewrite find_if_remove_if. intros [s Hs']. discriminate.
Qed.

Lemma schedule_failure_subscribe_vs_renew_witness :
  (gs_code (genaSubscribe cfg0 env_nosched quiet tbl1 1 url0 1800) = -104
   /\ gs_out_sid (genaSubscribe cfg0 env_nosched quiet tbl1 1 url0 1800)
      = "uuid:efgh"
   /\ subscriptions (gs_table (genaSubscribe cfg0 env_nosched quiet tbl1 1 url0 1800)) 1
      = [{| renewEventId := -1; SID := "uuid:efgh"; eventURL := url0 |}; sub_abcd])
  /\ (gr_code (genaRenewSubscription cfg0 env_nosched quiet tbl1 1 "uuid:abcd" 1800)
      = -104
      /\ subscriptions
           (gr_table (genaRenewSubscription cfg0 env_nosched quiet tbl1 1
                                            "uuid:abcd" 1800)) 1
         = []).
Proof.
  pose proof (schedule_failure_subscribe_vs_renew cfg0 env_nosched quiet tbl1 1
                url0 "uuid:abcd" 1800 client1 client1
                (set_ClientSubList client1 [set_renewEventId (-1) sub_abcd])
                sub_abcd (set_renewEventId (-1) sub_abcd) (-104) 0 (-104) 0)
    as [Hs Hr].
  split.
  - refine (_ (Hs _ eq_refl eq_refl _ eq_refl _)).
    + intros H. exact H.
    + vm_compute. discriminate.
    + vm_compute. discriminate.
    + vm_compute. discriminate.
  - refine (_ (Hr eq_refl eq_refl eq_refl eq_refl eq_refl _ eq_refl _)).
    + intros (H1 & H2 & _). split; [exact H1 | exact H2].
    + vm_compute. discriminate.
    + vm_compute. discriminate.
Defined.

Lemma genaRenewSubscription_callbacks cfg env yield tbl Hnd in_sid TimeOut :
  callbacks (gr_trace (genaRenewSubscription cfg env yield tbl Hnd in_sid TimeOut)) = [].
Proof.
  unfold genaRenewSubscription.
  destruct (client_of tbl Hnd) as [hi|]; [|reflexivity].
  destruct (find_if _ _) as [sub|]; [|reflexivity].
  set (r := gena_subscribe _ _ _ _ _).
  pose proof (gena_subscribe_quiet cfg env (eventURL (set_renewEventId (-1) sub))
                (Some TimeOut) (SID (set_renewEventId (-1) sub))) as [_ Hq].
  fold r in Hq.
  pose proof (clientCancelRenew_callbacks (Some (set_renewEventId (-1) sub)))
    as Hc.
  destruct (client_of _ Hnd) as [hi2|]; [|quiet_trace].
  destruct (negb (sr_code r =? UPNP_E_SUCCESS)); [quiet_trace|].
  destruct (find_if _ (ClientSubList hi2)) as [sub2|]; [|quiet_trace].
  pose proof (ScheduleGenaAutoRenew_callbacks cfg env Hnd (sr_timeout r)
                (set_SID (sr_sid r) sub2)) as Hs.
  destruct (ScheduleGenaAutoRenew _ _ _ _ _) as [[rc sub3] str].
  cbn [snd] in Hs. quiet_trace.
Qed.

(** C8 (amended): with a nonzero [AUTO_RENEW_TIME] the job renews; after
    [GENA_E_BAD_SID], [GENA_E_BAD_HANDLE] or success there is no upcall;
    after any other code there is one upcall
    [UPNP_EVENT_AUTORENEWAL_FAILED] carrying that code, provided the
    handle is still a registered client when the job looks it up, and
    none otherwise.  With [AUTO_RENEW_TIME] zero the job does not renew
    and makes one upcall [UPNP_EVENT_SUBSCRIPTION_EXPIRED] with
    [UPNP_E_SUCCESS], again provided the handle is a registered client,
    and none otherwise. *)
Theorem auto_renew_job cfg env yield_renew yield_cb tbl m_event :
  let Hnd := ut_handle m_event in
  let s := ut_Event m_event in
  let r := genaRenewSubscription cfg env yield_renew tbl Hnd
             (ues_Sid s) (ues_TimeOut s) in
  let o := AutoRenewSubscriptionJobWorker_work cfg env yield_renew yield_cb
             tbl m_event in
  (AUTO_RENEW_TIME cfg <> 0 ->
   (exists rest, jw_trace o = gr_trace r ++ rest)
   /\ (gr_code r = UPNP_E_SUCCESS \/ gr_code r = GENA_E_BAD_SID
       \/ gr_code r = GENA_E_BAD_HANDLE ->
       callbacks (jw_trace o) = [])
   /\ (gr_code r <> UPNP_E_SUCCESS -> gr_code r <> GENA_E_BAD_SID ->
       gr_code r <> GENA_E_BAD_HANDLE ->
       callbacks (jw_trace o)
       = match client_of (yield_cb (gr_table r)) Hnd with
         | Some hi =>
             [EvCallback (Callback hi) UPNP_EVENT_AUTORENEWAL_FAILED
                (ArgSubscribe
                   {| ues_Sid := ues_Sid s; ues_ErrCode := gr_code r;
                      ues_PublisherUrl := ues_PublisherUrl s;
                      ues_TimeOut := gr_TimeOut r |})
                (Cookie hi)]
         | None => []
         end))
  /\ (AUTO_RENEW_TIME cfg = 0 ->
      jw_trace o
      = [HandleReadLock; HandleUnlock]
        ++ match client_of (yield_cb tbl) Hnd with
           | Some hi =>
               [EvCallback (Callback hi) UPNP_EVENT_SUBSCRIPTION_EXPIRED
                  (ArgSubscribe
                     {| ues_Sid := ues_Sid s; ues_ErrCode := UPNP_E_SUCCESS;
                        ues_PublisherUrl := ues_PublisherUrl s;
                        ues_TimeOut := ues_TimeOut s |})
                  (Cookie hi)]
           | None => []
           end).
Proof.
  intros Hnd s r o. subst o. unfold AutoRenewSubscriptionJobWorker_work.
  fold Hnd s r.
  pose proof (genaRenewSubscription_callbacks cfg env yield_renew tbl Hnd
                (ues_Sid s) (ues_TimeOut s)) as Hq. fold r in Hq.
  split.
  - intros Hauto. apply Z.eqb_neq in Hauto. rewrite Hauto.
    destruct (gr_code r =? UPNP_E_SUCCESS) eqn:E0;
      [|destruct (gr_code r =? GENA_E_BAD_SID) eqn:E1;
        [|destruct (gr_code r =? GENA_E_BAD_HANDLE) eqn:E2]];
      cbn [negb andb].
    1-3: (split; [exists []; cbn [jw_trace]; rewrite app_nil_r; reflexivity|];
          split; [intros _; exact Hq|];
          intros N0 N1 N2;
          first [apply Z.eqb_eq in E0 | apply Z.eqb_eq in E1 | apply Z.eqb_eq in E2];
          congruence).
    apply Z.eqb_neq in E0, E1, E2.
    destruct (client_of (yield_cb (gr_table r)) Hnd) as [hi|]; cbn [jw_trace].
    + split; [eexists; reflexivity|].
      split; [intros [H | [H | H]]; congruence|].
      intros _ _ _. rewrite callbacks_app, Hq. reflexivity.
    + split; [eexists; reflexivity|].
      split; [intros [H | [H | H]]; congruence|].
      intros _ _ _. rewrite callbacks_app, Hq. reflexivity.
  - intros Hauto. rewrite Hauto. cbn [Z.eqb].
    destruct (client_of (yield_cb tbl) Hnd) as [hi|]; reflexivity.
Qed.

Lemma auto_renew_job_witness :
  callbacks (jw_trace (AutoRenewSubscriptionJobWorker_work cfg0 env_500 quiet quiet
                         tbl1 job_abcd))
  = [EvCallback 100 UPNP_EVENT_AUTORENEWAL_FAILED
       (ArgSubscribe {| ues_Sid := "uuid:abcd";
                        ues_ErrCode := UPNP_E_SUBSCRIBE_UNACCEPTED;
                        ues_PublisherUrl := url0; ues_TimeOut := 1800 |})
       200]
  /\ jw_trace (AutoRenewSubscriptionJobWorker_work cfg_noauto env_ok quiet quiet
                 tbl1 job_abcd)
     = [HandleReadLock; HandleUnlock;
        EvCallback 100 UPNP_EVENT_SUBSCRIPTION_EXPIRED
          (ArgSubscribe {| ues_Sid := "uuid:abcd"; ues_ErrCode := UPNP_E_SUCCESS;
                           ues_PublisherUrl := url0; ues_TimeOut := 1800 |})
          200].
Proof.
  split.
  - refine (proj2 (proj2 (proj1 (auto_renew_job cfg0 env_500 quiet quiet tbl1 job_abcd)
                            _)) _ _ _); vm_compute; discriminate.
  - exact (proj2 (auto_renew_job cfg_noauto env_ok quiet quiet tbl1 job_abcd) eq_refl).
Defined.

(** C8 as stated fails: without auto-renewal, a job that fires when its
    handle is no longer a registered client makes no upcall. *)
Lemma auto_renew_job_unregistered :
  AUTO_RENEW_TIME cfg_noauto = 0
  /\ callbacks (jw_trace (AutoRenewSubscriptionJobWorker_work cfg_noauto env_ok
                            quiet quiet (unregistered 1 tbl1) job_abcd)) = [].
Proof.
  split; reflexivity.
Qed.

(** ** Notification receiver: the SEQ header *)

Lemma isdigit_not_space c : isdigit c = true -> isspace c = false.
Proof.
  destruct c as [[] [] [] [] [] [] [] []]; vm_compute; congruence.
Qed.

Lemma isdigit_not_sign c :
  isdigit c = true -> Ascii.eqb c "-" = false /\ Ascii.eqb c "+" = false.
Proof.
  destruct c as [[] [] [] [] [] [] [] []]; vm_compute; intuition congruence.
Qed.

Lemma append_cons c s t : String c s +:+ t = String c (s +:+ t).
Proof. reflexivity. Qed.

Lemma append_empty t : "" +:+ t = t.
Proof. reflexivity. Qed.

Lemma skip_space_app ws t :
  all_space ws = true -> skip_space (ws +:+ t) = skip_space t.
Proof.
  induction ws as [|c ws IH]; [reflexivity|]. cbn [all_space].
  intros [Hc Hws]%andb_true_iff. rewrite append_cons. cbn [skip_space].
  rewrite Hc. auto.
Qed.

Lemma skip_space_split s :
  exists ws, s = ws +:+ skip_space s /\ all_space ws = true.
Proof.
  induction s as [|c s (ws & E & Hws)].
  - exists "". auto.
  - cbn [skip_space]. destruct (isspace c) eqn:Hc.
    + exists (String c ws). rewrite append_cons. cbn [all_space].
      rewrite Hc, Hws, <- E. auto.
    + exists "". auto.
Qed.

Lemma scan_digits_all acc s v :
  scan_digits acc s = (v, "") -> all_digits s = true.
Proof.
  revert acc. induction s as [|c s IH]; intros acc; [reflexivity|].
  cbn [scan_digits all_digits]. destruct (isdigit c); [|discriminate].
  intros H. cbn [andb]. eauto.
Qed.

Lemma scan_digits_of_all acc s :
  all_digits s = true -> snd (scan_digits acc s) = "".
Proof.
  revert acc. induction s as [|c s IH]; intros acc; [reflexivity|].
  cbn [scan_digits all_digits]. intros [Hc Hs]%andb_true_iff.
  rewrite Hc. auto.
Qed.

(** The scan of a run of digits, with or without a sign in front. *)
Lemma scan_number_digits neg ds :
  nonneg_decimal ds = true -> fst (scan_number neg ds) = 1.
Proof.
  unfold nonneg_decimal, scan_number. intros [Hne Hall]%andb_true_iff.
  destruct ds as [|d ds']; [discriminate|].
  pose proof Hall as Hd. cbn [all_digits] in Hd.
  apply andb_true_iff in Hd as [Hd _]. rewrite Hd.
  pose proof (scan_digits_of_all 0 _ Hall) as Hrest.
  destruct (scan_digits 0 (String d ds')) as [v rest]. cbn [snd] in Hrest.
  rewrite Hrest. reflexivity.
Qed.

Lemma scan_number_accepts neg s2 :
  fst (scan_number neg s2) = 1 -> nonneg_decimal s2 = true.
Proof.
  unfold scan_number. destruct s2 as [|d s2']; [discriminate|].
  destruct (isdigit d) eqn:Hd; [|discriminate].
  destruct (scan_digits 0 (String d s2')) as [v rest] eqn:Hscan.
  destruct rest; [|discriminate]. intros _.
  apply scan_digits_all in Hscan. exact Hscan.
Qed.

(** [sscanf] returns 1 exactly on the strings of [signed_decimal]. *)
Lemma sscanf_accepts s : fst (sscanf_d_1c s) = 1 <-> signed_decimal s.
Proof.
  unfold sscanf_d_1c, signed_decimal. split.
  - destruct (skip_space_split s) as (ws & E & Hws).
    destruct (skip_space s) as [|c s1] eqn:Es; [discriminate|].
    intros H. exists ws.
    destruct (Ascii.eqb_spec c "-") as [-> | Hm].
    { exists "-", s1. repeat split; auto. exact (scan_number_accepts true s1 H). }
    destruct (Ascii.eqb_spec c "+") as [-> | Hp].
    { exists "+", s1. repeat split; auto. exact (scan_number_accepts false s1 H). }
    exists "", (String c s1). repeat split; auto.
    exact (scan_number_accepts false _ H).
  - intros (ws & sign & ds & -> & Hws & Hsign & Hds).
    rewrite skip_space_app by exact Hws.
    pose proof Hds as Hds'. unfold nonneg_decimal in Hds'.
    apply andb_true_iff in Hds' as [_ Hall].
    destruct Hsign as [-> | [-> | ->]];
      rewrite ?append_cons, ?append_empty.
    + destruct ds as [|d ds']; [discriminate|].
      pose proof Hall as Hd. cbn [all_digits] in Hd.
      apply andb_true_iff in Hd as [Hd _].
      cbn [skip_space]. rewrite (isdigit_not_space d Hd).
      destruct (isdigit_not_sign d Hd) as [-> ->].
      exact (scan_number_digits false _ Hds).
    + cbn [skip_space]. change (isspace "+") with false. cbn iota.
      change (Ascii.eqb "+" "-") with false. change (Ascii.eqb "+" "+") with true.
      cbn iota. exact (scan_number_digits false _ Hds).
    + cbn [skip_space]. change (isspace "-") with false. cbn iota.
      change (Ascii.eqb "-" "-") with true. cbn iota.
      exact (scan_number_digits true _ Hds).
Qed.

(** Every non-negative decimal integer is accepted, and so are signed
    ones. *)
Lemma nonneg_decimal_signed s : nonneg_decimal s = true -> signed_decimal s.
Proof.
  intros H. exists "", "", s. repeat split; auto.
Qed.

(** ** Notification receiver: validation and correlation *)

Lemma notify_validated_correlate env yield tbl mhdt sid eventKey propset :
  notify_validated env mhdt sid eventKey propset ->
  gena_process_notification_event env yield tbl mhdt
  = notify_correlate yield tbl sid eventKey propset.
Proof.
  intros (Hsid & (seq & Hseq & Hscan) & Hnt & Hnts & Hxml & Hbody & Hparse).
  unfold gena_process_notification_event.
  rewrite Hsid, Hseq, Hscan, Hnt, Hnts, Hxml, Hparse.
  apply String.eqb_neq in Hbody. rewrite Hbody. reflexivity.
Qed.

Lemma notify_correlate_statuses yield tbl sid eventKey propset :
  statuses (notify_correlate yield tbl sid eventKey propset) = [HTTP_OK]
  \/ statuses (notify_correlate yield tbl sid eventKey propset)
     = [HTTP_PRECONDITION_FAILED].
Proof.
  unfold notify_correlate.
  destruct (GetClientHandleInfo tbl) as [[h hi]|]; [|right; reflexivity].
  destruct (find_if _ _); [left; reflexivity|].
  destruct (eventKey =? 0); [|right; reflexivity].
  destruct (GetClientHandleInfo (yield tbl)) as [[h2 hi2]|]; [|right; reflexivity].
  destruct (find_if _ _); [left | right]; reflexivity.
Qed.

(** C1: a validated NOTIFY whose SID is not in the table of the client.
    With event key 0 the receiver releases the handle lock, takes the
    subscribe lock and the handle lock, once, and looks again: if the
    subscription is there it answers 200 and makes the upcall with the
    event; if it is not (or the client is gone) it answers 412 and makes
    no upcall.  With a nonzero event key it answers 412 without retrying
    and makes no upcall. *)
Theorem notify_unknown_sid env yield tbl mhdt sid eventKey propset Hnd hi :
  notify_validated env mhdt sid eventKey propset ->
  GetClientHandleInfo tbl = Some (Hnd, hi) ->
  find_if (sid_is sid) (ClientSubList hi) = None ->
  let tr := gena_process_notification_event env yield tbl mhdt in
  (eventKey = 0 ->
   (exists rest,
       tr = [HandleLock; HandleUnlock; SubscribeLock; HandleLock] ++ rest)
   /\ acquisitions GlobalClientSubscribeMutex tr = 1%nat
   /\ acquisitions GlobalHndMutex tr = 2%nat
   /\ (forall Hnd2 hi2 subscription,
         GetClientHandleInfo (yield tbl) = Some (Hnd2, hi2) ->
         find_if (sid_is sid) (ClientSubList hi2) = Some subscription ->
         statuses tr = [HTTP_OK]
         /\ callbacks tr
            = [EvCallback (Callback hi2) UPNP_EVENT_RECEIVED
                 (ArgEvent {| ue_Sid := SID subscription; ue_EventKey := 0;
                              ue_ChangedVariables := propset |})
                 (Cookie hi2)])
   /\ ((GetClientHandleInfo (yield tbl) = None
        \/ exists Hnd2 hi2,
             GetClientHandleInfo (yield tbl) = Some (Hnd2, hi2)
             /\ find_if (sid_is sid) (ClientSubList hi2) = None) ->
       statuses tr = [HTTP_PRECONDITION_FAILED] /\ callbacks tr = []))
  /\ (eventKey <> 0 ->
      statuses tr = [HTTP_PRECONDITION_FAILED]
      /\ callbacks tr = []
      /\ acquisitions GlobalClientSubscribeMutex tr = 0%nat
      /\ acquisitions GlobalHndMutex tr = 1%nat).
Proof.
  intros Hval Hc Hf tr. subst tr.
  rewrite (notify_validated_correlate _ _ _ _ _ _ _ Hval).
  unfold notify_correlate. rewrite Hc, Hf. split.
  - intros ->. cbn [Z.eqb].
    split; [eexists; reflexivity|].
    destruct (GetClientHandleInfo (yield tbl)) as [[h2 hi2]|] eqn:Hc2.
    + destruct (find_if (sid_is sid) (ClientSubList hi2)) as [sub|] eqn:Hf2.
      * split; [reflexivity|]. split; [reflexivity|]. split.
        -- intros h2' hi2' sub' [= <- <-]. rewrite Hf2. intros [= <-].
           split; reflexivity.
        -- intros [H | (h2' & hi2' & [= <- <-] & H)]; [discriminate|].
           congruence.
      * split; [reflexivity|]. split; [reflexivity|]. split.
        -- intros h2' hi2' sub' [= <- <-]. rewrite Hf2. discriminate.
        -- intros _. split; reflexivity.
    + split; [reflexivity|]. split; [reflexivity|]. split.
      * intros h2' hi2' sub'. discriminate.
      * intros _. split; reflexivity.
  - intros Hk. apply Z.eqb_neq in Hk. rewrite Hk. repeat split.
Qed.

Lemma notify_unknown_sid_witness :
  statuses (gena_process_notification_event env_ok subscribed tbl_empty
              (notify_seq "0")) = [HTTP_OK]
  /\ callbacks (gena_process_notification_event env_ok subscribed tbl_empty
                  (notify_seq "0"))
     = [EvCallback 100 UPNP_EVENT_RECEIVED
          (ArgEvent {| ue_Sid := "uuid:abcd"; ue_EventKey := 0;
                       ue_ChangedVariables := parse_propertyset doc_foo |})
          200].
Proof.
  refine (proj1 (proj2 (proj2 (proj2
            (proj1 (notify_unknown_sid env_ok subscribed tbl_empty (notify_seq "0")
                      "uuid:abcd" 0 (parse_propertyset doc_foo) 1
                      (set_ClientSubList client1 []) _ eq_refl eq_refl)
               eq_refl))))
            1 client1 sub_abcd eq_refl eq_refl).
  unfold notify_validated. repeat split; try reflexivity.
  - exists "0". split; reflexivity.
  - discriminate.
Defined.

(** C2 (amended): the checks of the receiver, in order, the first
    failure deciding the answer: no SID header, 412; no SEQ header, or a
    SEQ that is not an optionally signed decimal integer (white space
    allowed in front, nothing after the digits), 400; NT or NTS missing,
    400; NT other than "upnp:event" or NTS other than "upnp:propchange",
    412; content type not XML or empty body, 400; XML parse failure, 400.
    A transaction that passes them all goes on to correlation. *)
Theorem notify_validation env yield tbl mhdt :
  let tr := gena_process_notification_event env yield tbl mhdt in
  (headers mhdt !! "sid" = None -> tr = [EvSendStatus HTTP_PRECONDITION_FAILED])
  /\ (forall sid, headers mhdt !! "sid" = Some sid ->
      (headers mhdt !! "seq" = None -> tr = [EvSendStatus HTTP_BAD_REQUEST])
      /\ (forall seq, headers mhdt !! "seq" = Some seq ->
          (~ signed_decimal seq -> tr = [EvSendStatus HTTP_BAD_REQUEST])
          /\ (signed_decimal seq ->
              (headers mhdt !! "nt" = None \/ headers mhdt !! "nts" = None ->
               tr = [EvSendStatus HTTP_BAD_REQUEST])
              /\ (forall nt nts,
                  headers mhdt !! "nt" = Some nt ->
                  headers mhdt !! "nts" = Some nts ->
                  (nt <> "upnp:event" \/ nts <> "upnp:propchange" ->
                   tr = [EvSendStatus HTTP_PRECONDITION_FAILED])
                  /\ (nt = "upnp:event" -> nts = "upnp:propchange" ->
                      (has_xml_content_type env mhdt = false \/ postdata mhdt = "" ->
                       tr = [EvSendStatus HTTP_BAD_REQUEST])
                      /\ (has_xml_content_type env mhdt = true ->
                          postdata mhdt <> "" ->
                          (UPnPPropertysetParser_Parse env (postdata mhdt) = None ->
                           tr = [EvSendStatus HTTP_BAD_REQUEST])
                          /\ (forall propset,
                              UPnPPropertysetParser_Parse env (postdata mhdt)
                              = Some propset ->
                              tr = notify_correlate yield tbl sid
                                     (snd (sscanf_d_1c seq)) propset))))))).
Proof.
  intros tr. subst tr. unfold gena_process_notification_event. split.
  { intros ->. reflexivity. }
  intros sid ->. split.
  { intros ->. reflexivity. }
  intros seq ->. pose proof (sscanf_accepts seq) as Hacc.
  destruct (sscanf_d_1c seq) as [n eventKey]. cbn [fst snd] in *. split.
  { intros Hno. destruct (Z.eqb_spec n 1) as [-> | Hn]; [|reflexivity].
    exfalso. apply Hno, Hacc. reflexivity. }
  intros Hyes. apply Hacc in Hyes. subst n. cbn [Z.eqb Pos.eqb negb]. split.
  { intros [-> | ->]; [reflexivity|].
    destruct (headers mhdt !! "nt"); reflexivity. }
  intros nt nts -> ->. split.
  { intros [Hnt | Hnts].
    - apply String.eqb_neq in Hnt. rewrite Hnt. reflexivity.
    - apply String.eqb_neq in Hnts. rewrite Hnts, orb_true_r. reflexivity. }
  intros -> ->. cbn [String.eqb Ascii.eqb Bool.eqb negb orb]. split.
  { intros [-> | ->]; [reflexivity|]. rewrite orb_true_r. reflexivity. }
  intros -> Hbody. apply String.eqb_neq in Hbody. rewrite Hbody.
  cbn [negb orb]. split.
  { intros ->. reflexivity. }
  intros propset ->. reflexivity.
Qed.

Lemma notify_validation_witness :
  gena_process_notification_event env_ok quiet tbl1 (notify_seq "12x")
  = [EvSendStatus HTTP_BAD_REQUEST]
  /\ gena_process_notification_event env_ok quiet tbl1
       {| headers := notify_headers "3"; postdata := "<e:propertyset>" |}
     = [EvSendStatus HTTP_BAD_REQUEST].
Proof.
  split.
  - refine (proj1 (proj2 (proj2 (notify_validation env_ok quiet tbl1 (notify_seq "12x"))
                            "uuid:abcd" eq_refl) "12x" eq_refl) _).
    intros H. apply sscanf_accepts in H. vm_compute in H. discriminate.
  - pose proof (notify_validation env_ok quiet tbl1
                  {| headers := notify_headers "3"; postdata := "<e:propertyset>" |})
      as [_ H].
    destruct (H "uuid:abcd" eq_refl) as [_ H1].
    destruct (H1 "3" eq_refl) as [_ H2].
    assert (Hseq : signed_decimal "3") by (apply sscanf_accepts; reflexivity).
    destruct (H2 Hseq) as [_ H3].
    destruct (H3 "upnp:event" "upnp:propchange" eq_refl eq_refl) as [_ H4].
    destruct (H4 eq_refl eq_refl) as [_ H5].
    assert (Hbody : "<e:propertyset>" <> "") by discriminate.
    destruct (H5 eq_refl Hbody) as [H6 _].
    exact (H6 eq_refl).
Defined.

(** C2 as stated fails on the SEQ check: "-5" is not a non-negative
    decimal integer, yet the transaction is answered 200 and delivered
    with event key -5. *)
Lemma notify_negative_seq :
  nonneg_decimal "-5" = false
  /\ statuses (gena_process_notification_event env_ok quiet tbl1 (notify_seq "-5"))
     = [HTTP_OK]
  /\ callbacks (gena_process_notification_event env_ok quiet tbl1 (notify_seq "-5"))
     = [EvCallback 100 UPNP_EVENT_RECEIVED
          (ArgEvent {| ue_Sid := "uuid:abcd"; ue_EventKey := -5;
                       ue_ChangedVariables := parse_propertyset doc_foo |})
          200].
Proof.
  repeat split; vm_compute; reflexivity.
Qed.

(** ** Property-set parser *)

Lemma append_empty_r s : s +:+ "" = s.
Proof. induction s as [|c s IH]; [reflexivity|]. rewrite append_cons, IH. reflexivity. Qed.

Lemma append_assoc s t u : (s +:+ t) +:+ u = s +:+ (t +:+ u).
Proof.
  induction s as [|c s IH]; [reflexivity|]. rewrite !append_cons, IH. reflexivity.
Qed.

Lemma ltrimstring_app ws s t :
  ltrimstring ws (s +:+ t)
  = match ltrimstring ws s with
    | EmptyString => ltrimstring ws t
    | String c r => String c r +:+ t
    end.
Proof.
  induction s as [|c s IH]; [reflexivity|].
  rewrite append_cons. cbn [ltrimstring].
  destruct (ascii_in ws c); [exact IH | reflexivity].
Qed.

Lemma ltrimstring_app_compat ws s s' t :
  ltrimstring ws s = ltrimstring ws s' ->
  ltrimstring ws (s +:+ t) = ltrimstring ws (s' +:+ t).
Proof. intros H. rewrite !ltrimstring_app, H. reflexivity. Qed.

Lemma ltrimstring_blank s : all_blank s = true -> ltrimstring xml_blanks s = "".
Proof.
  induction s as [|c s IH]; [reflexivity|]. cbn [all_blank ltrimstring].
  intros [Hc Hs]%andb_true_iff. rewrite Hc. auto.
Qed.

Lemma last_wins_app l1 l2 m : last_wins (l1 ++ l2) m = last_wins l2 (last_wins l1 m).
Proof. apply fold_left_app. Qed.

Lemma parent_of_snoc base name : parent_of (base ++ [name]) = name.
Proof. unfold parent_of. apply last_last. Qed.

(** The parent name [EndElement] computes from [m_path]. *)
Lemma EndElement_parentname base name :
  (if (length (base ++ [name]) =? 1)%nat then "root"
   else default "" ((base ++ [name]) !! (length (base ++ [name]) - 2)%nat))
  = parent_of base.
Proof.
  destruct base as [|b base'] using rev_ind; [reflexivity|].
  rewrite parent_of_snoc, !length_app. cbn [length].
  replace (length base' + 1 + 1 =? 1)%nat with false
    by (symmetry; apply Nat.eqb_neq; lia).
  replace (length base' + 1 + 1 - 2)%nat with (length base') by lia.
  rewrite <- app_assoc. cbn [app].
  rewrite list_lookup_middle by reflexivity. reflexivity.
Qed.

(** The walk of the handlers over a leaf-text document, element by
    element: the path is restored, the character data is consumed, and the
    pairs of the element are entered in order. *)
Lemma walk_leaf_text :
  (forall e p,
      leaf_text e = true ->
      ltrimstring xml_blanks (m_chardata p) = "" ->
      m_path (walk p e) = m_path p
      /\ m_chardata (walk p e) = ""
      /\ propdata (walk p e)
         = last_wins (property_pairs (fun name => name) (parent_of (m_path p)) e)
                     (propdata p))
  /\ (forall c p own blank,
         leaf_body blank c = true ->
         (blank = true -> ltrimstring xml_blanks own = "") ->
         ltrimstring xml_blanks (m_chardata p) = ltrimstring xml_blanks own ->
         m_path (walk_content p c) = m_path p
         /\ ltrimstring xml_blanks (m_chardata (walk_content p c))
            = ltrimstring xml_blanks (own +:+ own_text c)
         /\ propdata (walk_content p c)
            = last_wins (content_pairs (fun name => name) (parent_of (m_path p)) c)
                        (propdata p)).
Proof.
  apply xml_mutind.
  - intros name body IH p Hleaf Hpend. cbn [leaf_text] in Hleaf.
    destruct (IH (push_path p name) "" true Hleaf (fun _ => eq_refl))
      as (Hpath & Htext & Hdata).
    { cbn [push_path m_chardata]. exact Hpend. }
    cbn [push_path m_path propdata] in Hpath, Hdata.
    rewrite parent_of_snoc in Hdata.
    cbn [walk property_pairs]. unfold EndElement, pop_path.
    cbn [m_path m_chardata propdata]. rewrite Hpath.
    rewrite EndElement_parentname, removelast_last.
    split; [reflexivity|]. split; [reflexivity|].
    rewrite last_wins_app, <- Hdata. unfold trimstring. rewrite Htext.
    rewrite append_empty. unfold is_property.
    destruct (dom_cmp_name (parent_of (m_path p)) "property" =? 0); reflexivity.
  - intros p own blank _ _ Hcd. cbn [walk_content own_text content_pairs].
    rewrite append_empty_r. auto.
  - intros s rest IH p own blank Hleaf Hblank Hcd.
    cbn [leaf_body walk_content own_text content_pairs] in *.
    assert (Hcd' : ltrimstring xml_blanks (m_chardata (CharacterData p s))
                   = ltrimstring xml_blanks (own +:+ s)).
    { destruct s as [|c s']; cbn [CharacterData m_chardata].
      - rewrite append_empty_r. exact Hcd.
      - apply ltrimstring_app_compat. exact Hcd. }
    destruct (IH (CharacterData p s) (own +:+ s) (blank && all_blank s) Hleaf)
      as (Hpath & Htext & Hdata).
    { intros [Hb Hs]%andb_true_iff. rewrite ltrimstring_app, (Hblank Hb).
      apply ltrimstring_blank. exact Hs. }
    { exact Hcd'. }
    assert (Hp : m_path (CharacterData p s) = m_path p)
      by (destruct s; reflexivity).
    assert (Hd : propdata (CharacterData p s) = propdata p)
      by (destruct s; reflexivity).
    rewrite Hp, Hd in *. rewrite append_assoc in Htext. auto.
  - intros e IHe rest IHrest p own blank Hleaf Hblank Hcd.
    cbn [leaf_body walk_content own_text content_pairs] in *.
    apply andb_true_iff in Hleaf as [[Hb He]%andb_true_iff Hrest].
    specialize (Hblank Hb).
    destruct (IHe p He) as (Hpath & Htext & Hdata); [congruence|].
    destruct (IHrest (walk p e) own true Hrest (fun _ => Hblank))
      as (Hpath' & Htext' & Hdata').
    { rewrite Htext, Hblank. reflexivity. }
    rewrite Hpath', Hpath, Htext', Hdata', Hdata, Hpath, last_wins_app. auto.
Qed.

(** C7 (amended): on a well-formed document whose text sits in leaf
    position, the parser leaves exactly one entry per element whose
    parent's local name is "property" (compared without case), keyed by
    the element name as the tokenizer delivers it (a namespace prefix is
    kept), with the element's character data, concatenated and trimmed
    of blanks at both ends, as value; later elements overwrite earlier
    ones of the same name. *)
Theorem parse_propertyset_leaf_text doc :
  leaf_text doc = true ->
  parse_propertyset doc = propertyset_verbatim doc.
Proof.
  intros Hleaf. unfold parse_propertyset, propertyset_verbatim.
  destruct (proj1 walk_leaf_text doc parser_init Hleaf eq_refl) as (_ & _ & H).
  exact H.
Qed.

Lemma parse_propertyset_leaf_text_witness :
  parse_propertyset doc_foo = propertyset_verbatim doc_foo.
Proof.
  apply (parse_propertyset_leaf_text doc_foo). reflexivity.
Defined.

(** C7 as stated fails on the key: for a variable element written
    [e:Foo] under [e:property] the parser enters "e:Foo", while the map
    of the specification has "Foo". *)
Lemma parse_propertyset_keeps_prefix :
  leaf_text doc_prefixed = true
  /\ parse_propertyset doc_prefixed !! "e:Foo" = Some "1"
  /\ parse_propertyset doc_prefixed !! "Foo" = None
  /\ propertyset_spec doc_prefixed !! "Foo" = Some "1"
  /\ propertyset_spec doc_prefixed !! "e:Foo" = None
  /\ parse_propertyset doc_prefixed <> propertyset_spec doc_prefixed.
Proof.
  assert (H1 : parse_propertyset doc_prefixed !! "Foo" = None)
    by (vm_compute; reflexivity).
  assert (H2 : propertyset_spec doc_prefixed !! "Foo" = Some "1")
    by (vm_compute; reflexivity).
  repeat split; try (vm_compute; reflexivity); try assumption.
  intros E. rewrite E in H1. congruence.
Qed.

(** An indented document with a parent in capitals and a repeated
    variable: blanks are trimmed, the case of the parent is ignored and
    the last value stays. *)
Example parse_propertyset_pretty :
  leaf_text doc_pretty = true
  /\ map_to_list (parse_propertyset doc_pretty) = [("Foo", "1"); ("Bar", "b")]
  /\ parse_propertyset doc_pretty = propertyset_spec doc_pretty.
Proof.
  repeat split; vm_compute; reflexivity.
Qed.

(** Outside leaf position the value is what [m_chardata] gathered since
    the previous end tag: text in front of the start tag comes along. *)
Example parse_propertyset_stray_text :
  leaf_text doc_stray = false
  /\ parse_propertyset doc_stray !! "Foo" = Some "x1"
  /\ propertyset_verbatim doc_stray !! "Foo" = Some "1".
Proof.
  repeat split; vm_compute; reflexivity.
Qed.

Lemma property_pairs_plain :
  (forall e parentname,
      plain_names parentname e = true ->
      property_pairs local_name parentname e
      = property_pairs (fun name => name) parentname e)
  /\ (forall c parentname,
         plain_names_content parentname c = true ->
         content_pairs local_name parentname c
         = content_pairs (fun name => name) parentname c).
Proof.
  apply xml_mutind.
  - intros name body IH parentname. cbn [plain_names property_pairs].
    intros [Hname Hbody]%andb_true_iff. rewrite (IH name Hbody).
    destruct (is_property parentname); [|reflexivity].
    unfold local_name. destruct (after_colon name); [discriminate | reflexivity].
  - reflexivity.
  - intros s rest IH parentname. exact (IH parentname).
  - intros e IHe rest IHrest parentname. cbn [plain_names_content content_pairs].
    intros [He Hrest]%andb_true_iff.
    rewrite (IHe parentname He), (IHrest parentname Hrest). reflexivity.
Qed.

(** Where the variable elements carry no prefix the two maps agree, and
    the parser computes the map of the specification. *)
Corollary parse_propertyset_plain doc :
  leaf_text doc = true ->
  plain_names "root" doc = true ->
  parse_propertyset doc = propertyset_spec doc.
Proof.
  intros Hleaf Hplain. unfold parse_propertyset, propertyset_spec.
  destruct (proj1 walk_leaf_text doc parser_init Hleaf eq_refl) as (_ & _ & ->).
  rewrite (proj1 property_pairs_plain doc "root" Hplain). reflexivity.
Qed.

(** * Further properties of the code *)

(** ** Lock discipline *)

Lemma lock_safe_app a b hnd sub :
  lock_safe hnd sub a = true ->
  lock_safe false false b = true ->
  lock_safe hnd sub (a ++ b) = true.
Proof.
  revert hnd sub. induction a as [|e a IH]; intros hnd sub Ha Hb.
  - cbn in Ha. apply andb_true_iff in Ha as [Hh Hs].
    destruct hnd, sub; try discriminate. exact Hb.
  - destruct e as [[]|[]| | | | |]; cbn [lock_safe app] in *;
      repeat match goal with
             | H : _ && _ = true |- _ => apply andb_true_iff in H as [? ?]
             end;
      repeat (apply andb_true_iff; split); auto.
Qed.

Lemma gena_unsubscribe_trace cfg env url sid :
  snd (gena_unsubscribe cfg env url sid) = []
  \/ exists u hlist,
       snd (gena_unsubscribe cfg env url sid) = [EvHttpRequest "UNSUBSCRIBE" u hlist].
Proof.
  unfold gena_unsubscribe. destruct (http_FixStrUrl env url) as [rc dest].
  destruct (negb (rc =? 0)); [left; reflexivity|]. right. eexists _, _.
  destruct (negb (curlcode _ =? CURLE_OK)); [reflexivity|].
  destruct (negb (http_status _ =? HTTP_OK)); reflexivity.
Qed.

Lemma clientCancelRenew_trace sub :
  snd (clientCancelRenew sub) = []
  \/ exists id, snd (clientCancelRenew sub) = [EvTimerRemove id].
Proof.
  destruct sub as [s|]; [|left; reflexivity]. cbn.
  destruct (negb (renewEventId s =? -1)); [right; eauto | left; reflexivity].
Qed.

Lemma ScheduleGenaAutoRenew_trace cfg env Hnd TimeOut sub :
  snd (ScheduleGenaAutoRenew cfg env Hnd TimeOut sub) = []
  \/ exists delay job,
       snd (ScheduleGenaAutoRenew cfg env Hnd TimeOut sub)
       = [EvTimerSchedule delay job].
Proof.
  unfold ScheduleGenaAutoRenew. destruct (TimeOut =? UPNP_INFINITE);
    [left; reflexivity|].
  destruct (TimerThread_schedule _ _ _) as [rc id]. right. eexists _, _.
  destruct (negb (rc =? UPNP_E_SUCCESS)); reflexivity.
Qed.

Lemma genaSubscribe_lock_safe cfg env yield tbl Hnd url TimeOut :
  lock_safe false false (gs_trace (genaSubscribe cfg env yield tbl Hnd url TimeOut))
  = true.
Proof.
  unfold genaSubscribe.
  destruct (client_of tbl Hnd); [|reflexivity].
  pose proof (gena_subscribe_trace cfg env url (Some TimeOut) "") as Hr.
  cbn zeta in Hr.
  destruct (negb (sr_code _ =? UPNP_E_SUCCESS)).
  { cbn [gs_trace]. destruct Hr as [-> | (u & hl & ->)]; reflexivity. }
  destruct (client_of (yield tbl) Hnd).
  2:{ cbn [gs_trace]. destruct Hr as [-> | (u & hl & ->)]; reflexivity. }
  pose proof (ScheduleGenaAutoRenew_trace cfg env Hnd
                (sr_timeout (gena_subscribe cfg env url (Some TimeOut) ""))
                {| renewEventId := -1;
                   SID := sr_sid (gena_subscribe cfg env url (Some TimeOut) "");
                   eventURL := url |}) as Hs.
  destruct (ScheduleGenaAutoRenew _ _ _ _ _) as [[rc front] str].
  cbn [gs_trace snd] in *.
  destruct Hr as [-> | (u & hl & ->)], Hs as [-> | (d & j & ->)]; reflexivity.
Qed.

Lemma genaRenewSubscription_lock_safe cfg env yield tbl Hnd in_sid TimeOut :
  lock_safe false false
    (gr_trace (genaRenewSubscription cfg env yield tbl Hnd in_sid TimeOut)) = true.
Proof.
  unfold genaRenewSubscription.
  destruct (client_of tbl Hnd) as [hi|]; [|reflexivity].
  destruct (find_if _ _) as [sub|]; [|reflexivity].
  set (r := gena_subscribe _ _ _ _ _).
  pose proof (gena_subscribe_trace cfg env (eventURL (set_renewEventId (-1) sub))
                (Some TimeOut) (SID (set_renewEventId (-1) sub))) as Hr.
  cbn zeta in Hr. fold r in Hr.
  change (snd (clientCancelRenew (Some (set_renewEventId (-1) sub))))
    with (@nil Event).
  destruct (client_of _ Hnd) as [hi2|].
  2:{ cbn [gr_trace]. destruct Hr as [-> | (u & hl & ->)]; reflexivity. }
  destruct (negb (sr_code r =? UPNP_E_SUCCESS)).
  { cbn [gr_trace]. destruct Hr as [-> | (u & hl & ->)]; reflexivity. }
  destruct (find_if _ (ClientSubList hi2)) as [sub2|].
  2:{ cbn [gr_trace]. destruct Hr as [-> | (u & hl & ->)]; reflexivity. }
  pose proof (ScheduleGenaAutoRenew_trace cfg env Hnd (sr_timeout r)
                (set_SID (sr_sid r) sub2)) as Hs.
  destruct (ScheduleGenaAutoRenew _ _ _ _ _) as [[rc sub3] str].
  cbn [gr_trace snd] in *.
  destruct Hr as [-> | (u & hl & ->)], Hs as [-> | (d & j & ->)]; reflexivity.
Qed.

Lemma genaUnSubscribe_lock_safe cfg env yield tbl Hnd in_sid :
  lock_safe false false (gu_trace (genaUnSubscribe cfg env yield tbl Hnd in_sid))
  = true.
Proof.
  unfold genaUnSubscribe.
  destruct (client_of tbl Hnd) as [hi|]; [|reflexivity].
  destruct (find_if _ _) as [sub|]; [|reflexivity].
  pose proof (gena_unsubscribe_trace cfg env (eventURL sub) (SID sub)) as Hu.
  pose proof (clientCancelRenew_trace (Some sub)) as Hc.
  destruct (client_of (yield tbl) Hnd); cbn [gu_trace];
    destruct Hu as [-> | (u & hl & ->)], Hc as [-> | (id & ->)]; reflexivity.
Qed.

Lemma genaUnregisterClient_loop_lock_safe fuel cfg env yield :
  forall tbl Hnd tr o,
    lock_safe false false tr = true ->
    genaUnregisterClient_loop fuel cfg env yield tbl Hnd tr = Some o ->
    lock_safe false false (gx_trace o) = true.
Proof.
  induction fuel as [|fuel IH]; intros tbl Hnd tr o Htr; [discriminate|].
  cbn [genaUnregisterClient_loop].
  destruct (client_of tbl Hnd) as [hi|].
  2:{ intros [= <-]. cbn [gx_trace]. apply lock_safe_app; auto. }
  destruct (ClientSubList hi) as [|sub l] eqn:El.
  { intros [= <-]. cbn [gx_trace]. apply lock_safe_app; auto. }
  apply IH. apply lock_safe_app; [exact Htr|].
  destruct (gena_unsubscribe_trace cfg env (eventURL sub) (SID sub))
    as [-> | (u & hl & ->)],
    (clientCancelRenew_trace (Some sub)) as [-> | (id & ->)]; reflexivity.
Qed.

(** X1: whatever the network, the timer thread and other threads do,
    every operation of the subscription manager keeps the lock
    discipline: no mutex is taken twice or released when free, no HTTP
    request is sent while the handle mutex is held, and both mutexes are
    free when the operation returns, on every path. *)
Theorem manager_lock_discipline cfg env yield tbl Hnd url sid TimeOut fuel :
  lock_safe false false (gs_trace (genaSubscribe cfg env yield tbl Hnd url TimeOut))
  = true
  /\ lock_safe false false
       (gr_trace (genaRenewSubscription cfg env yield tbl Hnd sid TimeOut)) = true
  /\ lock_safe false false (gu_trace (genaUnSubscribe cfg env yield tbl Hnd sid))
     = true
  /\ (forall o, genaUnregisterClient fuel cfg env yield tbl Hnd = Some o ->
                lock_safe false false (gx_trace o) = true).
Proof.
  split; [apply genaSubscribe_lock_safe|].
  split; [apply genaRenewSubscription_lock_safe|].
  split; [apply genaUnSubscribe_lock_safe|].
  intros o. apply genaUnregisterClient_loop_lock_safe. reflexivity.
Qed.

Lemma manager_lock_discipline_witness :
  exists o, genaUnregisterClient 2 cfg0 env_down quiet tbl1 1 = Some o
            /\ lock_safe false false (gx_trace o) = true.
Proof.
  eexists. split; [reflexivity|].
  apply (proj2 (proj2 (proj2
           (manager_lock_discipline cfg0 env_down quiet tbl1 1 url0 "uuid:abcd"
              1800 2)))).
  reflexivity.
Defined.

Lemma notify_correlate_shape yield tbl sid eventKey propset :
  let tr := notify_correlate yield tbl sid eventKey propset in
  lock_safe false false tr = true
  /\ ((statuses tr = [HTTP_PRECONDITION_FAILED] /\ callbacks tr = [])
      \/ (statuses tr = [HTTP_OK]
          /\ exists pre fn arg cookie,
               tr = pre ++ [EvSendStatus HTTP_OK; HandleUnlock;
                            EvCallback fn UPNP_EVENT_RECEIVED arg cookie]
               /\ callbacks pre = [])).
Proof.
  unfold notify_correlate.
  destruct (GetClientHandleInfo tbl) as [[h hi]|];
    [|split; [reflexivity | left; split; reflexivity]].
  destruct (find_if _ _) as [sub|].
  { split; [reflexivity|]. right. split; [reflexivity|].
    exists [HandleLock]. eexists _, _, _. split; reflexivity. }
  destruct (eventKey =? 0);
    [|split; [reflexivity | left; split; reflexivity]].
  destruct (GetClientHandleInfo (yield tbl)) as [[h2 hi2]|];
    [|split; [reflexivity | left; split; reflexivity]].
  destruct (find_if _ _) as [sub|];
    [|split; [reflexivity | left; split; reflexivity]].
  split; [reflexivity|]. right. split; [reflexivity|].
  exists [HandleLock; HandleUnlock; SubscribeLock; HandleLock; SubscribeUnlock].
  eexists _, _, _. split; reflexivity.
Qed.

(** X2: every NOTIFY transaction, valid or not, gets exactly one status
    response, 200, 400 or 412; the user callback is called at most once,
    only when the response is 200, after the response was sent and the
    handle lock released, with no mutex held; and both mutexes are free
    when the receiver returns. *)
Theorem notify_one_response env yield tbl mhdt :
  let tr := gena_process_notification_event env yield tbl mhdt in
  lock_safe false false tr = true
  /\ ((callbacks tr = []
       /\ (statuses tr = [HTTP_BAD_REQUEST]
           \/ statuses tr = [HTTP_PRECONDITION_FAILED]))
      \/ (statuses tr = [HTTP_OK]
          /\ exists pre fn arg cookie,
               tr = pre ++ [EvSendStatus HTTP_OK; HandleUnlock;
                            EvCallback fn UPNP_EVENT_RECEIVED arg cookie]
               /\ callbacks pre = [])).
Proof.
  unfold gena_process_notification_event.
  destruct (headers mhdt !! "sid") as [sid|]; [|split; [reflexivity | auto]].
  destruct (headers mhdt !! "seq") as [seq|]; [|split; [reflexivity | auto]].
  destruct (sscanf_d_1c seq) as [n eventKey].
  destruct (negb (n =? 1)); [split; [reflexivity | auto]|].
  destruct (headers mhdt !! "nt") as [nt|]; [|split; [reflexivity | auto]].
  destruct (headers mhdt !! "nts") as [nts|]; [|split; [reflexivity | auto]].
  destruct (_ || _); [split; [reflexivity | auto]|].
  destruct (_ || _); [split; [reflexivity | auto]|].
  destruct (UPnPPropertysetParser_Parse _ _) as [propset|];
    [|split; [reflexivity | auto]].
  destruct (notify_correlate_shape yield tbl sid eventKey propset)
    as [Hsafe [[Hst Hcb] | Hok]].
  - split; [exact Hsafe|]. left. auto.
  - split; [exact Hsafe|]. right. exact Hok.
Qed.

(** X3: the renewal job keeps the lock discipline on every path: the
    renewal request goes out with the handle mutex free, and the upcall,
    when there is one, is made with no mutex held; the job makes at most
    one upcall. *)
Theorem auto_renew_job_lock_discipline cfg env yield_renew yield_cb tbl m_event :
  let tr := jw_trace (AutoRenewSubscriptionJobWorker_work cfg env yield_renew
                        yield_cb tbl m_event) in
  lock_safe false false tr = true /\ (length (callbacks tr) <= 1)%nat.
Proof.
  unfold AutoRenewSubscriptionJobWorker_work.
  destruct (AUTO_RENEW_TIME cfg =? 0).
  { destruct (client_of _ _); split; cbn; auto. }
  set (r := genaRenewSubscription _ _ _ _ _ _ _).
  pose proof (genaRenewSubscription_lock_safe cfg env yield_renew tbl
                (ut_handle m_event) (ues_Sid (ut_Event m_event))
                (ues_TimeOut (ut_Event m_event))) as Hsafe.
  pose proof (genaRenewSubscription_callbacks cfg env yield_renew tbl
                (ut_handle m_event) (ues_Sid (ut_Event m_event))
                (ues_TimeOut (ut_Event m_event))) as Hq.
  fold r in Hsafe, Hq.
  destruct (_ && _); [|cbn [jw_trace]; rewrite Hq; split; [exact Hsafe | cbn; lia]].
  destruct (client_of _ _); cbn [jw_trace]; rewrite callbacks_app, Hq;
    (split; [apply lock_safe_app; [exact Hsafe | reflexivity] | cbn; lia]).
Qed.

(** ** Subscribe and renew: the other paths *)

(** A scheduling attempt that the timer thread accepts. *)
Lemma ScheduleGenaAutoRenew_accepted cfg env Hnd TimeOut sub id :
  TimeOut <> UPNP_INFINITE ->
  TimerThread_schedule env (TimeOut - AUTO_RENEW_TIME cfg)
    {| ut_handle := Hnd;
       ut_Event := {| ues_Sid := SID sub; ues_ErrCode := UPNP_E_SUCCESS;
                      ues_PublisherUrl := upnp_strlcpy (eventURL sub) (NAME_SIZE cfg);
                      ues_TimeOut := TimeOut |} |} = (UPNP_E_SUCCESS, id) ->
  ScheduleGenaAutoRenew cfg env Hnd TimeOut sub
  = (GENA_SUCCESS, set_renewEventId id sub,
     [EvTimerSchedule (TimeOut - AUTO_RENEW_TIME cfg)
        {| ut_handle := Hnd;
           ut_Event := {| ues_Sid := SID sub; ues_ErrCode := UPNP_E_SUCCESS;
                          ues_PublisherUrl :=
                            upnp_strlcpy (eventURL sub) (NAME_SIZE cfg);
                          ues_TimeOut := TimeOut |} |}]).
Proof.
  intros Hinf Hs. unfold ScheduleGenaAutoRenew.
  apply Z.eqb_neq in Hinf. rewrite Hinf, Hs. reflexivity.
Qed.

Lemma scheduled_jobs_app a b :
  scheduled_jobs (a ++ b) = scheduled_jobs a ++ scheduled_jobs b.
Proof. apply flat_map_app. Qed.

Lemma removed_timers_app a b :
  removed_timers (a ++ b) = removed_timers a ++ removed_timers b.
Proof. apply flat_map_app. Qed.

Lemma requests_app m a b : requests m (a ++ b) = requests m a ++ requests m b.
Proof. apply flat_map_app. Qed.

Lemma gena_subscribe_no_timer cfg env url timeout renewal_sid :
  scheduled_jobs (sr_trace (gena_subscribe cfg env url timeout renewal_sid)) = []
  /\ removed_timers (sr_trace (gena_subscribe cfg env url timeout renewal_sid)) = [].
Proof.
  destruct (gena_subscribe_trace cfg env url timeout renewal_sid)
    as [-> | (u & hl & ->)]; split; reflexivity.
Qed.

(** X4: a subscribe that fails before the renewal is scheduled (the
    handle is not a client, the SUBSCRIBE round trip fails, or the client
    was unregistered during the round trip) returns the corresponding
    code, adds no subscription to the table, schedules no timer and
    leaves [out_sid] empty, even when the publisher did grant a SID. *)
Theorem genaSubscribe_failure cfg env yield tbl Hnd url TimeOut :
  let r := gena_subscribe cfg env url (Some TimeOut) "" in
  let o := genaSubscribe cfg env yield tbl Hnd url TimeOut in
  (client_of tbl Hnd = None ->
   gs_code o = GENA_E_BAD_HANDLE /\ gs_table o = tbl /\ gs_out_sid o = ""
   /\ gs_TimeOut o = TimeOut /\ requests "SUBSCRIBE" (gs_trace o) = []
   /\ scheduled_jobs (gs_trace o) = [])
  /\ (client_of tbl Hnd <> None -> sr_code r <> UPNP_E_SUCCESS ->
      gs_code o = sr_code r /\ gs_table o = yield tbl /\ gs_out_sid o = ""
      /\ scheduled_jobs (gs_trace o) = [])
  /\ (client_of tbl Hnd <> None -> sr_code r = UPNP_E_SUCCESS ->
      client_of (yield tbl) Hnd = None ->
      gs_code o = GENA_E_BAD_HANDLE /\ gs_table o = yield tbl
      /\ gs_out_sid o = "" /\ scheduled_jobs (gs_trace o) = []).
Proof.
  intros r o. subst o. unfold genaSubscribe. fold r.
  pose proof (gena_subscribe_no_timer cfg env url (Some TimeOut) "") as [Hq _].
  fold r in Hq. split; [|split].
  - intros ->. repeat split.
  - intros Hc Hr. destruct (client_of tbl Hnd); [|congruence].
    apply Z.eqb_neq in Hr. rewrite Hr. cbn [negb gs_code gs_table gs_out_sid gs_trace].
    split; [reflexivity|]. split; [reflexivity|]. split; [reflexivity|].
    rewrite !scheduled_jobs_app, Hq. reflexivity.
  - intros Hc Hr Hy. destruct (client_of tbl Hnd); [|congruence].
    rewrite Hr, Hy.
    cbn [negb Z.eqb UPNP_E_SUCCESS gs_code gs_table gs_out_sid gs_trace].
    split; [reflexivity|]. split; [reflexivity|]. split; [reflexivity|].
    rewrite !scheduled_jobs_app, Hq. reflexivity.
Qed.

Lemma genaSubscribe_failure_witness :
  (gs_code (genaSubscribe cfg0 env_ok (unregistered 1) tbl1 1 url0 1800)
   = GENA_E_BAD_HANDLE
   /\ gs_table (genaSubscribe cfg0 env_ok (unregistered 1) tbl1 1 url0 1800)
      = unregistered 1 tbl1
   /\ gs_out_sid (genaSubscribe cfg0 env_ok (unregistered 1) tbl1 1 url0 1800) = ""
   /\ scheduled_jobs (gs_trace (genaSubscribe cfg0 env_ok (unregistered 1) tbl1 1
                                              url0 1800)) = [])
  /\ scheduled_jobs (gs_trace (genaSubscribe cfg0 env_ok quiet tbl1 2
                                             url0 1800)) = []
  /\ gs_code (genaSubscribe cfg0 env_down quiet tbl1 1 url0 1800)
     = UPNP_E_SOCKET_CONNECT.
Proof.
  split; [|split].
  - apply (proj2 (proj2 (genaSubscribe_failure cfg0 env_ok (unregistered 1) tbl1 1
                           url0 1800))).
    + vm_compute. discriminate.
    + reflexivity.
    + reflexivity.
  - apply (proj1 (genaSubscribe_failure cfg0 env_ok quiet tbl1 2 url0 1800)).
    reflexivity.
  - destruct (proj1 (proj2 (genaSubscribe_failure cfg0 env_down quiet tbl1 1
                              url0 1800))) as [H _].
    + vm_compute. discriminate.
    + vm_compute. discriminate.
    + exact H.
Defined.

(** X5: a subscribe whose round trip succeeds and whose renewal job the
    timer thread accepts returns success with the granted SID and
    timeout; the table of the handle gains, in front, one subscription
    with that SID, the publisher URL and the id of the job; the other
    subscriptions and the other handles are as the other threads left
    them; exactly one job is scheduled, [AUTO_RENEW_TIME] seconds before
    the granted timeout, carrying the handle, the SID and the timeout. *)
Theorem genaSubscribe_success cfg env yield tbl Hnd url TimeOut hi id :
  let r := gena_subscribe cfg env url (Some TimeOut) "" in
  let o := genaSubscribe cfg env yield tbl Hnd url TimeOut in
  let job := {| ut_handle := Hnd;
                ut_Event := {| ues_Sid := sr_sid r; ues_ErrCode := UPNP_E_SUCCESS;
                               ues_PublisherUrl := upnp_strlcpy url (NAME_SIZE cfg);
                               ues_TimeOut := sr_timeout r |} |} in
  client_of tbl Hnd <> None ->
  sr_code r = UPNP_E_SUCCESS ->
  client_of (yield tbl) Hnd = Some hi ->
  sr_timeout r <> UPNP_INFINITE ->
  TimerThread_schedule env (sr_timeout r - AUTO_RENEW_TIME cfg) job
  = (UPNP_E_SUCCESS, id) ->
  gs_code o = GENA_SUCCESS
  /\ gs_out_sid o = sr_sid r
  /\ gs_TimeOut o = sr_timeout r
  /\ subscriptions (gs_table o) Hnd
     = {| renewEventId := id; SID := sr_sid r; eventURL := url |}
       :: ClientSubList hi
  /\ (forall Hnd', Hnd' <> Hnd -> gs_table o !! Hnd' = yield tbl !! Hnd')
  /\ scheduled_jobs (gs_trace o) = [(sr_timeout r - AUTO_RENEW_TIME cfg, job)].
Proof.
  intros r o job Hc Hr Hy Hinf Hs. subst o. unfold genaSubscribe. fold r.
  pose proof (gena_subscribe_no_timer cfg env url (Some TimeOut) "") as [Hq _].
  fold r in Hq.
  destruct (client_of tbl Hnd); [|congruence].
  rewrite Hr, Hy. cbn [negb Z.eqb UPNP_E_SUCCESS].
  rewrite (ScheduleGenaAutoRenew_accepted cfg env Hnd (sr_timeout r)
             {| renewEventId := -1; SID := sr_sid r; eventURL := url |} id Hinf Hs).
  cbn [gs_code gs_out_sid gs_TimeOut gs_table gs_trace set_renewEventId SID eventURL].
  apply client_of_Some in Hy as [_ Ty].
  rewrite subscriptions_insert by exact Ty.
  repeat split.
  - intros Hnd' Hne. apply lookup_insert_ne. congruence.
  - rewrite !scheduled_jobs_app, Hq. reflexivity.
Qed.

Lemma genaSubscribe_success_witness :
  gs_code (genaSubscribe cfg0 env_ok quiet tbl1 1 url0 1800) = GENA_SUCCESS
  /\ gs_out_sid (genaSubscribe cfg0 env_ok quiet tbl1 1 url0 1800) = "uuid:efgh"
  /\ subscriptions (gs_table (genaSubscribe cfg0 env_ok quiet tbl1 1 url0 1800)) 1
     = [{| renewEventId := 42; SID := "uuid:efgh"; eventURL := url0 |}; sub_abcd].
Proof.
  pose proof (genaSubscribe_success cfg0 env_ok quiet tbl1 1 url0 1800 client1 42)
    as H.
  refine (_ (H _ eq_refl eq_refl _ eq_refl)).
  - intros (H1 & H2 & _ & H4 & _). split; [exact H1|]. split; [exact H2 | exact H4].
  - vm_compute. discriminate.
  - vm_compute. discriminate.
Defined.

Lemma length_assign_at p f l : length (assign_at p f l) = length l.
Proof.
  induction l as [|e l IH]; [reflexivity|]. cbn [assign_at].
  destruct (p e); cbn [length]; congruence.
Qed.

(** After a write through the iterator, a search for a property the new
    value has, and that entries in front of it do not have, finds the new
    value. *)
Lemma find_if_assign_at p q f l e0 :
  find_if q l = Some e0 ->
  p (f e0) = true ->
  (forall e, In e l -> p e = true -> q e = true) ->
  find_if p (assign_at q f l) = Some (f e0).
Proof.
  unfold find_if. induction l as [|e l IH]; [discriminate|].
  cbn [List.find assign_at]. intros Hq Hp Hin.
  destruct (q e) eqn:Eq.
  - injection Hq as <-. cbn [List.find]. rewrite Hp. reflexivity.
  - cbn [List.find]. destruct (p e) eqn:Ep.
    + rewrite (Hin e (or_introl eq_refl) Ep) in Eq. discriminate.
    + apply IH; auto. intros e' He'. apply Hin. right. exact He'.
Qed.

(** X6: a renewal for a handle that is not a client, or for a SID the
    client does not hold, returns [GENA_E_BAD_HANDLE], respectively
    [GENA_E_BAD_SID], without any effect: no request is sent, no timer is
    touched, the table and the timeout of the caller are as they were. *)
Theorem genaRenewSubscription_miss cfg env yield tbl Hnd in_sid TimeOut :
  let o := genaRenewSubscription cfg env yield tbl Hnd in_sid TimeOut in
  ~ has_sid tbl Hnd in_sid ->
  gr_code o = match client_of tbl Hnd with
              | Some _ => GENA_E_BAD_SID
              | None => GENA_E_BAD_HANDLE
              end
  /\ gr_table o = tbl
  /\ gr_TimeOut o = TimeOut
  /\ gr_trace o = [HandleLock; HandleUnlock].
Proof.
  intros o Hmiss. subst o. unfold genaRenewSubscription.
  unfold has_sid, subscriptions in Hmiss.
  destruct (client_of tbl Hnd) as [hi|]; [|repeat split].
  destruct (find_if _ _) as [sub|]; [|repeat split].
  exfalso. apply Hmiss. eauto.
Qed.

Lemma genaRenewSubscription_miss_witness :
  gr_code (genaRenewSubscription cfg0 env_ok quiet tbl1 1 "uuid:none" 1800)
  = GENA_E_BAD_SID
  /\ gr_table (genaRenewSubscription cfg0 env_ok quiet tbl1 1 "uuid:none" 1800) = tbl1
  /\ gr_TimeOut (genaRenewSubscription cfg0 env_ok quiet tbl1 1 "uuid:none" 1800)
     = 1800
  /\ gr_trace (genaRenewSubscription cfg0 env_ok quiet tbl1 1 "uuid:none" 1800)
     = [HandleLock; HandleUnlock].
Proof.
  apply (genaRenewSubscription_miss cfg0 env_ok quiet tbl1 1 "uuid:none" 1800).
  intros [s Hs]. vm_compute in Hs. discriminate.
Defined.

(** X7: a renewal whose round trip succeeds and whose new job the timer
    thread accepts returns success and the granted timeout.  The old
    timer is removed before the request; the subscription keeps its place
    and its event URL and now carries the SID of the answer and the id of
    the new job; the table keeps its length; exactly one job is
    scheduled, for the new SID, [AUTO_RENEW_TIME] seconds before the
    granted timeout.  If no other subscription of the client carries the
    granted SID, a lookup of that SID finds the renewed subscription. *)
Theorem genaRenewSubscription_success
    cfg env yield tbl Hnd in_sid TimeOut hi hi2 sub sub2 id :
  let r := gena_subscribe cfg env (eventURL sub) (Some TimeOut) (SID sub) in
  let o := genaRenewSubscription cfg env yield tbl Hnd in_sid TimeOut in
  let renewed :=
    {| renewEventId := id; SID := sr_sid r; eventURL := eventURL sub2 |} in
  let job := {| ut_handle := Hnd;
                ut_Event := {| ues_Sid := sr_sid r; ues_ErrCode := UPNP_E_SUCCESS;
                               ues_PublisherUrl :=
                                 upnp_strlcpy (eventURL sub2) (NAME_SIZE cfg);
                               ues_TimeOut := sr_timeout r |} |} in
  client_of tbl Hnd = Some hi ->
  find_if (sid_is in_sid) (ClientSubList hi) = Some sub ->
  sr_code r = UPNP_E_SUCCESS ->
  client_of (yield (renew_marked tbl Hnd in_sid)) Hnd = Some hi2 ->
  find_if (sid_is in_sid) (ClientSubList hi2) = Some sub2 ->
  sr_timeout r <> UPNP_INFINITE ->
  TimerThread_schedule env (sr_timeout r - AUTO_RENEW_TIME cfg) job
  = (UPNP_E_SUCCESS, id) ->
  gr_code o = GENA_SUCCESS
  /\ gr_TimeOut o = sr_timeout r
  /\ subscriptions (gr_table o) Hnd
     = assign_at (sid_is in_sid) (fun _ => renewed) (ClientSubList hi2)
  /\ length (subscriptions (gr_table o) Hnd) = length (ClientSubList hi2)
  /\ removed_timers (gr_trace o) = [renewEventId sub]
  /\ scheduled_jobs (gr_trace o) = [(sr_timeout r - AUTO_RENEW_TIME cfg, job)]
  /\ ((forall e, In e (ClientSubList hi2) ->
                 sid_is (sr_sid r) e = true -> sid_is in_sid e = true) ->
      find_if (sid_is (sr_sid r)) (subscriptions (gr_table o) Hnd) = Some renewed).
Proof.
  intros r o renewed job Hc Hf Hr Hy Hf2 Hinf Hs. subst o.
  unfold genaRenewSubscription, renew_marked in *. rewrite Hc in *. rewrite Hf.
  cbn [set_renewEventId eventURL SID]. fold r. rewrite Hy, Hr, Hf2.
  cbn [negb Z.eqb UPNP_E_SUCCESS].
  rewrite (ScheduleGenaAutoRenew_accepted cfg env Hnd (sr_timeout r)
             (set_SID (sr_sid r) sub2) id Hinf Hs).
  cbn [negb Z.eqb GENA_SUCCESS UPNP_E_SUCCESS gr_code gr_TimeOut gr_table gr_trace
       set_SID set_renewEventId SID eventURL renewEventId].
  apply client_of_Some in Hy as [_ Ty].
  rewrite subscriptions_insert by exact Ty.
  pose proof (gena_subscribe_no_timer cfg env (eventURL sub) (Some TimeOut) (SID sub))
    as [Hq1 Hq2]. fold r in Hq1, Hq2.
  split; [reflexivity|]. split; [reflexivity|]. split; [reflexivity|].
  split; [apply length_assign_at|].
  split. { rewrite !removed_timers_app, Hq2. reflexivity. }
  split. { rewrite !scheduled_jobs_app, Hq1. reflexivity. }
  intros Hfresh.
  apply (find_if_assign_at (sid_is (sr_sid r)) (sid_is in_sid) (fun _ => renewed)
           (ClientSubList hi2) sub2 Hf2); [|exact Hfresh].
  unfold sid_is, renewed. cbn. apply String.eqb_refl.
Qed.

Lemma genaRenewSubscription_success_witness :
  gr_code (genaRenewSubscription cfg0 env_ok quiet tbl1 1 "uuid:abcd" 1800)
  = GENA_SUCCESS
  /\ subscriptions
       (gr_table (genaRenewSubscription cfg0 env_ok quiet tbl1 1 "uuid:abcd" 1800)) 1
     = [{| renewEventId := 42; SID := "uuid:efgh"; eventURL := url0 |}]
  /\ removed_timers
       (gr_trace (genaRenewSubscription cfg0 env_ok quiet tbl1 1 "uuid:abcd" 1800))
     = [7].
Proof.
  pose proof (genaRenewSubscription_success cfg0 env_ok quiet tbl1 1 "uuid:abcd"
                1800 client1
                (set_ClientSubList client1 [set_renewEventId (-1) sub_abcd])
                sub_abcd (set_renewEventId (-1) sub_abcd) 42) as H.
  refine (_ (H eq_refl eq_refl eq_refl eq_refl eq_refl _ eq_refl)).
  - intros (H1 & _ & H3 & _ & H5 & _). split; [exact H1|]. split; [exact H3 | exact H5].
  - vm_compute. discriminate.
Defined.

(** X8: when the subscription is gone from the table by the time the
    round trip of a renewal has succeeded (an unsubscribe ran meanwhile),
    the renewal returns [GENA_E_BAD_SID], schedules no timer and leaves
    the table as the other threads left it. *)
Theorem genaRenewSubscription_vanished cfg env yield tbl Hnd in_sid TimeOut hi hi2 sub :
  let r := gena_subscribe cfg env (eventURL sub) (Some TimeOut) (SID sub) in
  let o := genaRenewSubscription cfg env yield tbl Hnd in_sid TimeOut in
  client_of tbl Hnd = Some hi ->
  find_if (sid_is in_sid) (ClientSubList hi) = Some sub ->
  sr_code r = UPNP_E_SUCCESS ->
  client_of (yield (renew_marked tbl Hnd in_sid)) Hnd = Some hi2 ->
  find_if (sid_is in_sid) (ClientSubList hi2) = None ->
  gr_code o = GENA_E_BAD_SID
  /\ gr_table o = yield (renew_marked tbl Hnd in_sid)
  /\ scheduled_jobs (gr_trace o) = [].
Proof.
  intros r o Hc Hf Hr Hy Hf2. subst o.
  unfold genaRenewSubscription, renew_marked in *. rewrite Hc in *. rewrite Hf.
  cbn [set_renewEventId eventURL SID]. fold r. rewrite Hy, Hr, Hf2.
  cbn [negb Z.eqb UPNP_E_SUCCESS gr_code gr_table gr_trace].
  pose proof (gena_subscribe_no_timer cfg env (eventURL sub) (Some TimeOut) (SID sub))
    as [Hq1 _]. fold r in Hq1.
  split; [reflexivity|]. split; [reflexivity|].
  rewrite !scheduled_jobs_app, Hq1. reflexivity.
Qed.

Lemma genaRenewSubscription_vanished_witness :
  gr_code (genaRenewSubscription cfg0 env_ok (fun _ => tbl_empty) tbl1 1
             "uuid:abcd" 1800) = GENA_E_BAD_SID
  /\ gr_table (genaRenewSubscription cfg0 env_ok (fun _ => tbl_empty) tbl1 1
                 "uuid:abcd" 1800) = tbl_empty
  /\ scheduled_jobs
       (gr_trace (genaRenewSubscription cfg0 env_ok (fun _ => tbl_empty) tbl1 1
                    "uuid:abcd" 1800)) = [].
Proof.
  apply (genaRenewSubscription_vanished cfg0 env_ok (fun _ => tbl_empty) tbl1 1
           "uuid:abcd" 1800 client1 (set_ClientSubList client1 []) sub_abcd);
    reflexivity.
Defined.

(** ** Unregistering a client *)

Lemma remove_if_head sub l :
  remove_if (sid_is (SID sub)) (sub :: l) = remove_if (sid_is (SID sub)) l.
Proof.
  unfold remove_if, sid_is. cbn [List.filter]. rewrite String.eqb_refl. reflexivity.
Qed.

Lemma length_remove_if p l : (length (remove_if p l) <= length l)%nat.
Proof. apply List.filter_length_le. Qed.

Lemma remove_if_fresh sid l :
  ~ In sid (map SID l) -> remove_if (sid_is sid) l = l.
Proof.
  unfold remove_if, sid_is. induction l as [|e l IH]; [reflexivity|].
  cbn [map In List.filter]. intros Hn.
  destruct (String.eqb_spec (SID e) sid) as [E | E].
  - exfalso. apply Hn. left. exact E.
  - cbn [negb]. rewrite IH; [reflexivity|]. intros H. apply Hn. right. exact H.
Qed.

(** The loop empties the list when nobody refills it; [tr] is carried
    along. *)
Lemma genaUnregisterClient_loop_empties cfg env yield Hnd :
  leaves_client yield Hnd ->
  forall fuel tbl tr hi,
    client_of tbl Hnd = Some hi ->
    (length (ClientSubList hi) < fuel)%nat ->
    exists o,
      genaUnregisterClient_loop fuel cfg env yield tbl Hnd tr = Some o
      /\ gx_code o = UPNP_E_SUCCESS
      /\ subscriptions (gx_table o) Hnd = []
      /\ (List.NoDup (map SID (ClientSubList hi)) ->
          removed_timers (gx_trace o)
          = removed_timers tr
            ++ List.filter (fun id => negb (id =? -1))
                 (map renewEventId (ClientSubList hi))).
Proof.
  intros Hy. induction fuel as [|fuel IH]; intros tbl tr hi Hc Hlen; [lia|].
  cbn [genaUnregisterClient_loop]. rewrite Hc.
  pose proof Hc as Hc'. apply client_of_Some in Hc' as [_ Ty].
  destruct (ClientSubList hi) as [|sub l] eqn:El.
  - eexists. split; [reflexivity|]. cbn [gx_code gx_table gx_trace].
    split; [reflexivity|]. split; [apply subscriptions_insert; exact Ty|].
    intros _. rewrite removed_timers_app. reflexivity.
  - rewrite remove_if_head.
    set (tbl1 := <[Hnd := set_ClientSubList hi (remove_if (sid_is (SID sub)) l)]> tbl).
    set (tr1 := tr ++ _).
    destruct (IH (yield tbl1) tr1
                (set_ClientSubList hi (remove_if (sid_is (SID sub)) l)))
      as (o & Ho & Hcode & Hsubs & Htimers).
    { rewrite Hy. apply client_of_insert. exact Ty. }
    { cbn [ClientSubList set_ClientSubList].
      pose proof (length_remove_if (sid_is (SID sub)) l). cbn [length] in Hlen. lia. }
    exists o. split; [exact Ho|]. split; [exact Hcode|]. split; [exact Hsubs|].
    intros Hnd'. cbn [map] in Hnd'. apply List.NoDup_cons_iff in Hnd' as [Hfresh Hnd'].
    cbn [ClientSubList set_ClientSubList] in Htimers.
    rewrite (remove_if_fresh _ _ Hfresh) in Htimers.
    rewrite (Htimers Hnd'). subst tr1.
    rewrite !removed_timers_app.
    assert (Hu : removed_timers
                   (snd (gena_unsubscribe cfg env (eventURL sub) (SID sub))) = []).
    { destruct (gena_unsubscribe_trace cfg env (eventURL sub) (SID sub))
        as [-> | (u & hl & ->)]; reflexivity. }
    rewrite Hu. cbn [map List.filter clientCancelRenew snd].
    rewrite <- !app_assoc. f_equal.
    destruct (negb (renewEventId sub =? -1)); reflexivity.
Qed.

(** X9: unregistering a client whose list other threads leave alone
    terminates after at most one turn per subscription and one more,
    returns success and leaves the client without subscriptions; with
    more turns allowed the result is the same.  When the SIDs of the list
    are distinct, the renewal timer of every subscription that has one is
    removed, in list order.  For a handle that is not a client the answer
    is [GENA_E_BAD_HANDLE] and the table is untouched. *)
Theorem genaUnregisterClient_empties cfg env yield tbl Hnd fuel :
  leaves_client yield Hnd ->
  (forall hi,
      client_of tbl Hnd = Some hi ->
      (length (ClientSubList hi) < fuel)%nat ->
      exists o,
        genaUnregisterClient fuel cfg env yield tbl Hnd = Some o
        /\ genaUnregisterClient (S (length (ClientSubList hi))) cfg env yield tbl Hnd
           = Some o
        /\ gx_code o = UPNP_E_SUCCESS
        /\ subscriptions (gx_table o) Hnd = []
        /\ (List.NoDup (map SID (ClientSubList hi)) ->
            removed_timers (gx_trace o)
            = List.filter (fun id => negb (id =? -1))
                (map renewEventId (ClientSubList hi))))
  /\ (client_of tbl Hnd = None -> (0 < fuel)%nat ->
      exists o,
        genaUnregisterClient fuel cfg env yield tbl Hnd = Some o
        /\ gx_code o = GENA_E_BAD_HANDLE /\ gx_table o = tbl).
Proof.
  intros Hy. split.
  - intros hi Hc Hlen. unfold genaUnregisterClient.
    destruct (genaUnregisterClient_loop_empties cfg env yield Hnd Hy fuel tbl []
                hi Hc Hlen) as (o & Ho & Hcode & Hsubs & Htimers).
    destruct (genaUnregisterClient_loop_empties cfg env yield Hnd Hy
                (S (length (ClientSubList hi))) tbl [] hi Hc (Nat.lt_succ_diag_r _))
      as (o' & Ho' & _).
    exists o. split; [exact Ho|]. split; [|auto].
    rewrite Ho'. f_equal.
    (* both runs are the same run, cut at different depths *)
    clear Hcode Hsubs Htimers.
    revert Ho Ho'. generalize (@nil Event) as tr.
    generalize (S (length (ClientSubList hi))) as fuel'.
    clear Hc Hlen hi. revert tbl o o'.
    induction fuel as [|fuel IH]; intros tbl o o' fuel' tr; [discriminate|].
    destruct fuel' as [|fuel']; [discriminate|].
    cbn [genaUnregisterClient_loop].
    destruct (client_of tbl Hnd) as [hi|]; [|congruence].
    destruct (ClientSubList hi); [congruence|]. intros H1 H2.
    exact (IH _ _ _ _ _ H1 H2).
  - intros Hc Hfuel. destruct fuel as [|fuel]; [lia|].
    unfold genaUnregisterClient. cbn [genaUnregisterClient_loop]. rewrite Hc.
    eexists. repeat split.
Qed.

Lemma genaUnregisterClient_empties_witness :
  exists o,
    genaUnregisterClient 5 cfg0 env_down quiet tbl1 1 = Some o
    /\ gx_code o = UPNP_E_SUCCESS
    /\ subscriptions (gx_table o) 1 = []
    /\ removed_timers (gx_trace o) = [7].
Proof.
  assert (Hq : leaves_client quiet 1) by (intros t; reflexivity).
  destruct (proj1 (genaUnregisterClient_empties cfg0 env_down quiet tbl1 1 5 Hq)
              client1 eq_refl ltac:(cbn; lia))
    as (o & Ho & _ & Hcode & Hsubs & Htimers).
  exists o. split; [exact Ho|]. split; [exact Hcode|]. split; [exact Hsubs|].
  apply Htimers. cbn. repeat constructor. intros [].
Defined.

(** ** Transport: the remaining paths *)

(** X10: [gena_unsubscribe] returns the code of the URL parser without
    sending anything when the URL does not parse; otherwise it sends one
    UNSUBSCRIBE request to the parsed URL whose headers are the SID and
    the user agent, and returns [UPNP_E_SOCKET_CONNECT] when the transfer
    fails, [UPNP_E_UNSUBSCRIBE_UNACCEPTED] when the status is not 200,
    and 0 otherwise. *)
Theorem gena_unsubscribe_outcomes cfg env url sid :
  let res := gena_unsubscribe cfg env url sid in
  let rc := fst (http_FixStrUrl env url) in
  let dest_url := snd (http_FixStrUrl env url) in
  let hlist := ["SID: " +:+ sid; "USER-AGENT: " +:+ get_sdk_client_info cfg] in
  let reply := curl_easy_perform env "UNSUBSCRIBE" (uri_asurlstr dest_url) hlist in
  (rc <> 0 -> res = (rc, []))
  /\ (rc = 0 ->
      snd res = [EvHttpRequest "UNSUBSCRIBE" (uri_asurlstr dest_url) hlist]
      /\ (curlcode reply <> CURLE_OK -> fst res = UPNP_E_SOCKET_CONNECT)
      /\ (curlcode reply = CURLE_OK -> http_status reply <> HTTP_OK ->
          fst res = UPNP_E_UNSUBSCRIBE_UNACCEPTED)
      /\ (curlcode reply = CURLE_OK -> http_status reply = HTTP_OK ->
          fst res = UPNP_E_SUCCESS)).
Proof.
  intros res rc dest_url hlist reply. subst res rc dest_url reply.
  unfold gena_unsubscribe. destruct (http_FixStrUrl env url) as [rc dest].
  cbn [fst snd]. split.
  - intros Hrc. apply Z.eqb_neq in Hrc. rewrite Hrc. reflexivity.
  - intros ->. cbn [Z.eqb negb]. fold hlist.
    destruct (Z.eqb_spec (curlcode (curl_easy_perform env "UNSUBSCRIBE"
                                      (uri_asurlstr dest) hlist)) CURLE_OK)
      as [Hc | Hc]; cbn [negb].
    + destruct (Z.eqb_spec (http_status (curl_easy_perform env "UNSUBSCRIBE"
                                           (uri_asurlstr dest) hlist)) HTTP_OK)
        as [Hs | Hs]; cbn [negb fst snd]; repeat split; congruence.
    + cbn [fst snd]. repeat split; congruence.
Qed.

Lemma gena_unsubscribe_outcomes_witness :
  gena_unsubscribe cfg0 env_500 url0 "uuid:abcd"
  = (UPNP_E_UNSUBSCRIBE_UNACCEPTED,
     [EvHttpRequest "UNSUBSCRIBE" url0
        ["SID: uuid:abcd"; "USER-AGENT: Linux UPnP/1.0 npupnp"]]).
Proof.
  pose proof (proj2 (gena_unsubscribe_outcomes cfg0 env_500 url0 "uuid:abcd") eq_refl)
    as (Htr & _ & Hcode & _).
  assert (Hc : fst (gena_unsubscribe cfg0 env_500 url0 "uuid:abcd")
               = UPNP_E_UNSUBSCRIBE_UNACCEPTED)
    by (apply Hcode; [reflexivity | discriminate]).
  rewrite (surjective_pairing (gena_unsubscribe cfg0 env_500 url0 "uuid:abcd")).
  rewrite Hc, Htr. reflexivity.
Defined.

(** X11: [gena_subscribe] returns success only after a request was sent
    and answered, and on every other return the SID handed back is
    empty.  When the URL does not parse it returns the parser's code, and
    when no interface reaches the destination it returns
    [UPNP_E_SOCKET_CONNECT]; in both cases nothing is sent and the timeout
    of the caller is untouched. *)
Theorem gena_subscribe_error_paths cfg env url timeout renewal_sid :
  let r := gena_subscribe cfg env url (Some timeout) renewal_sid in
  let rc := fst (http_FixStrUrl env url) in
  let dest_url := snd (http_FixStrUrl env url) in
  (sr_code r <> UPNP_E_SUCCESS -> sr_sid r = "")
  /\ (sr_code r = UPNP_E_SUCCESS ->
      exists u hlist, sr_trace r = [EvHttpRequest "SUBSCRIBE" u hlist])
  /\ (rc <> 0 -> sr_code r = rc /\ sr_trace r = [] /\ sr_timeout r = timeout)
  /\ (rc = 0 -> interfaceForAddress env (hostport_IPaddress dest_url) = None ->
      sr_code r = UPNP_E_SOCKET_CONNECT /\ sr_trace r = []
      /\ sr_timeout r = timeout).
Proof.
  intros r rc dest_url. subst r rc dest_url. unfold gena_subscribe.
  destruct (http_FixStrUrl env url) as [rc dest]. cbn [fst snd].
  unfold UPNP_E_SUCCESS, UPNP_E_SOCKET_CONNECT, UPNP_E_SUBSCRIBE_UNACCEPTED,
    UPNP_E_BAD_RESPONSE.
  destruct (Z.eqb_spec rc 0) as [-> | Hrc]; cbn [negb];
    [|cbn [sr_code sr_sid sr_trace sr_timeout]; repeat split; intros; congruence].
  destruct (interfaceForAddress env (hostport_IPaddress dest)) as [myaddr|];
    [|cbn [sr_code sr_sid sr_trace sr_timeout]; repeat split; intros;
      congruence].
  assert (Hdone : forall code t,
             code <> 0 ->
             let r := {| sr_code := code; sr_timeout := t; sr_sid := "";
                         sr_trace := [EvHttpRequest "SUBSCRIBE" (uri_asurlstr dest)
                                        (subscribe_hlist cfg myaddr renewal_sid
                                           timeout)] |} in
             (sr_code r <> 0 -> sr_sid r = "")
             /\ (sr_code r = 0 ->
                 exists u hlist, sr_trace r = [EvHttpRequest "SUBSCRIBE" u hlist])
             /\ (0 <> 0 -> sr_code r = 0 /\ sr_trace r = [] /\ sr_timeout r = timeout)
             /\ (0 = 0 -> Some myaddr = None ->
                 sr_code r = -204 /\ sr_trace r = [] /\ sr_timeout r = timeout)).
  { intros code t Hcode. cbn. repeat split; intros; congruence. }
  destruct (negb (curlcode _ =? CURLE_OK)); [apply Hdone; discriminate|].
  destruct (negb (http_status _ =? HTTP_OK)); [apply Hdone; discriminate|].
  destruct (http_headers _ !! "sid") as [itsid|]; [|apply Hdone; discriminate].
  destruct (http_headers _ !! "timeout"); [|apply Hdone; discriminate].
  destruct (timeout_header_value _ _ _) as [[] t']; cbn [negb];
    [|apply Hdone; discriminate].
  cbn [sr_code sr_sid sr_trace sr_timeout].
  repeat split; intros; try congruence. eauto.
Qed.

Lemma gena_subscribe_error_paths_witness :
  sr_sid (gena_subscribe cfg0 env_500 url0 (Some 1800) "") = "".
Proof.
  apply (proj1 (gena_subscribe_error_paths cfg0 env_500 url0 1800 "")).
  vm_compute. discriminate.
Defined.

(** ** Notification receiver: the remaining paths *)

(** X12: a validated NOTIFY whose SID the client holds is answered 200
    and delivered with the SID of the subscription, the event key as
    parsed and the parsed property set, whatever the event key (no
    check against earlier keys), without taking the subscribe lock; when
    no client is registered the answer is 412 and nothing is delivered. *)
Theorem notify_known_sid env yield tbl mhdt sid eventKey propset :
  notify_validated env mhdt sid eventKey propset ->
  let tr := gena_process_notification_event env yield tbl mhdt in
  (forall Hnd hi subscription,
      GetClientHandleInfo tbl = Some (Hnd, hi) ->
      find_if (sid_is sid) (ClientSubList hi) = Some subscription ->
      tr = [HandleLock; EvSendStatus HTTP_OK; HandleUnlock;
            EvCallback (Callback hi) UPNP_EVENT_RECEIVED
              (ArgEvent {| ue_Sid := SID subscription; ue_EventKey := eventKey;
                           ue_ChangedVariables := propset |})
              (Cookie hi)])
  /\ (GetClientHandleInfo tbl = None ->
      tr = [HandleLock; EvSendStatus HTTP_PRECONDITION_FAILED; HandleUnlock]).
Proof.
  intros Hval tr. subst tr.
  rewrite (notify_validated_correlate _ _ _ _ _ _ _ Hval).
  unfold notify_correlate. split.
  - intros Hnd hi sub -> ->. reflexivity.
  - intros ->. reflexivity.
Qed.

Lemma notify_known_sid_witness :
  gena_process_notification_event env_ok quiet tbl1 (notify_seq "7")
  = [HandleLock; EvSendStatus HTTP_OK; HandleUnlock;
     EvCallback 100 UPNP_EVENT_RECEIVED
       (ArgEvent {| ue_Sid := "uuid:abcd"; ue_EventKey := 7;
                    ue_ChangedVariables := parse_propertyset doc_foo |})
       200].
Proof.
  refine (proj1 (notify_known_sid env_ok quiet tbl1 (notify_seq "7") "uuid:abcd" 7
                   (parse_propertyset doc_foo) _) 1 client1 sub_abcd eq_refl eq_refl).
  unfold notify_validated. repeat split; try reflexivity.
  - exists "7". split; reflexivity.
  - discriminate.
Defined.

(** ** Property-set parser: any document *)

Lemma ltrimstring_head ws s :
  ltrimstring ws s = ""
  \/ exists c r, ltrimstring ws s = String c r /\ ascii_in ws c = false.
Proof.
  induction s as [|c s IH]; [left; reflexivity|]. cbn [ltrimstring].
  destruct (ascii_in ws c) eqn:E; [exact IH|]. right. eauto.
Qed.

Lemma rtrimstring_idem ws s : rtrimstring ws (rtrimstring ws s) = rtrimstring ws s.
Proof.
  induction s as [|c s IH]; [reflexivity|]. cbn [rtrimstring].
  destruct (rtrimstring ws s) as [|d t] eqn:E.
  - destruct (ascii_in ws c) eqn:Ec; [reflexivity|].
    cbn [rtrimstring]. rewrite Ec. reflexivity.
  - cbn [rtrimstring] in *. rewrite IH. reflexivity.
Qed.

Lemma trimstring_idem ws s : trimstring ws (trimstring ws s) = trimstring ws s.
Proof.
  unfold trimstring.
  destruct (ltrimstring_head ws s) as [-> | (c & r & -> & Hc)]; [reflexivity|].
  assert (Hl : ltrimstring ws (rtrimstring ws (String c r))
               = rtrimstring ws (String c r)).
  { cbn [rtrimstring]. destruct (rtrimstring ws r); rewrite ?Hc;
      cbn [ltrimstring]; rewrite Hc; reflexivity. }
  rewrite Hl. apply rtrimstring_idem.
Qed.

Lemma dom_last_wins l (m : gmap string string) :
  dom (last_wins l m) = dom m ∪ list_to_set (map fst l).
Proof.
  unfold last_wins. revert m. induction l as [|p l IH]; intros m;
    cbn [fold_left map list_to_set].
  - symmetry. apply union_empty_r_L.
  - rewrite IH, dom_insert_L.
    rewrite (union_comm_L {[p.1]} (dom m)), <- union_assoc_L. reflexivity.
Qed.

Lemma last_wins_values (P : string -> Prop) l (m : gmap string string) :
  (forall k v, m !! k = Some v -> P v) ->
  Forall P (map snd l) ->
  forall k v, last_wins l m !! k = Some v -> P v.
Proof.
  unfold last_wins. revert m. induction l as [|p l IH]; intros m Hm Hl; cbn.
  - exact Hm.
  - cbn [map] in Hl. apply Forall_cons in Hl as [Hp Hl]. apply IH; [|exact Hl].
    intros k v. destruct (decide (p.1 = k)) as [<- | Hne].
    + rewrite lookup_insert_eq. intros [= <-]. exact Hp.
    + rewrite lookup_insert_ne by exact Hne. apply Hm.
Qed.

(** The walk on any document: the names entered are those of the
    elements under a [property], in order; the values are trimmed. *)
Lemma walk_entries :
  (forall e p,
      m_path (walk p e) = m_path p
      /\ exists l,
           map fst l
           = map fst (property_pairs (fun name => name) (parent_of (m_path p)) e)
           /\ Forall (fun v => trimstring xml_blanks v = v) (map snd l)
           /\ propdata (walk p e) = last_wins l (propdata p))
  /\ (forall c p,
         m_path (walk_content p c) = m_path p
         /\ exists l,
              map fst l
              = map fst (content_pairs (fun name => name) (parent_of (m_path p)) c)
              /\ Forall (fun v => trimstring xml_blanks v = v) (map snd l)
              /\ propdata (walk_content p c) = last_wins l (propdata p)).
Proof.
  apply xml_mutind.
  - intros name body IH p.
    destruct (IH (push_path p name)) as (Hpath & l & Hkeys & Hvals & Hdata).
    cbn [push_path m_path propdata] in Hpath, Hkeys, Hdata.
    rewrite parent_of_snoc in Hkeys.
    cbn [walk property_pairs]. unfold EndElement, pop_path.
    cbn [m_path m_chardata propdata]. rewrite Hpath.
    rewrite EndElement_parentname, removelast_last.
    split; [reflexivity|]. unfold is_property.
    destruct (dom_cmp_name (parent_of (m_path p)) "property" =? 0).
    + exists (l ++ [(name, trimstring xml_blanks
                             (m_chardata (walk_content (push_path p name) body)))]).
      rewrite !map_app, Hkeys, last_wins_app, <- Hdata. cbn [map fst snd].
      split; [reflexivity|]. split; [|reflexivity].
      apply Forall_app. split; [exact Hvals|].
      constructor; [apply trimstring_idem | constructor].
    + exists l. rewrite app_nil_r. auto.
  - intros p. split; [reflexivity|]. exists []. repeat split. constructor.
  - intros s rest IH p. cbn [walk_content content_pairs].
    destruct (IH (CharacterData p s)) as (Hpath & l & Hkeys & Hvals & Hdata).
    assert (Hp : m_path (CharacterData p s) = m_path p) by (destruct s; reflexivity).
    assert (Hd : propdata (CharacterData p s) = propdata p)
      by (destruct s; reflexivity).
    rewrite Hp, Hd in *. split; [exact Hpath|]. exists l. auto.
  - intros e IHe rest IHrest p. cbn [walk_content content_pairs].
    destruct (IHe p) as (Hpath & l & Hkeys & Hvals & Hdata).
    destruct (IHrest (walk p e)) as (Hpath' & l' & Hkeys' & Hvals' & Hdata').
    rewrite Hpath in *. split; [exact Hpath'|].
    exists (l ++ l'). rewrite !map_app, Hkeys, Hkeys', last_wins_app, <- Hdata.
    split; [reflexivity|]. split; [|exact Hdata'].
    apply Forall_app. auto.
Qed.

(** X13: for every well-formed document, wherever its text sits, the
    names the parser enters in the map are exactly the names (as
    written) of the elements whose parent is a [property], and every
    value it enters has no blank at either end: trimming it again changes
    nothing.  A document without such elements gives the empty map. *)
Theorem parse_propertyset_entries doc :
  dom (parse_propertyset doc)
  = list_to_set (map fst (property_pairs (fun name => name) "root" doc))
  /\ (forall k v, parse_propertyset doc !! k = Some v ->
                  trimstring xml_blanks v = v)
  /\ (property_pairs (fun name => name) "root" doc = [] ->
      parse_propertyset doc = ∅).
Proof.
  unfold parse_propertyset.
  destruct (proj1 walk_entries doc parser_init) as (_ & l & Hkeys & Hvals & ->).
  cbn [parser_init propdata m_path] in *. change (parent_of []) with "root" in Hkeys.
  split; [|split].
  - rewrite dom_last_wins, Hkeys, dom_empty_L. apply union_empty_l_L.
  - apply last_wins_values; [|exact Hvals]. intros k v. rewrite lookup_empty.
    discriminate.
  - intros Hnone. rewrite Hnone in Hkeys. destruct l; [reflexivity | discriminate].
Qed.

Lemma parse_propertyset_entries_witness :
  trimstring xml_blanks "x1" = "x1"
  /\ parse_propertyset (Element "root" (CText "stray" CEnd)) = ∅.
Proof.
  split.
  - apply (proj1 (proj2 (parse_propertyset_entries doc_stray)) "Foo" "x1").
    reflexivity.
  - apply (proj2 (proj2 (parse_propertyset_entries
                           (Element "root" (CText "stray" CEnd))))).
    reflexivity.
Defined.

(** ** Notification receiver: numbers written and read *)

Lemma scan_digits_of_uint_acc d acc :
  scan_digits (Z.pos acc) (NilEmpty.string_of_uint d)
  = (Z.pos (Pos.of_uint_acc d acc), "").
Proof.
  revert acc. induction d; intros acc; cbn [NilEmpty.string_of_uint];
    [reflexivity | ..];
    cbn [scan_digits Pos.of_uint_acc]; change (isdigit _) with true; cbv iota;
    match goal with
    | |- scan_digits ?a _ = (Z.pos (Pos.of_uint_acc _ ?p), _) =>
        replace a with (Z.pos p)
          by (unfold digit_value;
              match goal with
              | |- context [Z.of_nat ?n] =>
                  let v := eval vm_compute in (Z.of_nat n) in
                  change (Z.of_nat n) with v
              end; lia)
    end; apply IHd.
Qed.

Lemma scan_digits_of_uint d :
  scan_digits 0 (NilEmpty.string_of_uint d) = (Z.of_N (Pos.of_uint d), "").
Proof.
  induction d; cbn [NilEmpty.string_of_uint Pos.of_uint];
    [reflexivity | ..];
    cbn [scan_digits]; change (isdigit _) with true; cbv iota;
    [exact IHd | ..];
    match goal with
    | |- scan_digits ?a _ = (Z.of_N (N.pos (Pos.of_uint_acc _ ?p)), _) =>
        change a with (Z.pos p)
    end; apply scan_digits_of_uint_acc.
Qed.

Lemma all_digits_of_uint d : all_digits (NilEmpty.string_of_uint d) = true.
Proof. induction d; cbn [NilEmpty.string_of_uint all_digits]; auto. Qed.

Lemma scan_number_of_pos neg p :
  scan_number neg (NilZero.string_of_uint (Pos.to_uint p))
  = (1, wrap_int (saturate_long (if neg then Z.neg p else Z.pos p))).
Proof.
  pose proof (Unsigned.of_to p) as Hp.
  pose proof (scan_digits_of_uint (Pos.to_uint p)) as Hs.
  rewrite Hp in Hs. cbn [Z.of_N] in Hs.
  destruct (Pos.to_uint p) eqn:E; [discriminate Hp | ..];
    unfold scan_number;
    cbn [NilZero.string_of_uint NilEmpty.string_of_uint] in *;
    change (isdigit _) with true; cbv iota;
    rewrite Hs; destruct neg; reflexivity.
Qed.

Lemma wrap_int_small z : - 2 ^ 31 <= z < 2 ^ 31 -> wrap_int z = z.
Proof. intros H. unfold wrap_int. rewrite Z.mod_small; lia. Qed.

Lemma decimal_head_pos p :
  exists c s, NilZero.string_of_uint (Pos.to_uint p) = String c s
              /\ isdigit c = true.
Proof.
  pose proof (Unsigned.of_to p) as Hp.
  destruct (Pos.to_uint p); [discriminate Hp | ..];
    cbn [NilZero.string_of_uint NilEmpty.string_of_uint]; eauto.
Qed.

(** Beyond 64 bits the number read saturates before it is stored: the
    key is -1 above [LONG_MAX] and 0 below [LONG_MIN]. *)
Lemma scan_number_saturates neg ds :
  nonneg_decimal ds = true ->
  2 ^ 63 <= fst (scan_digits 0 ds) ->
  scan_number neg ds = (1, if neg then 0 else -1).
Proof.
  intros Hd Hv. pose proof (scan_number_digits neg ds Hd) as H1.
  unfold scan_number in *. destruct ds as [|d ds']; [discriminate Hd|].
  destruct (isdigit d); [|discriminate H1].
  destruct (scan_digits 0 (String d ds')) as [v rest]. cbn [fst] in Hv.
  destruct rest; [|discriminate H1]. f_equal.
  unfold saturate_long. destruct neg.
  - rewrite Z.min_r, Z.max_l by lia. reflexivity.
  - rewrite Z.min_l, Z.max_r by lia. reflexivity.
Qed.

Example sscanf_saturates :
  sscanf_d_1c "9223372036854775808" = (1, -1)
  /\ sscanf_d_1c "18446744073709551616" = (1, -1)
  /\ sscanf_d_1c "-9223372036854775809" = (1, 0)
  /\ sscanf_d_1c "4294967296" = (1, 0).
Proof. repeat split; vm_compute; reflexivity. Qed.

Lemma saturate_long_small z :
  - 2 ^ 63 <= z <= 2 ^ 63 - 1 -> saturate_long z = z.
Proof. intros H. unfold saturate_long. lia. Qed.

(** X14: reading back a number printed in decimal: for every value of
    an [int], [sscanf] with [%d%1c] on its decimal form converts exactly
    one item and stores that value; white space before it changes
    nothing. *)
Theorem sscanf_decimal_round_trip (ws : string) (z : Z) :
  all_space ws = true ->
  - 2 ^ 31 <= z < 2 ^ 31 ->
  sscanf_d_1c (ws +:+ decimal z) = (1, z).
Proof.
  intros Hws Hz. unfold sscanf_d_1c. rewrite (skip_space_app _ _ Hws).
  unfold decimal. destruct z as [|p|p]; [reflexivity | |];
    cbn [Z.to_int NilZero.string_of_int].
  - destruct (decimal_head_pos p) as (c & s & E & Hc).
    pose proof (scan_number_of_pos false p) as Hn. rewrite E in *.
    cbn [skip_space]. rewrite (isdigit_not_space _ Hc).
    destruct (isdigit_not_sign _ Hc) as [-> ->].
    rewrite Hn, saturate_long_small, wrap_int_small by lia. reflexivity.
  - cbn [skip_space]. change (isspace "-") with false. cbv iota.
    change (Ascii.eqb "-" "-") with true. cbv iota.
    rewrite scan_number_of_pos, saturate_long_small, wrap_int_small by lia.
    reflexivity.
Qed.

Lemma sscanf_decimal_round_trip_witness :
  sscanf_d_1c (" " +:+ decimal (-42)) = (1, -42).
Proof. apply sscanf_decimal_round_trip; [reflexivity | lia]. Defined.

(** ** URI parsing *)

Lemma str_find_Some ch s n :
  Uri.find ch s 0 = Some n ->
  exists rest, s = Uri.substr s 0 n +:+ String ch rest
               /\ String.length (Uri.substr s 0 n) = n.
Proof.
  unfold Uri.substr. cbn [Uri.substr_from]. revert n.
  induction s as [|c s IH]; intros n; cbn [Uri.find]; [discriminate|].
  destruct (Ascii.eqb_spec c ch) as [-> | Hne].
  - intros [= <-]. exists s. auto.
  - destruct (Uri.find ch s 0) as [m|] eqn:E; [|discriminate].
    cbn [option_map]. intros [= <-].
    destruct (IH m eq_refl) as (rest & Hs & Hl).
    exists rest. cbn [Uri.prefix String.length]. rewrite append_cons.
    rewrite <- Hs, Hl. auto.
Qed.

Lemma str_find_app ch s rest :
  Uri.all_chars (fun c => negb (Ascii.eqb c ch)) s = true ->
  Uri.find ch (s +:+ String ch rest) 0 = Some (String.length s).
Proof.
  induction s as [|c s IH]; cbn [Uri.all_chars].
  - intros _. rewrite append_empty. cbn [Uri.find].
    rewrite Ascii.eqb_refl. reflexivity.
  - intros [Hc Hs]%andb_true_iff. rewrite append_cons. cbn [Uri.find].
    apply negb_true_iff in Hc. rewrite Hc, (IH Hs). reflexivity.
Qed.

Lemma str_prefix_app s t : Uri.prefix (s +:+ t) (String.length s) = s.
Proof.
  induction s as [|c s IH]; [destruct t; reflexivity|].
  rewrite append_cons. cbn [String.length Uri.prefix]. now rewrite IH.
Qed.

Lemma all_chars_impl (p q : ascii -> bool) s :
  (forall c, p c = true -> q c = true) ->
  Uri.all_chars p s = true -> Uri.all_chars q s = true.
Proof.
  intros Hpq. induction s as [|c s IH]; [reflexivity|]. cbn [Uri.all_chars].
  intros [Hc Hs]%andb_true_iff. rewrite (Hpq _ Hc), (IH Hs). reflexivity.
Qed.

Lemma scheme_char_not_colon c :
  Uri.scheme_char c = true -> negb (Ascii.eqb c ":") = true.
Proof.
  destruct (Ascii.eqb_spec c ":") as [-> | _]; [vm_compute; congruence | auto].
Qed.

(** X15: [parse_scheme] accepts exactly the inputs that begin with a
    scheme of RFC 2396 followed by a colon: it then returns the scheme
    and its length; otherwise it returns 0 and clears the output. *)
Theorem parse_scheme_spec :
  (forall sch rest,
      Uri.valid_scheme sch = true ->
      Uri.parse_scheme (sch +:+ String ":" rest) = (String.length sch, sch))
  /\ (forall inp,
         fst (Uri.parse_scheme inp) <> O ->
         exists rest,
           inp = snd (Uri.parse_scheme inp) +:+ String ":" rest
           /\ fst (Uri.parse_scheme inp)
              = String.length (snd (Uri.parse_scheme inp))
           /\ Uri.valid_scheme (snd (Uri.parse_scheme inp)) = true)
  /\ (forall inp,
         fst (Uri.parse_scheme inp) = O -> snd (Uri.parse_scheme inp) = "").
Proof.
  split; [|split].
  - intros sch rest Hv. unfold Uri.valid_scheme in Hv.
    destruct sch as [|c0 sch']; [discriminate|].
    apply andb_true_iff in Hv as [Ha Hall].
    unfold Uri.parse_scheme. rewrite append_cons, Ha. cbn [negb].
    rewrite <- append_cons.
    rewrite str_find_app
      by (eapply all_chars_impl; [apply scheme_char_not_colon | exact Hall]).
    unfold Uri.substr. cbn [Uri.substr_from]. rewrite str_prefix_app, Hall.
    reflexivity.
  - intros inp. unfold Uri.parse_scheme.
    destruct inp as [|c0 inp']; [cbn; congruence|].
    destruct (Uri.isalpha c0) eqn:Ha; cbn [negb]; [|cbn; congruence].
    destruct (Uri.find ":" (String c0 inp') 0) as [colon|] eqn:Ef;
      [|cbn; congruence].
    destruct (Uri.all_chars _ _) eqn:Hall; [|cbn; congruence].
    cbn [fst snd]. intros Hn.
    destruct (str_find_Some _ _ _ Ef) as (rest & Hs & Hl).
    exists rest. split; [exact Hs|]. split; [reflexivity|].
    unfold Uri.valid_scheme.
    destruct (Uri.substr (String c0 inp') 0 colon) as [|c1 s1] eqn:Es;
      [cbn in Hn; congruence|].
    rewrite append_cons in Hs. injection Hs as <- _. now rewrite Ha, Hall.
  - intros inp. unfold Uri.parse_scheme.
    destruct inp as [|c0 inp']; [reflexivity|].
    destruct (negb _); [reflexivity|].
    destruct (Uri.find _ _ _); [|reflexivity].
    destruct (Uri.all_chars _ _) eqn:Hall; [|reflexivity].
    cbn [fst snd]. intros H. destruct (Uri.substr _ _ _); [reflexivity|].
    discriminate H.
Qed.

Lemma parse_scheme_spec_witness :
  Uri.parse_scheme "http://h/p" = (4%nat, "http")
  /\ (exists rest, "a+b:c" = snd (Uri.parse_scheme "a+b:c") +:+ String ":" rest)
  /\ snd (Uri.parse_scheme "1a:b") = "".
Proof.
  destruct parse_scheme_spec as (H1 & H2 & H3). split; [|split].
  - exact (H1 "http" "//h/p" eq_refl).
  - destruct (H2 "a+b:c") as (rest & Hr & _); [vm_compute; lia|].
    exists rest. exact Hr.
  - apply (H3 "1a:b"). reflexivity.
Defined.

(** *** Escaped characters *)

Lemma remove_escaped_chars_eq c1 c2 c3 rest :
  Uri.remove_escaped_chars (String c1 (String c2 (String c3 rest)))
  = if Ascii.eqb c1 "%" then
      if negb (Uri.h2d (Uri.char_code c2) =? -1)
         && negb (Uri.h2d (Uri.char_code c3) =? -1)
      then String (Uri.char_of (Z.shiftl (Uri.h2d (Uri.char_code c2)) 4
                                + Uri.h2d (Uri.char_code c3)))
             (Uri.remove_escaped_chars rest)
      else String "%" (String c2 (String c3 (Uri.remove_escaped_chars rest)))
    else String c1 (Uri.remove_escaped_chars (String c2 (String c3 rest))).
Proof. reflexivity. Qed.

Lemma remove_escaped_chars_plain c t :
  Ascii.eqb c "%" = false ->
  Uri.remove_escaped_chars (String c t)
  = String c (Uri.remove_escaped_chars t).
Proof.
  intros Hc. destruct t as [|c2 [|c3 rest]]; [reflexivity | reflexivity |].
  cbn [Uri.remove_escaped_chars]. rewrite Hc. reflexivity.
Qed.

Lemma h2d_hex_digit n :
  0 <= n < 16 -> Uri.h2d (Uri.char_code (Uri.hex_digit n)) = n.
Proof.
  intros H. rewrite <- (Z2Nat.id n) by lia.
  assert (Z.to_nat n < 16)%nat as Hk by lia.
  revert Hk. generalize (Z.to_nat n) as k. intros k Hk.
  do 16 (destruct k as [|k]; [reflexivity|]). lia.
Qed.

Lemma char_code_range c : 0 <= Uri.char_code c < 256.
Proof.
  unfold Uri.char_code. pose proof (nat_ascii_bounded c). lia.
Qed.

Lemma char_of_code c : Uri.char_of (Uri.char_code c) = c.
Proof.
  unfold Uri.char_of. rewrite Z.mod_small by apply char_code_range.
  unfold Uri.char_code. rewrite Nat2Z.id. apply ascii_nat_embedding.
Qed.

Lemma remove_escaped_chars_escaped c t :
  Uri.remove_escaped_chars (Uri.escape_char c +:+ t)
  = String c (Uri.remove_escaped_chars t).
Proof.
  pose proof (char_code_range c) as Hc.
  unfold Uri.escape_char. rewrite !append_cons, append_empty.
  rewrite remove_escaped_chars_eq. change (Ascii.eqb "%" "%") with true.
  cbv iota.
  rewrite !h2d_hex_digit
    by (split; [apply Z.div_pos || apply Z.mod_pos_bound
               | apply Z.div_lt_upper_bound || apply Z.mod_pos_bound]; lia).
  replace (negb (Uri.char_code c / 16 =? -1)) with true
    by (symmetry; apply negb_true_iff, Z.eqb_neq;
        pose proof (Z.div_pos (Uri.char_code c) 16); lia).
  replace (negb (Uri.char_code c mod 16 =? -1)) with true
    by (symmetry; apply negb_true_iff, Z.eqb_neq;
        pose proof (Z.mod_pos_bound (Uri.char_code c) 16); lia).
  cbn [andb]. rewrite Z.shiftl_mul_pow2 by lia.
  replace (Uri.char_code c / 16 * 2 ^ 4 + Uri.char_code c mod 16)
    with (Uri.char_code c)
    by (rewrite (Z.div_mod (Uri.char_code c) 16) at 1; lia).
  now rewrite char_of_code.
Qed.

(** X16: unescaping inverts escaping: whatever set of characters an
    encoder chooses to escape (with upper-case hexadecimal digits, '%'
    itself always escaped), [remove_escaped_chars] gives the original
    string back. *)
Theorem remove_escaped_chars_escape (must : ascii -> bool) (s : string) :
  Uri.remove_escaped_chars (Uri.escape must s) = s.
Proof.
  induction s as [|c s IH]; [reflexivity|]. cbn [Uri.escape].
  destruct (must c || Ascii.eqb c "%") eqn:E.
  - now rewrite remove_escaped_chars_escaped, IH.
  - apply orb_false_iff in E as [_ E].
    rewrite append_cons, append_empty, remove_escaped_chars_plain, IH by exact E.
    reflexivity.
Qed.

Lemma remove_escaped_chars_bounded n :
  forall s, (String.length s <= n)%nat ->
    (String.length (Uri.remove_escaped_chars s) <= String.length s)%nat
    /\ (Uri.all_chars (fun c => negb (Ascii.eqb c "%")) s = true ->
        Uri.remove_escaped_chars s = s).
Proof.
  induction n as [|n IH]; intros s Hn.
  - destruct s; [split; auto | cbn in Hn; lia].
  - destruct s as [|c1 [|c2 [|c3 rest]]]; try (split; [cbn; lia | reflexivity]).
    rewrite remove_escaped_chars_eq.
    cbn [String.length] in Hn.
    destruct (IH rest ltac:(lia)) as [Hr _].
    destruct (IH (String c2 (String c3 rest)) ltac:(cbn [String.length]; lia))
      as [Ht Hid].
    destruct (Ascii.eqb c1 "%") eqn:E1.
    + split.
      * destruct (_ && _); cbn [String.length]; lia.
      * cbn [Uri.all_chars]. rewrite E1. discriminate.
    + split.
      * cbn [String.length] in *. lia.
      * intros Hall. cbn [Uri.all_chars] in Hall. rewrite E1 in Hall.
        cbn [negb andb] in Hall. f_equal. apply Hid. exact Hall.
Qed.

(** X17: [remove_escaped_chars] never lengthens its input, leaves a
    string without '%' as it is, and returns a string of at most two
    characters unchanged: an escape needs its two digits. *)
Theorem remove_escaped_chars_shape (s : string) :
  (String.length (Uri.remove_escaped_chars s) <= String.length s)%nat
  /\ (Uri.all_chars (fun c => negb (Ascii.eqb c "%")) s = true ->
      Uri.remove_escaped_chars s = s)
  /\ ((String.length s <= 2)%nat -> Uri.remove_escaped_chars s = s).
Proof.
  destruct (remove_escaped_chars_bounded (String.length s) s (le_n _))
    as [H1 H2].
  repeat split; auto.
  destruct s as [|c1 [|c2 [|c3 rest]]]; try reflexivity.
  cbn [String.length]. lia.
Qed.

Lemma remove_escaped_chars_shape_witness :
  Uri.remove_escaped_chars "a/b" = "a/b"
  /\ Uri.remove_escaped_chars "%4" = "%4".
Proof.
  split.
  - destruct (remove_escaped_chars_shape "a/b") as (_ & H & _).
    apply H. reflexivity.
  - destruct (remove_escaped_chars_shape "%4") as (_ & _ & H).
    apply H. cbn. lia.
Defined.

(** *** Dot segments *)

Lemma substr_from_empty k : Uri.substr_from "" k = "".
Proof. destruct k; reflexivity. Qed.

Lemma find_first_of_from m s pos :
  Uri.find_first_of m s pos
  = option_map (Nat.add pos) (Uri.find_first_of m (Uri.substr_from s pos) 0).
Proof.
  revert pos. induction s as [|c s IH]; intros pos.
  - rewrite substr_from_empty. reflexivity.
  - destruct pos as [|p].
    + cbn [Uri.substr_from]. destruct (Uri.find_first_of _ _ _); reflexivity.
    + cbn [Uri.find_first_of Uri.substr_from]. rewrite IH.
      destruct (Uri.find_first_of _ _ _); reflexivity.
Qed.

Lemma nth_char_from s pos k :
  Uri.nth_char s (pos + k) = Uri.nth_char (Uri.substr_from s pos) k.
Proof.
  revert s. induction pos as [|p IH]; intros s; [reflexivity|].
  destruct s as [|c s]; cbn [Uri.substr_from].
  - unfold Uri.nth_char. destruct k; reflexivity.
  - rewrite <- IH. reflexivity.
Qed.

Lemma substr_from_add s pos k :
  Uri.substr_from s (pos + k) = Uri.substr_from (Uri.substr_from s pos) k.
Proof.
  revert s. induction pos as [|p IH]; intros s; [reflexivity|].
  destruct s as [|c s]; cbn [Uri.substr_from Nat.add].
  - now rewrite substr_from_empty.
  - apply IH.
Qed.

Lemma length_substr_from s pos :
  String.length (Uri.substr_from s pos) = (String.length s - pos)%nat.
Proof.
  revert s. induction pos as [|p IH]; intros s; cbn [Uri.substr_from].
  - lia.
  - destruct s as [|c s]; [reflexivity|]. cbn [String.length]. rewrite IH. lia.
Qed.

Lemma find_first_of_split s :
  match Uri.find_first_of Uri.markers s 0 with
  | None => marker_free s = true
  | Some k =>
      exists s1 c s2,
        s = s1 +:+ String c s2 /\ String.length s1 = k
        /\ marker_free s1 = true /\ ascii_in Uri.markers c = true
        /\ Uri.nth_char s k = c /\ Uri.prefix s k = s1
        /\ Uri.substr_from s k = String c s2
  end.
Proof.
  induction s as [|c s IH]; [reflexivity|]. cbn [Uri.find_first_of].
  destruct (ascii_in Uri.markers c) eqn:Hc.
  - exists "", c, s. repeat split; auto.
  - destruct (Uri.find_first_of Uri.markers s 0) as [k|]; cbn [option_map].
    + destruct IH as (s1 & c' & s2 & -> & <- & Hf & Hm & Hn & Hp & Hs).
      exists (String c s1), c', s2. rewrite append_cons.
      cbn [String.length Uri.prefix Uri.substr_from].
      unfold marker_free. cbn [Uri.all_chars]. rewrite Hc, Hp.
      repeat split; auto.
    + unfold marker_free. cbn [Uri.all_chars]. now rewrite Hc.
Qed.

Lemma path_elt_empty v : Uri.path_elt v "" = Some v.
Proof. reflexivity. Qed.

Lemma dots_scan_free v elt s1 t :
  marker_free s1 = true ->
  Uri.dots_scan v elt (s1 +:+ t) = Uri.dots_scan v (elt +:+ s1) t.
Proof.
  revert elt. induction s1 as [|c s1 IH]; intros elt.
  - intros _. now rewrite append_empty, append_empty_r.
  - unfold marker_free. cbn [Uri.all_chars].
    intros [Hc Hs]%andb_true_iff. rewrite append_cons.
    cbn [Uri.dots_scan].
    apply negb_true_iff in Hc. unfold ascii_in, Uri.markers in Hc.
    cbn [existsb] in Hc. rewrite orb_false_r in Hc.
    apply orb_false_iff in Hc as [H1 H2]. rewrite H1, H2.
    rewrite (IH _ Hs), append_assoc. reflexivity.
Qed.

Lemma dots_scan_free_end v elt s :
  marker_free s = true ->
  Uri.dots_scan v elt s = Uri.path_elt v (elt +:+ s).
Proof.
  intros H. rewrite <- (append_empty_r s) at 1.
  now rewrite (dots_scan_free _ _ _ _ H).
Qed.

Lemma marker_cases c :
  ascii_in Uri.markers c = true -> c = "/"%char \/ c = "?"%char.
Proof.
  unfold ascii_in, Uri.markers. cbn [existsb]. rewrite orb_false_r.
  intros [H | H]%orb_true_iff; apply Ascii.eqb_eq in H; auto.
Qed.

(** The loop over indices and the scan over characters agree. *)
Lemma remove_dots_loop_scan fuel :
  forall inp pos v,
    (String.length inp - pos < fuel)%nat ->
    Uri.remove_dots_loop fuel inp pos v
    = Uri.dots_scan v "" (Uri.substr_from inp pos).
Proof.
  induction fuel as [|fuel IH]; intros inp pos v Hf; [lia|].
  cbn [Uri.remove_dots_loop]. rewrite find_first_of_from.
  pose proof (find_first_of_split (Uri.substr_from inp pos)) as Hsplit.
  pose proof (length_substr_from inp pos) as Hlen.
  destruct (Uri.find_first_of Uri.markers (Uri.substr_from inp pos) 0)
    as [k|]; cbn [option_map].
  - destruct Hsplit as (s1 & c & s2 & Hs & Hk & Hfree & Hm & Hn & Hp & Hd).
    rewrite nth_char_from, Hn.
    assert (1 <= String.length inp - pos)%nat as Hpos.
    { rewrite <- Hlen, Hs. clear.
      destruct s1; [rewrite append_empty | rewrite append_cons];
        cbn [String.length]; lia. }
    destruct (marker_cases _ Hm) as [-> | ->].
    + change (Ascii.eqb "/" "?") with false. cbv iota.
      destruct k as [|k].
      * rewrite Nat.add_0_r, Nat.eqb_refl.
        rewrite IH by lia.
        replace (S pos) with (pos + 1)%nat by lia.
        rewrite substr_from_add, Hs.
        destruct s1; [|discriminate Hk]. rewrite append_empty.
        reflexivity.
      * replace (Nat.eqb (pos + S k) pos) with false
          by (symmetry; apply Nat.eqb_neq; lia).
        replace (pos + S k - pos)%nat with (S k) by lia.
        unfold Uri.substr. rewrite Hp.
        rewrite Hs, dots_scan_free by exact Hfree.
        rewrite append_empty. cbn [Uri.dots_scan].
        change (Ascii.eqb "/" "/") with true. cbv iota.
        destruct (Uri.path_elt v s1) as [v'|]; [|reflexivity].
        rewrite IH by lia. rewrite substr_from_add, Hd.
        cbn [Uri.dots_scan]. change (Ascii.eqb "/" "/") with true.
        cbv iota. now rewrite path_elt_empty.
    + change (Ascii.eqb "?" "?") with true. cbv iota.
      rewrite Hs, dots_scan_free by exact Hfree.
      rewrite append_empty. reflexivity.
  - rewrite dots_scan_free_end by exact Hsplit. now rewrite append_empty.
Qed.

Lemma remove_dots_eq inp :
  Uri.remove_dots inp
  = match inp with
    | EmptyString => ""
    | String c0 _ =>
        match Uri.dots_scan [] "" inp with
        | None => ""
        | Some v =>
            Uri.remove_dots_out (Ascii.eqb c0 "/") (Uri.ends_with_slash inp) v
        end
    end.
Proof.
  unfold Uri.remove_dots. destruct inp as [|c0 inp']; [reflexivity|].
  rewrite remove_dots_loop_scan by lia. reflexivity.
Qed.

Lemma all_chars_app p s t :
  Uri.all_chars p (s +:+ t) = Uri.all_chars p s && Uri.all_chars p t.
Proof.
  induction s as [|c s IH]; [reflexivity|].
  rewrite append_cons. cbn [Uri.all_chars]. now rewrite IH, andb_assoc.
Qed.

Lemma plain_elt_free x : Uri.plain_elt x = true -> marker_free x = true.
Proof. unfold Uri.plain_elt. now intros [_ H]%andb_true_iff. Qed.

Lemma path_elt_plain v x :
  Uri.plain_elt x = true -> Uri.path_elt v x = Some (v ++ [x]).
Proof.
  unfold Uri.plain_elt, Uri.path_elt.
  intros [[[H1 H2]%andb_true_iff H3]%andb_true_iff _]%andb_true_iff.
  apply negb_true_iff in H1, H2, H3. now rewrite H1, H2, H3.
Qed.

Lemma Forall_pop_back {A} (P : A -> Prop) (l : list A) :
  Forall P l -> Forall P (removelast l).
Proof.
  induction 1 as [|x l Hx Hl IH]; [constructor|].
  cbn [removelast]. destruct l; [constructor|]. constructor; assumption.
Qed.

Lemma path_elt_keeps v elt v' :
  marker_free elt = true ->
  Forall (fun x => Uri.plain_elt x = true) v ->
  Uri.path_elt v elt = Some v' ->
  Forall (fun x => Uri.plain_elt x = true) v'.
Proof.
  intros Hfree Hv. unfold Uri.path_elt.
  destruct (String.eqb elt "") eqn:E1; cbn [orb]; [now intros [= <-]|].
  destruct (String.eqb elt ".") eqn:E2; [now intros [= <-]|].
  destruct (String.eqb elt "..") eqn:E3.
  - destruct v as [|x0 v0]; [discriminate|]. intros [= <-].
    exact (Forall_pop_back _ (x0 :: v0) Hv).
  - intros [= <-]. apply Forall_app. split; [exact Hv|].
    constructor; [|constructor]. unfold Uri.plain_elt.
    now rewrite E1, E2, E3.
Qed.

(** The loop keeps only plain segments, as long as no '?' is met. *)
Lemma dots_scan_plain s :
  forall v elt v',
    Uri.query_free s = true ->
    marker_free elt = true ->
    Forall (fun x => Uri.plain_elt x = true) v ->
    Uri.dots_scan v elt s = Some v' ->
    Forall (fun x => Uri.plain_elt x = true) v'.
Proof.
  induction s as [|c s IH]; intros v elt v' Hq Hfree Hv; cbn [Uri.dots_scan].
  - now apply path_elt_keeps.
  - unfold Uri.query_free in Hq. cbn [Uri.all_chars] in Hq.
    apply andb_true_iff in Hq as [Hc Hq]. apply negb_true_iff in Hc.
    rewrite Hc. destruct (Ascii.eqb c "/") eqn:Hs.
    + destruct (Uri.path_elt v elt) as [v1|] eqn:E; [|discriminate].
      apply IH; [exact Hq | reflexivity |].
      now apply (path_elt_keeps v elt).
    + apply IH; [exact Hq | | exact Hv].
      unfold marker_free. rewrite all_chars_app. cbn [Uri.all_chars].
      unfold marker_free in Hfree. rewrite Hfree.
      unfold ascii_in, Uri.markers. cbn [existsb]. now rewrite Hs, Hc.
Qed.

Lemma dots_scan_elt v x t :
  Uri.plain_elt x = true ->
  Uri.dots_scan v "" (x +:+ String "/" t) = Uri.dots_scan (v ++ [x]) "" t.
Proof.
  intros Hx. rewrite dots_scan_free by now apply plain_elt_free.
  rewrite append_empty. cbn [Uri.dots_scan].
  change (Ascii.eqb "/" "/") with true. cbv iota.
  now rewrite path_elt_plain.
Qed.

Lemma dots_scan_concat w :
  forall v t,
    Forall (fun x => Uri.plain_elt x = true) w ->
    Uri.dots_scan v "" (Uri.concat_elts w +:+ t) = Uri.dots_scan (v ++ w) "" t.
Proof.
  induction w as [|x w IH]; intros v t Hw; cbn [Uri.concat_elts].
  - now rewrite append_empty, app_nil_r.
  - apply Forall_cons_iff in Hw as [Hx Hw].
    rewrite !append_assoc, append_cons, append_empty.
    rewrite dots_scan_elt by exact Hx. rewrite IH by exact Hw.
    now rewrite <- app_assoc.
Qed.

Lemma dots_scan_last v x :
  Uri.plain_elt x = true -> Uri.dots_scan v "" x = Some (v ++ [x]).
Proof.
  intros Hx. rewrite dots_scan_free_end by now apply plain_elt_free.
  rewrite append_empty. now apply path_elt_plain.
Qed.

Lemma concat_elts_snoc w y :
  Uri.concat_elts (w ++ [y]) = Uri.concat_elts w +:+ y +:+ "/".
Proof.
  induction w as [|x w IH]; cbn [Uri.concat_elts app].
  - now rewrite append_empty_r, append_empty.
  - now rewrite IH, !append_assoc.
Qed.

Lemma str_back_snoc s c : Uri.back (s +:+ String c "") = Some c.
Proof.
  induction s as [|d s IH]; [reflexivity|]. rewrite append_cons.
  cbn [Uri.back]. rewrite IH.
  destruct (s +:+ String c "") eqn:E; [|reflexivity].
  destruct s; discriminate E.
Qed.

Lemma str_pop_back_snoc s c : Uri.pop_back (s +:+ String c "") = s.
Proof.
  induction s as [|d s IH]; [reflexivity|]. rewrite append_cons.
  cbn [Uri.pop_back]. rewrite IH.
  destruct (s +:+ String c "") eqn:E; [|reflexivity].
  destruct s; discriminate E.
Qed.

Lemma str_snoc s :
  s <> "" -> exists s' c, s = s' +:+ String c "".
Proof.
  induction s as [|d s IH]; [congruence|]. intros _.
  destruct s as [|e s].
  - exists "", d. reflexivity.
  - destruct IH as (s' & c & E); [discriminate|].
    exists (String d s'), c. now rewrite append_cons, <- E.
Qed.

Lemma str_length_app s t :
  String.length (s +:+ t) = (String.length s + String.length t)%nat.
Proof.
  induction s as [|c s IH]; [reflexivity|].
  rewrite append_cons. cbn [String.length]. now rewrite IH.
Qed.

Lemma plain_elt_head x :
  Uri.plain_elt x = true ->
  exists c x', x = String c x' /\ Ascii.eqb c "/" = false.
Proof.
  intros Hx. pose proof (plain_elt_free _ Hx) as Hf.
  destruct x as [|c x']; [discriminate Hx|]. exists c, x'. split; [reflexivity|].
  unfold marker_free in Hf. cbn [Uri.all_chars] in Hf.
  apply andb_true_iff in Hf as [Hc _]. apply negb_true_iff in Hc.
  unfold ascii_in, Uri.markers in Hc. cbn [existsb] in Hc.
  now apply orb_false_iff in Hc as [Hc _].
Qed.

Lemma plain_elt_last x :
  Uri.plain_elt x = true ->
  exists x' c, x = x' +:+ String c "" /\ Ascii.eqb c "/" = false.
Proof.
  intros Hx. pose proof (plain_elt_free _ Hx) as Hf.
  destruct (str_snoc x) as (x' & c & ->); [now destruct x|].
  exists x', c. split; [reflexivity|].
  unfold marker_free in Hf. rewrite all_chars_app in Hf.
  apply andb_true_iff in Hf as [_ Hc]. cbn [Uri.all_chars] in Hc.
  rewrite andb_true_r in Hc. apply negb_true_iff in Hc.
  unfold ascii_in, Uri.markers in Hc. cbn [existsb] in Hc.
  now apply orb_false_iff in Hc as [Hc _].
Qed.

(** The head of a joined path is the head of its first segment. *)
Lemma concat_elts_head w y t :
  Forall (fun x => Uri.plain_elt x = true) (w ++ [y]) ->
  exists c r, Uri.concat_elts w +:+ y +:+ t = String c r
              /\ Ascii.eqb c "/" = false.
Proof.
  intros Hall. destruct w as [|x w]; cbn [app] in Hall;
    apply Forall_cons_iff in Hall as [Hx _];
    destruct (plain_elt_head _ Hx) as (c & x' & -> & Hc).
  - cbn [Uri.concat_elts]. rewrite append_empty, append_cons. eauto.
  - cbn [Uri.concat_elts]. rewrite !append_assoc, append_cons. eauto.
Qed.

(** A path in normal form, scanned again, gives back its segments and
    its flags. *)
Lemma remove_dots_out_scan a e w y :
  Forall (fun x => Uri.plain_elt x = true) (w ++ [y]) ->
  exists c0 r,
    Uri.remove_dots_out a e (w ++ [y]) = String c0 r
    /\ Ascii.eqb c0 "/" = a
    /\ Uri.ends_with_slash (Uri.remove_dots_out a e (w ++ [y])) = e
    /\ Uri.dots_scan [] "" (Uri.remove_dots_out a e (w ++ [y]))
       = Some (w ++ [y]).
Proof.
  intros Hall.
  pose proof Hall as Hall'. apply Forall_app in Hall' as [Hw Hy].
  apply Forall_cons_iff in Hy as [Hy _].
  set (pre := if a then "/" else "").
  assert (Hout : Uri.remove_dots_out a e (w ++ [y])
                 = if e then pre +:+ Uri.concat_elts w +:+ y +:+ "/"
                   else pre +:+ Uri.concat_elts w +:+ y).
  { unfold Uri.remove_dots_out. fold pre. rewrite concat_elts_snoc.
    replace (pre +:+ Uri.concat_elts w +:+ y +:+ "/")
      with ((pre +:+ Uri.concat_elts w +:+ y) +:+ "/")
      by now rewrite !append_assoc.
    unfold Uri.ends_with_slash. rewrite str_back_snoc.
    change (Ascii.eqb "/" "/") with true. rewrite andb_true_r.
    replace (1 <? String.length ((pre +:+ Uri.concat_elts w +:+ y) +:+ "/"))%nat
      with true.
    2:{ symmetry. apply Nat.ltb_lt. rewrite !str_length_app.
        destruct (plain_elt_head _ Hy) as (c & y' & -> & _).
        cbn [String.length]. lia. }
    rewrite andb_true_r. destruct e; cbn [negb]; [reflexivity|].
    apply str_pop_back_snoc. }
  rewrite Hout.
  destruct (concat_elts_head w y (if e then "/" else "") Hall)
    as (c & r & Hhead & Hc).
  assert (Hscan : forall t v,
             Uri.dots_scan v "" (pre +:+ t) = Uri.dots_scan v "" t).
  { intros t v. unfold pre. destruct a; [|now rewrite append_empty].
    rewrite append_cons, append_empty. cbn [Uri.dots_scan].
    change (Ascii.eqb "/" "/") with true. cbv iota.
    now rewrite path_elt_empty. }
  assert (Hfirst : exists c0 r0,
             pre +:+ Uri.concat_elts w +:+ y +:+ (if e then "/" else "")
             = String c0 r0 /\ Ascii.eqb c0 "/" = a).
  { unfold pre. destruct a.
    - rewrite append_cons, append_empty. eauto.
    - rewrite append_empty, Hhead. eauto. }
  destruct Hfirst as (c0 & r0 & Hfirst & Hc0).
  destruct e.
  - exists c0, r0. split; [exact Hfirst|]. split; [exact Hc0|]. split.
    + replace (pre +:+ Uri.concat_elts w +:+ y +:+ "/")
        with ((pre +:+ Uri.concat_elts w +:+ y) +:+ "/")
        by now rewrite !append_assoc.
      unfold Uri.ends_with_slash. now rewrite str_back_snoc.
    + rewrite Hscan, dots_scan_concat by exact Hw.
      rewrite dots_scan_elt by exact Hy. reflexivity.
  - rewrite append_empty_r in Hfirst.
    exists c0, r0. split; [exact Hfirst|]. split; [exact Hc0|]. split.
    + destruct (plain_elt_last _ Hy) as (y' & cl & -> & Hcl).
      replace (pre +:+ Uri.concat_elts w +:+ y' +:+ String cl "")
        with ((pre +:+ Uri.concat_elts w +:+ y') +:+ String cl "")
        by now rewrite !append_assoc.
      unfold Uri.ends_with_slash. now rewrite str_back_snoc.
    + rewrite Hscan, dots_scan_concat by exact Hw.
      now apply dots_scan_last.
Qed.

Lemma remove_dots_out_fixed a e v :
  Forall (fun x => Uri.plain_elt x = true) v ->
  Uri.remove_dots (Uri.remove_dots_out a e v) = Uri.remove_dots_out a e v.
Proof.
  intros Hv. induction v as [|y w _] using rev_ind.
  - destruct a, e; reflexivity.
  - destruct (remove_dots_out_scan a e w y Hv) as (c0 & r & E & Ha & He & Hs).
    rewrite remove_dots_eq. rewrite E in *. now rewrite Hs, Ha, He, <- E.
Qed.

Lemma dots_scan_dotdot v t :
  Uri.dots_scan v "" ("../" +:+ t)
  = match v with
    | [] => None
    | _ :: _ => Uri.dots_scan (removelast v) "" t
    end.
Proof.
  change ("../" +:+ t) with (".." +:+ String "/" t).
  rewrite dots_scan_free by reflexivity. rewrite append_empty.
  cbn [Uri.dots_scan]. change (Ascii.eqb "/" "/") with true. cbv iota.
  destruct v; reflexivity.
Qed.

Lemma dots_scan_dotdots n :
  forall v rest,
    length v = n ->
    Uri.dots_scan v "" (Uri.dotdots (S n) +:+ rest) = None.
Proof.
  induction n as [|n IH]; intros v rest Hn.
  - destruct v; [|discriminate Hn]. cbn [Uri.dotdots].
    rewrite append_assoc. apply dots_scan_dotdot.
  - change (Uri.dotdots (S (S n))) with ("../" +:+ Uri.dotdots (S n)).
    rewrite append_assoc, dots_scan_dotdot.
    destruct v as [|x v]; [reflexivity|]. apply IH.
    rewrite removelast_firstn_len, firstn_length_le; cbn [length] in *; lia.
Qed.

(** X18: on a path without '?', [remove_dots] returns a path in normal
    form (plain segments joined by '/', none of them empty, "." or
    ".."), and is idempotent. *)
Theorem remove_dots_idempotent (p : string) :
  Uri.query_free p = true ->
  (exists a e v,
      Forall (fun x => Uri.plain_elt x = true) v
      /\ Uri.remove_dots p = Uri.remove_dots_out a e v)
  /\ Uri.remove_dots (Uri.remove_dots p) = Uri.remove_dots p.
Proof.
  intros Hq.
  assert (exists a e v,
             Forall (fun x => Uri.plain_elt x = true) v
             /\ Uri.remove_dots p = Uri.remove_dots_out a e v) as Hnf.
  { rewrite remove_dots_eq. destruct p as [|c0 p'].
    - exists false, false, []. split; [constructor | reflexivity].
    - destruct (Uri.dots_scan [] "" (String c0 p')) as [v|] eqn:E.
      + exists (Ascii.eqb c0 "/"), (Uri.ends_with_slash (String c0 p')), v.
        split; [|reflexivity].
        apply (dots_scan_plain _ [] "" v Hq); [reflexivity | constructor | exact E].
      + exists false, false, []. split; [constructor | reflexivity]. }
  split; [exact Hnf|].
  destruct Hnf as (a & e & v & Hv & ->). now apply remove_dots_out_fixed.
Qed.

Lemma remove_dots_idempotent_witness :
  Uri.remove_dots (Uri.remove_dots "/a/./b/../c/") = Uri.remove_dots "/a/./b/../c/".
Proof. apply (remove_dots_idempotent "/a/./b/../c/"). reflexivity. Defined.

(** X19: a path already in normal form is returned as it is; a path
    that climbs above its first segment (as many ".." as there are
    segments before them, and one more) is refused: the result is
    empty, whatever follows. *)
Theorem remove_dots_normal_form (a e : bool) (v : list string) :
  Forall (fun x => Uri.plain_elt x = true) v ->
  Uri.remove_dots (Uri.remove_dots_out a e v) = Uri.remove_dots_out a e v
  /\ forall rest,
      Uri.remove_dots ((if a then "/" else "") +:+ Uri.concat_elts v
                       +:+ Uri.dotdots (S (length v)) +:+ rest) = "".
Proof.
  intros Hv. split; [now apply remove_dots_out_fixed|]. intros rest.
  rewrite remove_dots_eq.
  destruct (_ +:+ _) as [|c0 r] eqn:E; [reflexivity|]. rewrite <- E.
  replace (Uri.dots_scan [] "" _) with (@None (list string));
    [reflexivity|].
  symmetry. destruct a.
  - rewrite append_cons, append_empty. cbn [Uri.dots_scan].
    change (Ascii.eqb "/" "/") with true. cbv iota. rewrite path_elt_empty.
    rewrite dots_scan_concat by exact Hv. now apply dots_scan_dotdots.
  - rewrite append_empty, dots_scan_concat by exact Hv.
    now apply dots_scan_dotdots.
Qed.

Lemma remove_dots_normal_form_witness :
  Uri.remove_dots "/a/b" = "/a/b"
  /\ Uri.remove_dots "/a/b/../../../c" = "".
Proof.
  destruct (remove_dots_normal_form true false ["a"; "b"]) as [H1 H2].
  - repeat constructor.
  - split; [exact H1 | exact (H2 "c")].
Defined.

(** *** The parts of a URI *)

Lemma str_find_from ch s pos :
  Uri.find ch s pos
  = option_map (Nat.add pos) (Uri.find ch (Uri.substr_from s pos) 0).
Proof.
  revert pos. induction s as [|c s IH]; intros pos.
  - rewrite substr_from_empty. reflexivity.
  - destruct pos as [|p].
    + cbn [Uri.substr_from]. destruct (Uri.find _ _ _); reflexivity.
    + cbn [Uri.find Uri.substr_from]. rewrite IH.
      destruct (Uri.find _ _ _); reflexivity.
Qed.

Lemma str_find_split ch s :
  match Uri.find ch s 0 with
  | None => lacks ch s = true
  | Some n =>
      exists s1 s2,
        s = s1 +:+ String ch s2 /\ String.length s1 = n
        /\ lacks ch s1 = true /\ Uri.prefix s n = s1
        /\ Uri.substr_from s (S n) = s2
  end.
Proof.
  induction s as [|c s IH]; [reflexivity|]. cbn [Uri.find].
  destruct (Ascii.eqb_spec c ch) as [-> | Hne].
  - exists "", s. repeat split; auto.
  - assert (negb (Ascii.eqb c ch) = true) as Hc
        by now apply negb_true_iff, Ascii.eqb_neq.
    destruct (Uri.find ch s 0) as [n|]; cbn [option_map].
    + destruct IH as (s1 & s2 & -> & <- & Hl & Hp & Hs).
      exists (String c s1), s2. rewrite append_cons.
      cbn [String.length Uri.prefix]. rewrite Hp.
      unfold lacks. cbn [Uri.all_chars]. rewrite Hc.
      repeat split; auto.
    + unfold lacks. cbn [Uri.all_chars]. now rewrite Hc.
Qed.

Lemma str_find_later ch s :
  forall p p' h,
    Uri.find ch s p = Some h -> (p <= p')%nat -> (p' <= h)%nat ->
    Uri.find ch s p' = Some h.
Proof.
  induction s as [|c s IH]; intros p p' h; [discriminate|].
  cbn [Uri.find]. destruct p as [|q].
  - destruct (Ascii.eqb c ch) eqn:E.
    + intros [= <-] _ Hp'. replace p' with O by lia. reflexivity.
    + destruct (Uri.find ch s 0) as [h'|] eqn:Ef; [|discriminate].
      cbn [option_map]. intros [= <-] _ Hp'.
      destruct p' as [|p'']; [now rewrite ?E, ?Ef|].
      rewrite (IH 0%nat p'' h' Ef) by lia. reflexivity.
  - destruct (Uri.find ch s q) as [h'|] eqn:Ef; [|discriminate].
    cbn [option_map]. intros [= <-] Hp Hp'.
    destruct p' as [|p'']; [lia|].
    rewrite (IH q p'' h' Ef) by lia. reflexivity.
Qed.

Lemma str_find_ge ch s p h : Uri.find ch s p = Some h -> (p <= h)%nat.
Proof.
  rewrite str_find_from. destruct (Uri.find _ _ _); [|discriminate].
  cbn [option_map]. intros [= <-]. lia.
Qed.

Lemma lacks_app ch s t : lacks ch (s +:+ t) = lacks ch s && lacks ch t.
Proof. apply all_chars_app. Qed.

Lemma lacks_prefix ch s n : lacks ch s = true -> lacks ch (Uri.prefix s n) = true.
Proof.
  revert n. induction s as [|c s IH]; intros n; [now destruct n|].
  unfold lacks. cbn [Uri.all_chars]. intros [Hc Hs]%andb_true_iff.
  destruct n; [reflexivity|]. cbn [Uri.prefix Uri.all_chars].
  rewrite Hc. now apply IH.
Qed.

Lemma str_prefix_prefix s n m :
  (n <= m)%nat -> Uri.prefix (Uri.prefix s m) n = Uri.prefix s n.
Proof.
  revert n m. induction s as [|c s IH]; intros n m H.
  - destruct n, m; reflexivity.
  - destruct n; [now destruct m|]. destruct m; [lia|].
    cbn [Uri.prefix]. rewrite IH by lia. reflexivity.
Qed.

Lemma prefix_substr_from s n : s = Uri.prefix s n +:+ Uri.substr_from s n.
Proof.
  revert n. induction s as [|c s IH]; intros n; [now destruct n|].
  destruct n; [reflexivity|]. cbn [Uri.prefix Uri.substr_from].
  rewrite append_cons. now rewrite <- IH.
Qed.

Lemma str_length_prefix s n :
  (n <= String.length s)%nat -> String.length (Uri.prefix s n) = n.
Proof.
  revert n. induction s as [|c s IH]; intros n; cbn [String.length].
  - intros H. now replace n with O by lia.
  - destruct n; [reflexivity|]. cbn [Uri.prefix String.length].
    intros H. rewrite IH by lia. reflexivity.
Qed.

Lemma parse_uri_path_tail inp bp out :
  uri_tail out (Uri.parse_uri_path inp bp out) (Uri.substr_from inp bp)
  /\ Uri.type (Uri.parse_uri_path inp bp out) = Uri.type out
  /\ Uri.scheme (Uri.parse_uri_path inp bp out) = Uri.scheme out
  /\ Uri.hostport (Uri.parse_uri_path inp bp out) = Uri.hostport out
  /\ Uri.path_type (Uri.parse_uri_path inp bp out)
     = if Uri.starts_with "/" (Uri.path (Uri.parse_uri_path inp bp out))
       then Uri.ABS_PATH else Uri.path_type out.
Proof.
  assert (forall x, Uri.substr_from inp (bp + x) = Uri.substr_from (Uri.substr_from inp bp) x)
    as Hadd by (intros; apply substr_from_add).
  assert (forall x, (bp + x - bp)%nat = x) as Hsub by (intros; lia).
  unfold Uri.parse_uri_path, uri_tail.
  pose proof (str_find_split "?" (Uri.substr_from inp bp)) as Hq.
  pose proof (str_find_split "#" (Uri.substr_from inp bp)) as Hh.
  destruct (Uri.find "?" inp bp) as [question|] eqn:Eq;
    destruct (Uri.find "#" inp bp) as [hash|] eqn:Eh.
  all: pose proof Eq as Eq'; pose proof Eh as Eh'.
  all: rewrite str_find_from in Eq, Eh.
  all: set (rem := Uri.substr_from inp bp) in *.
  - destruct (Uri.find "?" rem 0) as [kq|]; [|discriminate].
    destruct (Uri.find "#" rem 0) as [kh|]; [|discriminate].
    injection Eq as <-. injection Eh as <-.
    destruct Hq as (t1 & t2 & Hrem & Hkq & Ht1 & Hpq & Hsq).
    destruct Hh as (s1 & s2 & Hrem' & Hkh & Hs1 & Hph & Hsh).
    destruct (Nat.ltb_spec (bp + kh) (bp + kq)) as [Hlt | Hge];
      cbn [Uri.path Uri.query Uri.fragment Uri.type Uri.scheme
             Uri.hostport Uri.path_type];
      (split; [|repeat split]).
    + unfold Uri.substr. fold rem. rewrite Hsub, Hph.
      replace (bp + kh + 1)%nat with (bp + S kh)%nat by lia.
      rewrite Hadd. fold rem. rewrite Hsh.
      exists "", (String "#" s2). rewrite append_empty.
      repeat split; auto; try congruence.
      rewrite <- Hph, <- (str_prefix_prefix rem kh kq) by lia.
      rewrite Hpq. now apply lacks_prefix.
    + unfold Uri.substr. fold rem. rewrite !Hsub, Hpq.
      replace (bp + kh + 1)%nat with (bp + S kh)%nat by lia.
      replace (bp + kq + 1)%nat with (bp + S kq)%nat by lia.
      rewrite !Hadd. fold rem. rewrite Hsh, Hsq.
      assert (kq <> kh) as Hne.
      { intros ->. rewrite Hrem' in Hrem at 1.
        assert (s1 = t1) as -> by (rewrite <- Hpq, <- Hph; reflexivity).
        clear - Hrem. induction t1 as [|c t1 IH].
        - rewrite !append_empty in Hrem. discriminate.
        - rewrite !append_cons in Hrem. injection Hrem as H. auto. }
      assert (Uri.find "#" t2 0 = Some (kh - S kq)%nat) as Hf.
      { pose proof (str_find_later "#" inp bp (bp + S kq)%nat (bp + kh)%nat Eh') as Hl.
        rewrite str_find_from, Hadd in Hl. fold rem in Hl. rewrite Hsq in Hl.
        specialize (Hl ltac:(lia) ltac:(lia)).
        destruct (Uri.find "#" t2 0) as [k|]; [|discriminate].
        cbn [option_map] in Hl. injection Hl as Hl. f_equal. lia. }
      pose proof (str_find_split "#" t2) as Ht2. rewrite Hf in Ht2.
      destruct Ht2 as (u1 & u2 & Ht2 & Hku & Hu1 & Hpu & Hsu).
      replace (bp + kh - (bp + kq) - 1)%nat with (kh - S kq)%nat by lia.
      rewrite Hpu.
      exists (String "?" u1), (String "#" s2).
      assert (s2 = u2) as ->.
      { rewrite <- Hsu, <- Hsq, <- Hsh.
        rewrite <- substr_from_add. f_equal. lia. }
      repeat split; auto; try congruence.
      -- rewrite Hrem at 1. rewrite Ht2. now rewrite append_cons.
      -- rewrite <- Hpq, <- (str_prefix_prefix rem kq kh) by lia.
         rewrite Hph. now apply lacks_prefix.
  - destruct (Uri.find "?" rem 0) as [kq|]; [|discriminate].
    destruct (Uri.find "#" rem 0) as [kh|]; [discriminate|].
    injection Eq as <-.
    destruct Hq as (t1 & t2 & Hrem & Hkq & Ht1 & Hpq & Hsq).
    cbn [Uri.path Uri.query Uri.fragment Uri.type Uri.scheme
           Uri.hostport Uri.path_type].
    split; [|repeat split].
    unfold Uri.substr. fold rem. rewrite Hsub, Hpq.
    replace (bp + kq + 1)%nat with (bp + S kq)%nat by lia.
    rewrite Hadd. fold rem. rewrite Hsq.
    rewrite Hrem, lacks_app in Hh. apply andb_true_iff in Hh as [Hh1 Hh2].
    exists (String "?" t2), "". rewrite append_empty_r.
    repeat split; auto; try congruence.
    all: try (unfold lacks in Hh2; cbn [Uri.all_chars] in Hh2;
              now apply andb_true_iff in Hh2 as [_ Hh2]).
  - destruct (Uri.find "?" rem 0) as [kq|]; [discriminate|].
    destruct (Uri.find "#" rem 0) as [kh|]; [|discriminate].
    injection Eh as <-.
    destruct Hh as (s1 & s2 & Hrem & Hkh & Hs1 & Hph & Hsh).
    cbn [Uri.path Uri.query Uri.fragment Uri.type Uri.scheme
           Uri.hostport Uri.path_type].
    split; [|repeat split].
    unfold Uri.substr. fold rem. rewrite Hsub, Hph.
    replace (bp + kh + 1)%nat with (bp + S kh)%nat by lia.
    rewrite Hadd. fold rem. rewrite Hsh.
    rewrite Hrem, lacks_app in Hq. apply andb_true_iff in Hq as [Hq1 _].
    exists "", (String "#" s2). rewrite append_empty.
    repeat split; auto; congruence.
  - destruct (Uri.find "?" rem 0) as [kq|]; [discriminate|].
    destruct (Uri.find "#" rem 0) as [kh|]; [discriminate|].
    cbn [Uri.path Uri.query Uri.fragment Uri.type Uri.scheme
           Uri.hostport Uri.path_type].
    split; [|repeat split].
    exists "", "". rewrite !append_empty_r. repeat split; auto; congruence.
Qed.

Lemma str_span_eq p s : s = fst (Uri.span p s) +:+ snd (Uri.span p s).
Proof.
  induction s as [|c s IH]; [reflexivity|]. cbn [Uri.span].
  destruct (p c); [|reflexivity].
  destruct (Uri.span p s) as [a b]. cbn [fst snd] in *.
  rewrite append_cons. now rewrite <- IH.
Qed.

Lemma str_substring_prefix n s : substring 0 n s = Uri.prefix s n.
Proof.
  revert n. induction s as [|c s IH]; intros n; [now destruct n|].
  destruct n; [reflexivity|]. cbn [substring Uri.prefix]. now rewrite IH.
Qed.

Lemma str_length_prefix_le s n :
  (String.length (Uri.prefix s n) <= n)%nat
  /\ (String.length (Uri.prefix s n) <= String.length s)%nat.
Proof.
  revert n. induction s as [|c s IH]; intros n; [destruct n; cbn; lia|].
  destruct n; [cbn; lia|]. cbn [Uri.prefix String.length].
  destruct (IH n). lia.
Qed.

Lemma str_prefix_app_le s t n :
  (n <= String.length s)%nat -> Uri.prefix (s +:+ t) n = Uri.prefix s n.
Proof.
  revert n. induction s as [|c s IH]; intros n; cbn [String.length].
  - intros H. replace n with O by lia. now destruct t.
  - destruct n; [reflexivity|]. rewrite append_cons. cbn [Uri.prefix].
    intros H. rewrite IH by lia. reflexivity.
Qed.

(** The second half of [parse_hostport], when it succeeds. *)
Lemma parse_hostport_port_ok env inp out af srvname has_port c srvport r hp :
  Uri.parse_hostport_port env inp out af srvname has_port c srvport = (r, hp) ->
  r <> Uri.UPNP_E_INVALID_URL ->
  let n := (c + (if has_port
                 then String.length (fst (Uri.span isdigit srvport))
                 else O))%nat in
  r = Z.of_nat n /\ Uri.text hp = Uri.prefix inp n
  /\ 1 <= Uri.sin_port (Uri.IPaddress hp) <= 65535
  /\ (has_port = false -> Uri.sin_port (Uri.IPaddress hp) = 80).
Proof.
  unfold Uri.parse_hostport_port.
  set (port := if has_port then Uri.atoi srvport mod 65536 else 80).
  assert (0 <= port <= 65535) as Hport.
  { unfold port. destruct has_port; [|lia].
    pose proof (Z.mod_pos_bound (Uri.atoi srvport) 65536). lia. }
  destruct (has_port && (port =? 0)) eqn:E0; [intros [= <- _]; congruence|].
  assert (1 <= port /\ (has_port = false -> port = 80)) as [Hp1 Hp80].
  { unfold port in *. destruct has_port; [|split; [lia | reflexivity]].
    cbn [andb] in E0. apply Z.eqb_neq in E0. split; [lia | discriminate]. }
  destruct af.
  1,4: cbn [Z.leb]; intros [= <- <-] _; cbn [Uri.text Uri.IPaddress Uri.sin_port];
    repeat split; auto; lia.
  all: destruct (Uri.inet_pton env _ srvname) as [ret a];
    destruct (ret <=? 0); [intros [= <- _]; congruence|];
    intros [= <- <-] _; cbn [Uri.text Uri.IPaddress Uri.sin_port];
    repeat split; auto; lia.
Qed.

Lemma length_upnp_strlcpy inp :
  (String.length (upnp_strlcpy inp 256) <= 255)%nat
  /\ (String.length (upnp_strlcpy inp 256) <= String.length inp)%nat.
Proof.
  unfold upnp_strlcpy. rewrite str_substring_prefix.
  change (Z.to_nat (256 - 1)) with 255%nat. apply str_length_prefix_le.
Qed.

Lemma starts_with_split ch s :
  Uri.starts_with ch s = true -> s = String ch (Uri.str_tail s).
Proof.
  destruct s as [|c s]; [discriminate|]. cbn [Uri.starts_with Uri.str_tail].
  now intros ->%Ascii.eqb_eq.
Qed.

Lemma lacks_colon_mid a b : lacks ":" (a +:+ String ":" b) = false.
Proof.
  rewrite lacks_app. unfold lacks at 2. cbn [Uri.all_chars].
  change (negb (Ascii.eqb ":" ":")) with false. cbn [andb].
  apply andb_false_r.
Qed.

Lemma str_prefix_app_ge s t n :
  Uri.prefix (s +:+ t) (String.length s + n) = s +:+ Uri.prefix t n.
Proof.
  induction s as [|c s IH]; [reflexivity|].
  rewrite !append_cons. cbn [String.length Nat.add Uri.prefix].
  now rewrite IH.
Qed.

(** [parse_hostport] fails with one code only; when it succeeds, the
    value returned is the length of the text stored, which is the head
    of the input, and the port is a port: 80 unless the text has a
    colon. *)
Lemma parse_hostport_ok env inp r hp :
  Uri.parse_hostport env inp = (r, hp) ->
  r = Uri.UPNP_E_INVALID_URL
  \/ exists n,
      r = Z.of_nat n /\ (n <= 255)%nat /\ (n <= String.length inp)%nat
      /\ Uri.text hp = Uri.prefix inp n
      /\ 1 <= Uri.sin_port (Uri.IPaddress hp) <= 65535
      /\ (lacks ":" (Uri.text hp) = true ->
          Uri.sin_port (Uri.IPaddress hp) = 80).
Proof.
  unfold Uri.parse_hostport. pose proof (length_upnp_strlcpy inp) as Hlen.
  assert (Hwork : upnp_strlcpy inp 256 = Uri.prefix inp 255)
    by (unfold upnp_strlcpy; now rewrite str_substring_prefix).
  set (workbuf := upnp_strlcpy inp 256) in *.
  assert (forall out af srvname (has_port : bool) c srvport,
             (c + (if has_port
                   then String.length (fst (Uri.span isdigit srvport))
                   else O) <= String.length workbuf)%nat ->
             (has_port = true ->
              exists a, (c = String.length a + 1)%nat
                        /\ workbuf = a +:+ String ":" srvport) ->
             Uri.parse_hostport_port env inp out af srvname has_port c srvport
             = (r, hp) ->
             r = Uri.UPNP_E_INVALID_URL
             \/ exists n,
                 r = Z.of_nat n /\ (n <= 255)%nat
                 /\ (n <= String.length inp)%nat
                 /\ Uri.text hp = Uri.prefix inp n
                 /\ 1 <= Uri.sin_port (Uri.IPaddress hp) <= 65535
                 /\ (lacks ":" (Uri.text hp) = true ->
                     Uri.sin_port (Uri.IPaddress hp) = 80)) as Hfin.
  { intros out af srvname has_port c srvport Hc Hcolon H.
    destruct (Z.eq_dec r Uri.UPNP_E_INVALID_URL) as [-> | Hr]; [now left|].
    right. destruct (parse_hostport_port_ok _ _ _ _ _ _ _ _ _ _ H Hr)
      as (Hn & Ht & Hp & H80).
    eexists. split; [exact Hn|]. repeat split; auto; try lia.
    intros Hlacks. apply H80. destruct has_port; [|reflexivity].
    destruct (Hcolon eq_refl) as (a & -> & Hw).
    rewrite Ht in Hlacks.
    rewrite <- (str_prefix_prefix inp _ 255) in Hlacks by lia.
    rewrite <- Hwork, Hw in Hlacks.
    replace (String.length a + 1
             + String.length (fst (Uri.span isdigit srvport)))%nat
      with (String.length (a +:+ ":")
            + String.length (fst (Uri.span isdigit srvport)))%nat in Hlacks
      by (rewrite str_length_app; reflexivity).
    replace (a +:+ String ":" srvport) with ((a +:+ ":") +:+ srvport) in Hlacks
      by now rewrite append_assoc.
    rewrite str_prefix_app_ge, append_assoc in Hlacks.
    rewrite append_cons, append_empty, lacks_colon_mid in Hlacks.
    discriminate Hlacks. }
  assert (forall s, (String.length (fst (Uri.span isdigit s)) <= String.length s)%nat)
    as Hdig.
  { intros s. rewrite (str_span_eq isdigit s) at 2. rewrite str_length_app. lia. }
  destruct (Uri.starts_with "[" workbuf) eqn:Eb.
  - pose proof (str_span_eq (fun c => negb (Ascii.eqb c "]")) (Uri.str_tail workbuf))
      as Hspan.
    destruct (Uri.span _ (Uri.str_tail workbuf)) as [srvname r0].
    cbn [fst snd] in Hspan.
    destruct r0 as [|c0 r1]; [intros [= <- _]; now left|].
    pose proof (starts_with_split _ _ Eb) as Hw. rewrite Hspan in Hw.
    apply Hfin.
    + rewrite Hw. cbn [String.length]. rewrite str_length_app.
      cbn [String.length].
      destruct (Uri.starts_with ":" r1) eqn:Ep.
      * rewrite (starts_with_split _ _ Ep) at 2. cbn [String.length].
        pose proof (Hdig (Uri.str_tail r1)). lia.
      * lia.
    + intros Ep. exists (String "[" (srvname +:+ String c0 "")).
      rewrite Ep. cbn [String.length]. rewrite str_length_app.
      cbn [String.length]. split; [lia|].
      rewrite Hw at 1. rewrite (starts_with_split _ _ Ep) at 1.
      now rewrite append_cons, append_assoc.
  - pose proof (str_span_eq Uri.host_char workbuf) as Hspan.
    destruct (Uri.span Uri.host_char workbuf) as [srvname r0].
    cbn [fst snd] in Hspan.
    assert ((String.length srvname
             + (if Uri.starts_with ":" r0 then 1 else 0)
             + (if Uri.starts_with ":" r0
                then String.length (fst (Uri.span isdigit (Uri.str_tail r0)))
                else O) <= String.length workbuf)%nat) as Hc.
    { rewrite Hspan, str_length_app.
      destruct (Uri.starts_with ":" r0) eqn:Ep.
      - rewrite (starts_with_split _ _ Ep) at 2. cbn [String.length].
        pose proof (Hdig (Uri.str_tail r0)). lia.
      - lia. }
    assert (Uri.starts_with ":" r0 = true ->
            exists a,
              (String.length srvname
               + (if Uri.starts_with ":" r0 then 1 else 0)
               = String.length a + 1)%nat
              /\ workbuf = a +:+ String ":" (if Uri.starts_with ":" r0
                                             then Uri.str_tail r0 else r0))
      as Hcolon.
    { intros Ep. exists srvname. rewrite Ep. split; [reflexivity|].
      rewrite Hspan at 1. now rewrite (starts_with_split _ _ Ep) at 1. }
    destruct (Uri.looks_numeric srvname).
    + apply Hfin; [destruct (Uri.starts_with ":" r0); lia | exact Hcolon].
    + destruct (Uri.getaddrinfo env srvname) as [ret res0].
      destruct (ret =? 0); [|intros [= <- _]; now left].
      destruct (List.find _ res0); [|intros [= <- _]; now left].
      apply Hfin; [destruct (Uri.starts_with ":" r0); lia | exact Hcolon].
Qed.

Lemma parse_scheme_split inp :
  (fst (Uri.parse_scheme inp) = O /\ snd (Uri.parse_scheme inp) = "")
  \/ (fst (Uri.parse_scheme inp) <> O
      /\ exists rest,
          inp = snd (Uri.parse_scheme inp) +:+ String ":" rest
          /\ fst (Uri.parse_scheme inp)
             = String.length (snd (Uri.parse_scheme inp))
          /\ Uri.valid_scheme (snd (Uri.parse_scheme inp)) = true).
Proof.
  unfold Uri.parse_scheme.
  destruct inp as [|c0 inp']; [now left|].
  destruct (Uri.isalpha c0) eqn:Ha; cbn [negb]; [|now left].
  destruct (Uri.find ":" (String c0 inp') 0) as [colon|] eqn:Ef; [|now left].
  destruct (Uri.all_chars _ _) eqn:Hall; [|now left].
  cbn [fst snd].
  destruct (str_find_Some _ _ _ Ef) as (rest & Hs & Hl).
  destruct (Uri.substr (String c0 inp') 0 colon) as [|c1 s1] eqn:Es.
  - now left.
  - right. split; [discriminate|]. exists rest.
    split; [exact Hs|]. split; [reflexivity|].
    unfold Uri.valid_scheme.
    rewrite append_cons in Hs. injection Hs as <- _. now rewrite Ha, Hall.
Qed.

Lemma substr_from_app s t : Uri.substr_from (s +:+ t) (String.length s) = t.
Proof.
  induction s as [|c s IH]; [reflexivity|].
  rewrite append_cons. cbn [String.length Uri.substr_from]. exact IH.
Qed.

Lemma substr_from_cons s n :
  (n < String.length s)%nat ->
  Uri.substr_from s n = String (Uri.nth_char s n) (Uri.substr_from s (S n)).
Proof.
  revert s. induction n as [|n IH]; intros s; destruct s as [|c s];
    cbn [String.length]; try lia; intros H.
  - reflexivity.
  - cbn [Uri.substr_from]. rewrite IH by lia. reflexivity.
Qed.

Lemma c_str_prefix s : Uri.c_str s = Uri.prefix s (String.length (Uri.c_str s)).
Proof.
  unfold Uri.c_str.
  rewrite (str_span_eq (fun c => negb (Ascii.eqb c "000")) s) at 2.
  now rewrite str_prefix_app.
Qed.

(** X20: what [parse_uri] accepts it takes apart without loss: the
    input is the scheme with its colon (for an absolute URI), then "//"
    and the host and port text (when there is an authority), then the
    path, then '?' and the query, then '#' and the fragment.  The path
    holds neither '?' nor '#', the query no '#'; parts that are absent
    leave the fields of the output as they were. *)
Theorem parse_uri_parts (env : Uri.NetEnv) (inp : string)
    (out0 out : Uri.uri_type) :
  Uri.parse_uri env inp out0 = (UPNP_E_SUCCESS, out) ->
  exists auth tail,
    inp = (match Uri.type out with
           | Uri.URITP_ABSOLUTE => Uri.scheme out +:+ ":"
           | Uri.URITP_RELATIVE => ""
           end) +:+ auth +:+ tail
    /\ (auth = "" /\ Uri.hostport out = Uri.hostport out0
        \/ auth = "//" +:+ Uri.text (Uri.hostport out)
           /\ 1 <= Uri.sin_port (Uri.IPaddress (Uri.hostport out)) <= 65535)
    /\ uri_tail out0 out tail
    /\ match Uri.type out with
       | Uri.URITP_ABSOLUTE => Uri.valid_scheme (Uri.scheme out) = true
       | Uri.URITP_RELATIVE => Uri.scheme out = ""
       end
    /\ Uri.path_type out
       = if Uri.starts_with "/" (Uri.path out) then Uri.ABS_PATH
         else match Uri.type out with
              | Uri.URITP_ABSOLUTE => Uri.OPAQUE_PART
              | Uri.URITP_RELATIVE => Uri.REL_PATH
              end.
Proof.
  unfold Uri.parse_uri.
  pose proof (parse_scheme_split inp) as Hsch.
  destruct (Uri.parse_scheme inp) as [n sch]. cbn [fst snd] in Hsch.
  set (absolute := negb (Nat.eqb n 0)).
  set (bh := if absolute then S n else n).
  set (out1 := {| Uri.type := _ |}).
  (* the scheme and what follows it *)
  assert (Hhead : inp = (if absolute then sch +:+ ":" else "")
                        +:+ Uri.substr_from inp bh
                  /\ if absolute then Uri.valid_scheme sch = true
                     else sch = "").
  { unfold bh, absolute.
    destruct Hsch as [[-> ->] | (Hn & rest & Hinp & Hlen & Hv)].
    - cbn [Nat.eqb negb Uri.substr_from]. now rewrite append_empty.
    - replace (Nat.eqb n 0) with false by (symmetry; now apply Nat.eqb_neq).
      cbn [negb]. split; [|exact Hv].
      replace (S n) with (String.length (sch +:+ ":"))
        by (rewrite str_length_app; cbn [String.length]; lia).
      rewrite Hinp at 2.
      replace (sch +:+ String ":" rest) with ((sch +:+ ":") +:+ rest)
        by now rewrite append_assoc.
      rewrite substr_from_app. rewrite Hinp at 1.
      now rewrite append_assoc. }
  destruct Hhead as [Hinp Hvalid].
  destruct ((bh + 1 <? String.length inp)%nat
            && Ascii.eqb (Uri.nth_char inp bh) "/"
            && Ascii.eqb (Uri.nth_char inp (bh + 1)) "/") eqn:Eauth.
  - apply andb_true_iff in Eauth as [[Hlt H1]%andb_true_iff H2].
    apply Nat.ltb_lt in Hlt. apply Ascii.eqb_eq in H1, H2.
    set (rest2 := Uri.substr_from inp (bh + 2)).
    assert (Uri.substr_from inp bh = "//" +:+ rest2) as Hrest.
    { rewrite substr_from_cons by lia. rewrite H1.
      replace (S bh) with (bh + 1)%nat by lia.
      rewrite substr_from_cons by lia. rewrite H2.
      unfold rest2. replace (S (bh + 1)) with (bh + 2)%nat by lia.
      reflexivity. }
    destruct (Uri.parse_hostport env (Uri.c_str rest2)) as [bp hp] eqn:Ehp.
    destruct (parse_hostport_ok _ _ _ _ Ehp)
      as [-> | (k & -> & Hk255 & Hk & Htext & Hport & _)];
      [cbn [Z.leb]; intros [= H _]; discriminate H|].
    replace (0 <=? Z.of_nat k) with true by (symmetry; apply Z.leb_le; lia).
    intros [= <-]. rewrite Nat2Z.id.
    set (out2 := {| Uri.type := _ |}).
    destruct (parse_uri_path_tail inp (k + (bh + 2)) out2)
      as (Htail & Ht & Hs & Hh & Hp).
    rewrite Ht, Hs, Hh, Hp.
    cbn [Uri.type Uri.scheme Uri.hostport Uri.path_type out1 out2].
    assert (Uri.text hp = Uri.prefix rest2 k) as Htext'.
    { rewrite Htext, c_str_prefix, str_prefix_prefix by exact Hk. reflexivity. }
    exists ("//" +:+ Uri.text hp), (Uri.substr_from inp (k + (bh + 2))).
    split; [|split; [|split; [|split]]].
    + replace (k + (bh + 2))%nat with (bh + 2 + k)%nat by lia.
      rewrite substr_from_add. fold rest2. rewrite Htext'.
      rewrite (append_assoc "//"), <- prefix_substr_from, <- Hrest.
      destruct absolute; exact Hinp.
    + right. split; [reflexivity | exact Hport].
    + exact Htail.
    + destruct absolute; exact Hvalid.
    + destruct absolute; reflexivity.
  - intros [= <-].
    destruct (parse_uri_path_tail inp bh out1) as (Htail & Ht & Hs & Hh & Hp).
    rewrite Ht, Hs, Hh, Hp. cbn [Uri.type Uri.scheme Uri.hostport Uri.path_type out1].
    exists "", (Uri.substr_from inp bh).
    split; [|split; [|split; [|split]]].
    + rewrite append_empty. destruct absolute; exact Hinp.
    + left. split; reflexivity.
    + exact Htail.
    + destruct absolute; exact Hvalid.
    + destruct absolute; reflexivity.
Qed.

Lemma str_span_all p s : Uri.all_chars p s = true -> Uri.span p s = (s, "").
Proof.
  induction s as [|c s IH]; [reflexivity|]. cbn [Uri.all_chars Uri.span].
  intros [Hc Hs]%andb_true_iff. now rewrite Hc, (IH Hs).
Qed.

(** X21: [parse_hostport] has one failure code; when it succeeds, the
    value returned is the length of the text it stores, that text is the
    head of the input and at most 255 characters long, the port is
    between 1 and 65535, and it is 80 when the text has no colon.  An
    opening bracket that is never closed is refused. *)
Theorem parse_hostport_result (env : Uri.NetEnv) (inp : string) :
  (fst (Uri.parse_hostport env inp) = Uri.UPNP_E_INVALID_URL
   \/ exists n,
       fst (Uri.parse_hostport env inp) = Z.of_nat n
       /\ (n <= 255)%nat /\ (n <= String.length inp)%nat
       /\ Uri.text (snd (Uri.parse_hostport env inp)) = Uri.prefix inp n
       /\ 1 <= Uri.sin_port (Uri.IPaddress (snd (Uri.parse_hostport env inp)))
          <= 65535
       /\ (lacks ":" (Uri.text (snd (Uri.parse_hostport env inp))) = true ->
           Uri.sin_port (Uri.IPaddress (snd (Uri.parse_hostport env inp))) = 80))
  /\ (lacks "]" inp = true ->
      fst (Uri.parse_hostport env (String "[" inp)) = Uri.UPNP_E_INVALID_URL).
Proof.
  split.
  - destruct (Uri.parse_hostport env inp) as [r hp] eqn:E.
    exact (parse_hostport_ok _ _ _ _ E).
  - intros Hl. unfold Uri.parse_hostport, upnp_strlcpy.
    rewrite str_substring_prefix. change (Z.to_nat (256 - 1)) with 255%nat.
    cbn [Uri.prefix Uri.starts_with Uri.str_tail].
    change (Ascii.eqb "[" "[") with true. cbv iota.
    rewrite str_span_all by (apply (lacks_prefix "]"); exact Hl).
    reflexivity.
Qed.

Lemma parse_uri_parts_witness :
  let out := snd (Uri.parse_uri net0 "http://192.168.1.1:8080/a/b?x=1#top" uri_empty) in
  exists auth tail,
    "http://192.168.1.1:8080/a/b?x=1#top"
    = (match Uri.type out with
       | Uri.URITP_ABSOLUTE => Uri.scheme out +:+ ":"
       | Uri.URITP_RELATIVE => ""
       end) +:+ auth +:+ tail
    /\ uri_tail uri_empty out tail.
Proof.
  intros out.
  destruct (parse_uri_parts net0 "http://192.168.1.1:8080/a/b?x=1#top"
              uri_empty out) as (auth & tail & H1 & _ & H2 & _).
  - vm_compute. reflexivity.
  - exists auth, tail. split; assumption.
Defined.

Lemma parse_hostport_result_witness :
  fst (Uri.parse_hostport net0 "[fe80::1") = Uri.UPNP_E_INVALID_URL
  /\ Uri.sin_port (Uri.IPaddress (snd (Uri.parse_hostport net0 "localhost/x")))
     = 80.
Proof.
  split.
  - apply (parse_hostport_result net0 "fe80::1"). reflexivity.
  - destruct (parse_hostport_result net0 "localhost/x")
      as [[H | (n & _ & _ & _ & _ & _ & H)] _].
    + vm_compute in H. discriminate H.
    + apply H. reflexivity.
Defined.

(** ** The thread pool *)

Section PoolProperties.

Context {double : Type} (dadd : double -> double -> double)
  (of_long : Z -> double).

Lemma bumped_low now (tp : (@ThreadPool.Internal double)) j low' tp' ms hs :
  ThreadPool.lowJobQ tp = j :: low' ->
  ThreadPool.maxIdleTime (ThreadPool.attr tp) <= ThreadPool.diffTime now j ->
  ThreadPool.bumped dadd of_long now
    (ThreadPool.set_queues tp low' (ThreadPool.medJobQ tp ++ [j])
       (ThreadPool.highJobQ tp)
       (ThreadPool.StatsAccountLQ dadd of_long (ThreadPool.stats tp)
          (ThreadPool.diffTime now j))) tp' ms hs ->
  ThreadPool.bumped dadd of_long now tp tp' (j :: ms) hs.
Proof.
  intros El Hidle. unfold ThreadPool.bumped.
  cbn [ThreadPool.set_queues ThreadPool.lowJobQ ThreadPool.medJobQ
         ThreadPool.highJobQ ThreadPool.attr ThreadPool.stats
         ThreadPool.persistentJob ThreadPool.shuttingdown
         ThreadPool.StatsAccountLQ
         ThreadPool.totalJobsLQ ThreadPool.totalJobsMQ
         ThreadPool.totalJobsHQ ThreadPool.totalTimeLQ
         ThreadPool.totalTimeMQ ThreadPool.totalTimeHQ].
  intros (H1 & H2 & H3 & H4 & H5 & H6 & H7 & H8 & H9 & H10 & H11 & H12
          & H13 & H14 & H15 & H16).
  rewrite El. cbn [length]. rewrite <- app_assoc in H2.
  repeat split; auto.
  - cbn [app]. now rewrite H1.
  - lia.
Qed.

Lemma bumped_med now (tp : (@ThreadPool.Internal double)) j med' tp' ms hs :
  ThreadPool.medJobQ tp = j :: med' ->
  ThreadPool.starvationTime (ThreadPool.attr tp)
  <= ThreadPool.diffTime now j ->
  ThreadPool.bumped dadd of_long now
    (ThreadPool.set_queues tp (ThreadPool.lowJobQ tp) med'
       (ThreadPool.highJobQ tp ++ [j])
       (ThreadPool.StatsAccountMQ dadd of_long (ThreadPool.stats tp)
          (ThreadPool.diffTime now j))) tp' ms hs ->
  ThreadPool.bumped dadd of_long now tp tp' ms (j :: hs).
Proof.
  intros Em Hstarved. unfold ThreadPool.bumped.
  cbn [ThreadPool.set_queues ThreadPool.lowJobQ ThreadPool.medJobQ
         ThreadPool.highJobQ ThreadPool.attr ThreadPool.stats
         ThreadPool.persistentJob ThreadPool.shuttingdown
         ThreadPool.StatsAccountMQ
         ThreadPool.totalJobsLQ ThreadPool.totalJobsMQ
         ThreadPool.totalJobsHQ ThreadPool.totalTimeLQ
         ThreadPool.totalTimeMQ ThreadPool.totalTimeHQ].
  intros (H1 & H2 & H3 & H4 & H5 & H6 & H7 & H8 & H9 & H10 & H11 & H12
          & H13 & H14 & H15 & H16).
  rewrite Em. cbn [length]. rewrite <- app_assoc in H3.
  repeat split; auto.
  - cbn [app]. now rewrite H2.
  - lia.
Qed.

Lemma bumped_done now (tp : (@ThreadPool.Internal double)) :
  match ThreadPool.medJobQ tp with
  | j :: _ => ThreadPool.diffTime now j
              < ThreadPool.starvationTime (ThreadPool.attr tp)
  | [] => True
  end ->
  match ThreadPool.lowJobQ tp with
  | j :: _ => ThreadPool.diffTime now j
              < ThreadPool.maxIdleTime (ThreadPool.attr tp)
  | [] => True
  end ->
  ThreadPool.bumped dadd of_long now tp tp [] [].
Proof.
  intros Hm Hl. unfold ThreadPool.bumped. rewrite !app_nil_r. cbn [length app].
  repeat split; auto; lia.
Qed.

Lemma bumpPriority_loop_bumped fuel now :
  forall tp : (@ThreadPool.Internal double),
    (2 * length (ThreadPool.lowJobQ tp) + length (ThreadPool.medJobQ tp)
     < fuel)%nat ->
    exists ms hs,
      ThreadPool.bumped dadd of_long now tp (ThreadPool.bumpPriority_loop dadd of_long fuel now tp)
        ms hs.
Proof.
  induction fuel as [|fuel IH]; intros tp Hf; [lia|].
  cbn [ThreadPool.bumpPriority_loop].
  assert (Hlow :
    (match ThreadPool.medJobQ tp with
     | j :: _ => ThreadPool.diffTime now j
                 < ThreadPool.starvationTime (ThreadPool.attr tp)
     | [] => True
     end) ->
    exists ms hs,
      ThreadPool.bumped dadd of_long now tp
        (match ThreadPool.lowJobQ tp with
         | tempJob :: low' =>
             if ThreadPool.maxIdleTime (ThreadPool.attr tp)
                <=? ThreadPool.diffTime now tempJob
             then ThreadPool.bumpPriority_loop dadd of_long fuel now
                    (ThreadPool.set_queues tp low'
                       (ThreadPool.medJobQ tp ++ [tempJob])
                       (ThreadPool.highJobQ tp)
                       (ThreadPool.StatsAccountLQ dadd of_long
                          (ThreadPool.stats tp)
                          (ThreadPool.diffTime now tempJob)))
             else tp
         | [] => tp
         end) ms hs).
  { intros Hmed.
    destruct (ThreadPool.lowJobQ tp) as [|j low'] eqn:El.
    - exists [], []. apply bumped_done; [exact Hmed | now rewrite El].
    - destruct (Z.leb_spec (ThreadPool.maxIdleTime (ThreadPool.attr tp))
                  (ThreadPool.diffTime now j)) as [Hidle | Hfresh].
      + destruct (IH (ThreadPool.set_queues tp low'
                        (ThreadPool.medJobQ tp ++ [j])
                        (ThreadPool.highJobQ tp)
                        (ThreadPool.StatsAccountLQ dadd of_long
                           (ThreadPool.stats tp)
                           (ThreadPool.diffTime now j))))
          as (ms & hs & H).
        * cbn [ThreadPool.set_queues ThreadPool.lowJobQ ThreadPool.medJobQ].
          rewrite ?El in Hf. cbn [length] in Hf. rewrite length_app.
          cbn [length]. lia.
        * exists (j :: ms), hs. now apply bumped_low with (low' := low').
      + exists [], []. apply bumped_done; [exact Hmed | now rewrite El]. }
  destruct (ThreadPool.medJobQ tp) as [|j med'] eqn:Em.
  - apply Hlow. exact I.
  - destruct (Z.leb_spec (ThreadPool.starvationTime (ThreadPool.attr tp))
                (ThreadPool.diffTime now j)) as [Hstarved | Hfresh].
    + destruct (IH (ThreadPool.set_queues tp (ThreadPool.lowJobQ tp) med'
                      (ThreadPool.highJobQ tp ++ [j])
                      (ThreadPool.StatsAccountMQ dadd of_long
                         (ThreadPool.stats tp)
                         (ThreadPool.diffTime now j))))
        as (ms & hs & H).
      * cbn [ThreadPool.set_queues ThreadPool.lowJobQ ThreadPool.medJobQ].
        rewrite ?Em in Hf. cbn [length] in Hf. lia.
      * exists ms, (j :: hs). now apply bumped_med with (med' := med').
    + apply Hlow. exact Hfresh.
Qed.

(** X22: [bumpPriority] only moves jobs forward and keeps their order:
    the jobs that leave the low queue are its first ones and join the
    end of the middle queue, those that leave the middle queue are the
    first of what it then holds and join the end of the high queue; no
    job is lost or copied.  Every job moved had waited its time, and
    afterwards the first job of the middle queue has waited less than
    [starvationTime], the first of the low queue less than
    [maxIdleTime].  The counters grow by the number of jobs moved. *)
Theorem bumpPriority_moves_forward (now : Z) (tp : (@ThreadPool.Internal double)) :
  exists ms hs,
    ThreadPool.bumped dadd of_long now tp (ThreadPool.bumpPriority dadd of_long now tp) ms hs.
Proof.
  unfold ThreadPool.bumpPriority. apply bumpPriority_loop_bumped. lia.
Qed.

(** X23: ageing: when every job of the low queue has waited both
    [maxIdleTime] and [starvationTime], and every job of the middle
    queue [starvationTime], [bumpPriority] empties both queues into the
    high queue, behind the jobs it held: first those of the middle
    queue, then those of the low queue, in their order. *)
Theorem bumpPriority_all_starved (now : Z) (tp : (@ThreadPool.Internal double)) :
  Forall (fun j => ThreadPool.maxIdleTime (ThreadPool.attr tp)
                   <= ThreadPool.diffTime now j
                   /\ ThreadPool.starvationTime (ThreadPool.attr tp)
                      <= ThreadPool.diffTime now j)
    (ThreadPool.lowJobQ tp) ->
  Forall (fun j => ThreadPool.starvationTime (ThreadPool.attr tp)
                   <= ThreadPool.diffTime now j)
    (ThreadPool.medJobQ tp) ->
  ThreadPool.lowJobQ (ThreadPool.bumpPriority dadd of_long now tp) = []
  /\ ThreadPool.medJobQ (ThreadPool.bumpPriority dadd of_long now tp) = []
  /\ ThreadPool.highJobQ (ThreadPool.bumpPriority dadd of_long now tp)
     = ThreadPool.highJobQ tp ++ ThreadPool.medJobQ tp
       ++ ThreadPool.lowJobQ tp.
Proof.
  intros Hlow Hmed.
  destruct (bumpPriority_loop_bumped
              (S (2 * length (ThreadPool.lowJobQ tp)
                  + length (ThreadPool.medJobQ tp))) now tp ltac:(lia))
    as (ms & hs & H).
  fold (ThreadPool.bumpPriority dadd of_long now tp) in H.
  destruct H as (H1 & H2 & H3 & _ & _ & H6 & H7 & _).
  set (tp' := ThreadPool.bumpPriority dadd of_long now tp) in *.
  assert (ThreadPool.lowJobQ tp' = []) as El.
  { destruct (ThreadPool.lowJobQ tp') as [|j l]; [reflexivity|].
    rewrite H1 in Hlow. apply Forall_app in Hlow as [_ Hlow].
    apply Forall_cons_iff in Hlow as [[Hj _] _]. lia. }
  assert (ThreadPool.medJobQ tp' = []) as Em.
  { destruct (ThreadPool.medJobQ tp') as [|j m]; [reflexivity|].
    assert (Forall (fun j => ThreadPool.starvationTime (ThreadPool.attr tp)
                             <= ThreadPool.diffTime now j)
              (hs ++ j :: m)) as Hall.
    { rewrite <- H2. apply Forall_app. split; [exact Hmed|].
      rewrite H1 in Hlow. apply Forall_app in Hlow as [Hms _].
      eapply Forall_impl; [exact Hms|]. cbn beta. intros a [_ Ha]. exact Ha. }
    apply Forall_app in Hall as [_ Hall].
    apply Forall_cons_iff in Hall as [Hj _]. lia. }
  rewrite El, Em, H3. repeat split.
  rewrite El, app_nil_r in H1. rewrite Em, app_nil_r in H2.
  now rewrite <- H2, <- H1.
Qed.

End PoolProperties.

Lemma bumpPriority_all_starved_witness :
  ThreadPool.highJobQ
    (ThreadPool.bumpPriority Z.add (fun z => z) 20000000000 pool0)
  = [job_at 2 0 ThreadPool.HIGH_PRIORITY; job_at 1 0 ThreadPool.MED_PRIORITY;
     job_at 0 0 ThreadPool.LOW_PRIORITY].
Proof.
  apply (bumpPriority_all_starved Z.add (fun z => z) 20000000000 pool0).
  - repeat constructor; vm_compute; discriminate.
  - repeat constructor; vm_compute; discriminate.
Defined.

(** ** Small utilities *)

Lemma length_insert_front n ch s :
  String.length (insert_front n ch s) = (n + String.length s)%nat.
Proof. induction n as [|n IH]; cbn [insert_front String.length Nat.add]; lia. Qed.

Lemma scan_digits_insert_zeros n acc s :
  acc = 0 -> scan_digits acc (insert_front n "0" s) = scan_digits 0 s.
Proof.
  intros ->. induction n as [|n IH]; [reflexivity|].
  cbn [insert_front scan_digits]. change (isdigit "0") with true.
  cbv iota. exact IH.
Qed.

Lemma all_digits_insert_zeros n s :
  all_digits (insert_front n "0" s) = all_digits s.
Proof. induction n as [|n IH]; [reflexivity|]. cbn [insert_front all_digits]. exact IH. Qed.

Lemma leftzeropad_facts (s : string) (len : nat) :
  leftzeropad "" len = ""
  /\ (s <> "" ->
      String.length (leftzeropad s len) = Nat.max (String.length s) len)
  /\ leftzeropad (leftzeropad s len) len = leftzeropad s len
  /\ all_digits (leftzeropad s len) = all_digits s
  /\ (nonneg_decimal s = true ->
      sscanf_d_1c (leftzeropad s len) = sscanf_d_1c s).
Proof.
  split; [reflexivity|].
  unfold leftzeropad.
  destruct (Nat.eqb_spec (String.length s) 0) as [H0 | Hn0]; cbn [negb andb].
  { destruct s; [|discriminate H0]. repeat split; auto. congruence. }
  destruct (Nat.ltb_spec (String.length s) len) as [Hlt | Hge].
  - split; [|split; [|split]].
    + intros _. rewrite length_insert_front. lia.
    + rewrite length_insert_front.
      replace (Nat.eqb (len - String.length s + String.length s) 0) with false
        by (symmetry; apply Nat.eqb_neq; lia).
      replace (len - String.length s + String.length s <? len)%nat with false
        by (symmetry; apply Nat.ltb_ge; lia).
      reflexivity.
    + apply all_digits_insert_zeros.
    + intros Hd. unfold nonneg_decimal in Hd.
      apply andb_true_iff in Hd as [_ Hd].
      destruct (len - String.length s)%nat as [|k] eqn:Ek; [lia|].
      destruct s as [|d s']; [cbn in Hn0; lia|].
      pose proof Hd as Hd'. cbn [all_digits] in Hd'.
      apply andb_true_iff in Hd' as [Hd0 _].
      unfold sscanf_d_1c. cbn [insert_front skip_space].
      change (isspace "0") with false. cbv iota.
      change (Ascii.eqb "0" "-") with false.
      change (Ascii.eqb "0" "+") with false. cbv iota.
      rewrite (isdigit_not_space _ Hd0).
      destruct (isdigit_not_sign _ Hd0) as [-> ->].
      unfold scan_number. change (isdigit "0") with true. rewrite Hd0.
      cbv iota.
      change (String "0" (insert_front k "0" (String d s')))
        with (insert_front (S k) "0" (String d s')).
      rewrite scan_digits_insert_zeros by reflexivity. reflexivity.
  - split; [|split; [|split]]; auto.
    + intros _. lia.
    + replace (Nat.eqb (String.length s) 0) with false
        by (symmetry; now apply Nat.eqb_neq).
      replace (String.length s <? len)%nat with false
        by (symmetry; now apply Nat.ltb_ge).
      reflexivity.
Qed.

Lemma leftzeropad_unchanged (s : string) (len : nat) :
  (len <= String.length s)%nat -> leftzeropad s len = s.
Proof.
  intros H. unfold leftzeropad.
  replace (String.length s <? len)%nat with false
    by (symmetry; now apply Nat.ltb_ge).
  now rewrite andb_false_r.
Qed.

Lemma leftzeropad_shorter (s : string) (len : nat) :
  s <> "" -> (String.length s < len)%nat ->
  leftzeropad s len = insert_front (len - String.length s) "0" s.
Proof.
  intros Hs H. unfold leftzeropad.
  replace (String.length s <? len)%nat with true
    by (symmetry; now apply Nat.ltb_lt).
  destruct s; [congruence | reflexivity].
Qed.

(** X24: [leftzeropad] leaves the empty string empty; any other string
    comes out [len] characters long when it was shorter ([len] minus its
    length characters '0' are put in front of it) and unchanged
    otherwise.  Padding is idempotent, keeps a string of digits a string
    of digits, and does not change the number [sscanf] reads from it. *)
Theorem leftzeropad_spec (s : string) (len : nat) :
  leftzeropad "" len = ""
  /\ (s <> "" ->
      String.length (leftzeropad s len) = Nat.max (String.length s) len)
  /\ leftzeropad (leftzeropad s len) len = leftzeropad s len
  /\ all_digits (leftzeropad s len) = all_digits s
  /\ (nonneg_decimal s = true ->
      sscanf_d_1c (leftzeropad s len) = sscanf_d_1c s)
  /\ ((len <= String.length s)%nat -> leftzeropad s len = s)
  /\ (s <> "" -> (String.length s < len)%nat ->
      leftzeropad s len = insert_front (len - String.length s) "0" s).
Proof.
  destruct (leftzeropad_facts s len) as (H1 & H2 & H3 & H4 & H5).
  repeat split; auto using leftzeropad_unchanged, leftzeropad_shorter.
Qed.

Lemma leftzeropad_spec_witness :
  String.length (leftzeropad "7" 3) = 3%nat
  /\ sscanf_d_1c (leftzeropad "42" 5) = sscanf_d_1c "42"
  /\ leftzeropad "2024" 2 = "2024"
  /\ leftzeropad "7" 3 = "007".
Proof.
  split; [|split; [|split]].
  - destruct (leftzeropad_spec "7" 3) as (_ & H & _). apply H. discriminate.
  - destruct (leftzeropad_spec "42" 5) as (_ & _ & _ & _ & H & _). apply H.
    reflexivity.
  - destruct (leftzeropad_spec "2024" 2) as (_ & _ & _ & _ & _ & H & _).
    apply H. cbn. lia.
  - destruct (leftzeropad_spec "7" 3) as (_ & _ & _ & _ & _ & _ & H).
    rewrite H; [reflexivity | discriminate | cbn; lia].
Defined.

Lemma VERSION_AT_LEAST_iff a b c x y z :
  VERSION_AT_LEAST a b c x y z = true
  <-> x < a \/ (a = x /\ (y < b \/ (b = y /\ z <= c))).
Proof.
  unfold VERSION_AT_LEAST.
  rewrite !orb_true_iff, !andb_true_iff, !orb_true_iff, !andb_true_iff.
  rewrite !Z.ltb_lt, !Z.eqb_eq, Z.leb_le. reflexivity.
Qed.

(** X25: [VERSION_AT_LEAST] compares versions in lexicographic order:
    it is reflexive, transitive and total, and two versions at least
    each other are the same. *)
Theorem VERSION_AT_LEAST_order (a b c x y z u v w : Z) :
  VERSION_AT_LEAST a b c a b c = true
  /\ (VERSION_AT_LEAST a b c x y z = true ->
      VERSION_AT_LEAST x y z u v w = true ->
      VERSION_AT_LEAST a b c u v w = true)
  /\ (VERSION_AT_LEAST a b c x y z = true
      \/ VERSION_AT_LEAST x y z a b c = true)
  /\ (VERSION_AT_LEAST a b c x y z = true ->
      VERSION_AT_LEAST x y z a b c = true ->
      (a, b, c) = (x, y, z)).
Proof.
  rewrite !VERSION_AT_LEAST_iff. repeat split; try lia.
  intros H1 H2. assert (a = x /\ b = y /\ c = z) as (-> & -> & ->) by lia.
  reflexivity.
Qed.

Lemma VERSION_AT_LEAST_order_witness :
  VERSION_AT_LEAST 2 1 0 1 9 9 = true /\ (2, 1, 0) = (2, 1, 0).
Proof.
  split.
  - destruct (VERSION_AT_LEAST_order 2 1 0 2 0 5 1 9 9) as (_ & H & _).
    apply H; reflexivity.
  - destruct (VERSION_AT_LEAST_order 2 1 0 2 1 0 0 0 0) as (_ & _ & _ & H).
    apply H; reflexivity.
Defined.

(** ** The callback URL, parsed back *)

Lemma parse_scheme_accepts sch rest :
  Uri.valid_scheme sch = true ->
  Uri.parse_scheme (sch +:+ String ":" rest) = (String.length sch, sch).
Proof.
  intros Hv. unfold Uri.valid_scheme in Hv.
  destruct sch as [|c0 sch']; [discriminate|].
  apply andb_true_iff in Hv as [Ha Hall].
  unfold Uri.parse_scheme. rewrite append_cons, Ha. cbn [negb].
  rewrite <- append_cons.
  rewrite str_find_app
    by (eapply all_chars_impl; [apply scheme_char_not_colon | exact Hall]).
  unfold Uri.substr. cbn [Uri.substr_from]. rewrite str_prefix_app, Hall.
  reflexivity.
Qed.

Lemma scan_digits_uint_acc_app d acc t :
  scan_digits (Z.pos acc) (NilEmpty.string_of_uint d +:+ t)
  = scan_digits (Z.pos (Pos.of_uint_acc d acc)) t.
Proof.
  revert acc. induction d; intros acc; cbn [NilEmpty.string_of_uint];
    [now rewrite append_empty | ..];
    rewrite append_cons;
    cbn [scan_digits Pos.of_uint_acc]; change (isdigit _) with true; cbv iota;
    match goal with
    | |- scan_digits ?a _ = scan_digits (Z.pos (Pos.of_uint_acc _ ?p)) _ =>
        replace a with (Z.pos p)
          by (unfold digit_value;
              match goal with
              | |- context [Z.of_nat ?n] =>
                  let v := eval vm_compute in (Z.of_nat n) in
                  change (Z.of_nat n) with v
              end; lia)
    end; apply IHd.
Qed.

Lemma scan_digits_uint_app d t :
  scan_digits 0 (NilEmpty.string_of_uint d +:+ t)
  = scan_digits (Z.of_N (Pos.of_uint d)) t.
Proof.
  induction d; cbn [NilEmpty.string_of_uint Pos.of_uint];
    [now rewrite append_empty | ..];
    rewrite append_cons;
    cbn [scan_digits]; change (isdigit _) with true; cbv iota;
    [exact IHd | ..];
    match goal with
    | |- scan_digits ?a _ = scan_digits (Z.of_N (N.pos (Pos.of_uint_acc _ ?p))) _ =>
        change a with (Z.pos p)
    end; apply scan_digits_uint_acc_app.
Qed.

Lemma all_digits_all_chars s : all_digits s = Uri.all_chars isdigit s.
Proof. induction s as [|c s IH]; [reflexivity|]. cbn. now rewrite IH. Qed.

(** A port number in decimal, and what the parser reads from it. *)
Lemma decimal_port p t :
  1 <= p <= 65535 ->
  Uri.starts_with "/" t = true ->
  exists d ds,
    decimal p = String d ds /\ isdigit d = true
    /\ all_digits (decimal p) = true
    /\ Uri.atoi (decimal p +:+ t) mod 65536 = p
    /\ Uri.span isdigit (decimal p +:+ t) = (decimal p, t).
Proof.
  intros Hp Ht. destruct p as [|q|q]; try lia.
  unfold decimal. cbn [Z.to_int NilZero.string_of_int].
  pose proof (Unsigned.of_to q) as Hq.
  pose proof (scan_digits_uint_app (Pos.to_uint q) t) as Hs.
  pose proof (all_digits_of_uint (Pos.to_uint q)) as Ha.
  rewrite Hq in Hs. cbn [Z.of_N] in Hs.
  assert (NilZero.string_of_uint (Pos.to_uint q)
          = NilEmpty.string_of_uint (Pos.to_uint q)) as E
    by (destruct (Pos.to_uint q); [discriminate Hq | reflexivity ..]).
  rewrite E.
  destruct (NilEmpty.string_of_uint (Pos.to_uint q)) as [|d ds] eqn:Es.
  { destruct (Pos.to_uint q); discriminate. }
  pose proof Ha as Ha'. cbn [all_digits] in Ha'.
  apply andb_true_iff in Ha' as [Hd _].
  exists d, ds. split; [reflexivity|]. split; [exact Hd|].
  split; [exact Ha|]. split.
  - unfold Uri.atoi. rewrite append_cons. cbn [skip_space].
    rewrite (isdigit_not_space _ Hd).
    destruct (isdigit_not_sign _ Hd) as [-> ->].
    rewrite <- append_cons, Hs.
    destruct t as [|c t']; [discriminate Ht|].
    cbn [Uri.starts_with] in Ht. apply Ascii.eqb_eq in Ht. subst c.
    cbn [scan_digits]. change (isdigit "/") with false. cbv iota.
    cbn [fst]. rewrite Z.min_r, Z.max_r by lia.
    rewrite wrap_int_small by lia. apply Z.mod_small. lia.
  - destruct t as [|c t']; [discriminate Ht|].
    cbn [Uri.starts_with] in Ht. apply Ascii.eqb_eq in Ht. subst c.
    rewrite all_digits_all_chars in Ha. clear - Ha.
    induction (String d ds) as [|x s IH].
    + reflexivity.
    + cbn [Uri.all_chars] in Ha. apply andb_true_iff in Ha as [Hx Hs].
      rewrite append_cons. cbn [Uri.span]. rewrite Hx, (IH Hs). reflexivity.
Qed.

Lemma str_prefix_all s n :
  (String.length s <= n)%nat -> Uri.prefix s n = s.
Proof.
  revert n. induction s as [|c s IH]; intros n; [now destruct n|].
  cbn [String.length]. destruct n; [lia|]. intros H. cbn [Uri.prefix].
  rewrite IH by lia. reflexivity.
Qed.

Lemma str_span_stop p s c t :
  Uri.all_chars p s = true -> p c = false ->
  Uri.span p (s +:+ String c t) = (s, String c t).
Proof.
  intros Hs Hc. induction s as [|x s IH].
  - rewrite append_empty. cbn [Uri.span]. now rewrite Hc.
  - cbn [Uri.all_chars] in Hs. apply andb_true_iff in Hs as [Hx Hs].
    rewrite append_cons. cbn [Uri.span]. now rewrite Hx, (IH Hs).
Qed.

Lemma c_str_all s : lacks "000" s = true -> Uri.c_str s = s.
Proof. intros H. unfold Uri.c_str. now rewrite str_span_all. Qed.

Lemma substr_from_length s : Uri.substr_from s (String.length s) = "".
Proof. induction s as [|c s IH]; [reflexivity | exact IH]. Qed.

(** The second half of [parse_hostport] on a port written in decimal
    and followed by the path. *)
Lemma parse_hostport_port_decimal env inp out af srvname c p t :
  1 <= p <= 65535 ->
  Uri.starts_with "/" t = true ->
  Uri.parse_hostport_port env inp out af srvname true c (decimal p +:+ t)
  = let n := (c + String.length (decimal p))%nat in
    let ip := Uri.IPaddress out in
    let '(ret, ip') :=
      match af with
      | Uri.AF_INET =>
          let '(r, a) := Uri.inet_pton env Uri.AF_INET srvname in
          (r, {| Uri.ss_family := Uri.AF_INET; Uri.sin_port := p;
                 Uri.sin_addr := if r =? 1 then a else Uri.sin_addr ip;
                 Uri.sin6_scope_id := Uri.sin6_scope_id ip |})
      | Uri.AF_INET6 =>
          let '(r, a) := Uri.inet_pton env Uri.AF_INET6 srvname in
          (r, {| Uri.ss_family := Uri.AF_INET6; Uri.sin_port := p;
                 Uri.sin_addr := if r =? 1 then a else Uri.sin_addr ip;
                 Uri.sin6_scope_id := Uri.gIF_INDEX env |})
      | _ =>
          (1, {| Uri.ss_family := Uri.ss_family ip; Uri.sin_port := p;
                 Uri.sin_addr := Uri.sin_addr ip;
                 Uri.sin6_scope_id := Uri.sin6_scope_id ip |})
      end in
    if ret <=? 0
    then (Uri.UPNP_E_INVALID_URL,
          {| Uri.text := Uri.text out; Uri.IPaddress := ip' |})
    else (Z.of_nat n, {| Uri.text := Uri.prefix inp n; Uri.IPaddress := ip' |}).
Proof.
  intros Hp Ht.
  destruct (decimal_port p t Hp Ht) as (d & ds & _ & _ & _ & Hatoi & Hspan).
  unfold Uri.parse_hostport_port. rewrite Hatoi, Hspan. cbn [fst andb].
  replace (p =? 0) with false by (symmetry; apply Z.eqb_neq; lia).
  reflexivity.
Qed.

(** X26: the callback URL of the CALLBACK header, as [gena_subscribe]
    writes it, is a URL that [parse_uri] accepts: an absolute "http"
    URI whose host and port text is the local address (in brackets for
    IPv6) and the local port, with that port in the socket address, and
    whose path is "/".  The address has to be one [inet_pton] accepts
    and short enough for the 255 characters the parser works on. *)
Theorem callback_url_parses (cfg : Config) (env : Uri.NetEnv)
    (netaddr : IPAddr) (out0 : Uri.uri_type) (addr : string) :
  let port := match family netaddr with
              | IPV6 => LOCAL_PORT_V6 cfg
              | IPV4 => LOCAL_PORT_V4 cfg
              end in
  let af := match family netaddr with
            | IPV6 => Uri.AF_INET6
            | IPV4 => Uri.AF_INET
            end in
  1 <= port <= 65535 ->
  (String.length (myCallbackUrl cfg netaddr) <= 261)%nat ->
  Uri.inet_pton env af (straddr netaddr) = (1, addr) ->
  match family netaddr with
  | IPV6 => lacks "]" (straddr netaddr) = true
            /\ lacks "000" (straddr netaddr) = true
  | IPV4 => Uri.all_chars Uri.host_char (straddr netaddr) = true
            /\ Uri.looks_numeric (straddr netaddr) = true
  end ->
  Uri.parse_uri env (myCallbackUrl cfg netaddr +:+ "/") out0
  = (UPNP_E_SUCCESS,
     {| Uri.type := Uri.URITP_ABSOLUTE; Uri.path_type := Uri.ABS_PATH;
        Uri.scheme := "http";
        Uri.hostport :=
          {| Uri.text :=
               (match family netaddr with
                | IPV6 => "[" +:+ straddr netaddr +:+ "]"
                | IPV4 => straddr netaddr
                end) +:+ ":" +:+ decimal port;
             Uri.IPaddress :=
               {| Uri.ss_family := af; Uri.sin_port := port;
                  Uri.sin_addr := addr;
                  Uri.sin6_scope_id :=
                    match family netaddr with
                    | IPV6 => Uri.gIF_INDEX env
                    | IPV4 => 0
                    end |} |};
        Uri.path := "/"; Uri.query := Uri.query out0;
        Uri.fragment := Uri.fragment out0 |}).
Proof.
  intros port af Hport Hlen Hpton Haddr.
  destruct (decimal_port port "/" Hport eq_refl)
    as (d & ds & Edec & Hd & Hdigits & _ & _).
  set (a := straddr netaddr) in *.
  set (H := (match family netaddr with
             | IPV6 => "[" +:+ a +:+ "]"
             | IPV4 => a
             end) +:+ ":" +:+ decimal port).
  assert (Hurl : myCallbackUrl cfg netaddr = "http://" +:+ H).
  { unfold myCallbackUrl, H. fold a. fold port.
    destruct (family netaddr); now rewrite ?append_assoc, ?append_empty. }
  rewrite Hurl in *. clear Hurl.
  assert (HlenH : (String.length H + 1 <= 255)%nat).
  { rewrite !append_cons, append_empty in Hlen. cbn [String.length] in Hlen.
    lia. }
  assert (Hnul_digits : lacks "000" (decimal port) = true).
  { rewrite all_digits_all_chars in Hdigits.
    eapply all_chars_impl; [|exact Hdigits].
    intros c Hc. destruct (Ascii.eqb_spec c "000") as [-> | _];
      [discriminate Hc | reflexivity]. }
  assert (HnulH : lacks "000" (H +:+ "/") = true).
  { unfold H. destruct (family netaddr).
    - destruct Haddr as [Hhost _].
      rewrite !lacks_app, Hnul_digits.
      replace (lacks "000" a) with true; [reflexivity|]. symmetry.
      eapply all_chars_impl; [|exact Hhost].
      intros c Hc. destruct (Ascii.eqb_spec c "000") as [-> | _];
        [discriminate Hc | reflexivity].
    - destruct Haddr as [_ Hnul].
      rewrite !lacks_app, Hnul_digits, Hnul. reflexivity. }
  (* the host and port *)
  assert (Hhp : Uri.parse_hostport env (H +:+ "/")
                = (Z.of_nat (String.length H),
                   {| Uri.text := H;
                      Uri.IPaddress :=
                        {| Uri.ss_family := af; Uri.sin_port := port;
                           Uri.sin_addr := addr;
                           Uri.sin6_scope_id :=
                             match family netaddr with
                             | IPV6 => Uri.gIF_INDEX env
                             | IPV4 => 0
                             end |} |})).
  { unfold Uri.parse_hostport, upnp_strlcpy.
    rewrite str_substring_prefix. change (Z.to_nat (256 - 1)) with 255%nat.
    rewrite str_prefix_all
      by (rewrite str_length_app; cbn [String.length]; lia).
    unfold H, af in *. destruct (family netaddr).
    - destruct Haddr as [Hhost Hnum].
      assert (Uri.starts_with "[" ((a +:+ ":" +:+ decimal port) +:+ "/")
              = false) as ->.
      { destruct a as [|c a'].
        - reflexivity.
        - rewrite !append_cons. cbn [Uri.starts_with].
          cbn [Uri.all_chars] in Hhost.
          apply andb_true_iff in Hhost as [Hc _].
          destruct (Ascii.eqb_spec c "[") as [-> | _];
            [discriminate Hc | reflexivity]. }
      rewrite !append_assoc, append_cons.
      rewrite str_span_stop by (exact Hhost || reflexivity).
      cbn [Uri.starts_with Uri.str_tail]. change (Ascii.eqb ":" ":") with true.
      cbv iota. rewrite Hnum, !append_empty.
      rewrite parse_hostport_port_decimal by (exact Hport || reflexivity).
      cbv zeta. rewrite Hpton.
      change (1 <=? 0) with false. change (1 =? 1) with true. cbv iota.
      cbn [Uri.IPaddress Uri.hostport_empty Uri.sin6_scope_id].
      rewrite <- Nat.add_assoc.
      change (1 + String.length (decimal port))%nat
        with (String.length (":" +:+ decimal port)).
      rewrite <- str_length_app.
      replace (a +:+ String ":" (decimal port +:+ "/"))
        with ((a +:+ ":" +:+ decimal port) +:+ "/")
        by now rewrite !append_assoc.
      rewrite str_prefix_app. reflexivity.
    - destruct Haddr as [Hbr Hnul].
      rewrite !append_assoc, !append_cons, !append_empty.
      cbn [Uri.starts_with Uri.str_tail]. change (Ascii.eqb "[" "[") with true.
      cbv iota.
      rewrite str_span_stop by (exact Hbr || reflexivity).
      cbn [Uri.starts_with Uri.str_tail]. change (Ascii.eqb ":" ":") with true.
      cbv iota.
      rewrite parse_hostport_port_decimal by (exact Hport || reflexivity).
      cbv zeta. rewrite Hpton.
      change (1 <=? 0) with false. change (1 =? 1) with true. cbv iota.
      assert ((1 + String.length a + 1 + 1 + String.length (decimal port))%nat
              = String.length
                  (String "[" (a +:+ String "]" (String ":" (decimal port)))))
        as ->.
      { cbn [String.length]. rewrite str_length_app. cbn [String.length]. lia. }
      replace (String "[" (a +:+ String "]" (String ":" (decimal port +:+ "/"))))
        with (String "[" (a +:+ String "]" (String ":" (decimal port)))
              +:+ "/")
        by now rewrite append_cons, !append_assoc.
      rewrite str_prefix_app. reflexivity. }

  (* the whole URI *)
  unfold Uri.parse_uri.
  replace (("http://" +:+ H) +:+ "/")
    with ("http" +:+ String ":" (String "/" (String "/" (H +:+ "/"))))
    by now rewrite !append_cons, !append_empty.
  rewrite parse_scheme_accepts by reflexivity.
  rewrite !append_cons, append_empty.
  cbn [String.length Nat.eqb negb Nat.add Nat.ltb Nat.leb Uri.nth_char
         String.get].
  change (Ascii.eqb "/" "/") with true. cbn [andb Uri.substr_from].
  rewrite c_str_all by exact HnulH. rewrite Hhp.
  replace (0 <=? Z.of_nat (String.length H)) with true
    by (symmetry; apply Z.leb_le; lia).
  rewrite Nat2Z.id. f_equal.
  unfold Uri.parse_uri_path.
  rewrite (str_find_from "?" _ (String.length H + 7)),
    (str_find_from "#" _ (String.length H + 7)).
  assert (Uri.substr_from
            (String "h" (String "t" (String "t" (String "p" (String ":"
               (String "/" (String "/" (H +:+ "/"))))))))
            (String.length H + 7) = "/") as Hrest.
  { replace (String.length H + 7)%nat
      with (S (S (S (S (S (S (S (String.length H)))))))) by lia.
    cbn [Uri.substr_from]. apply substr_from_app. }
  rewrite Hrest. reflexivity.
Qed.

Lemma callback_url_parses_witness :
  Uri.path (snd (Uri.parse_uri net0
                   (myCallbackUrl cfg0 {| family := IPV6; straddr := "fe80::1" |}
                    +:+ "/") uri_empty)) = "/"
  /\ Uri.text (Uri.hostport
                 (snd (Uri.parse_uri net0
                         (myCallbackUrl cfg0
                            {| family := IPV4; straddr := "10.0.0.2" |}
                          +:+ "/") uri_empty)))
     = "10.0.0.2:49152".
Proof.
  split.
  - rewrite (callback_url_parses cfg0 net0
               {| family := IPV6; straddr := "fe80::1" |} uri_empty "fe80::1");
      [reflexivity | cbn; lia | vm_compute; lia | reflexivity
      | split; reflexivity].
  - rewrite (callback_url_parses cfg0 net0
               {| family := IPV4; straddr := "10.0.0.2" |} uri_empty "10.0.0.2");
      [reflexivity | cbn; lia | vm_compute; lia | reflexivity
      | split; reflexivity].
Defined.

(** ** The parser as a whole *)

(** Where [parse_uri] succeeds, the output comes from its last part. *)
Lemma parse_uri_cases env inp out0 :
  (exists bp out1,
      Uri.parse_uri env inp out0
      = (UPNP_E_SUCCESS, Uri.parse_uri_path inp bp out1))
  \/ (fst (Uri.parse_uri env inp out0) = Uri.UPNP_E_INVALID_URL
      /\ exists bh,
          (bh + 1 < String.length inp)%nat
          /\ Uri.substr inp bh 2 = "//"
          /\ fst (Uri.parse_hostport env
                    (Uri.c_str (Uri.substr_from inp (bh + 2))))
             = Uri.UPNP_E_INVALID_URL).
Proof.
  unfold Uri.parse_uri.
  destruct (Uri.parse_scheme inp) as [n sch].
  set (bh := if negb (Nat.eqb n 0) then S n else n).
  destruct ((bh + 1 <? String.length inp)%nat
            && Ascii.eqb (Uri.nth_char inp bh) "/"
            && Ascii.eqb (Uri.nth_char inp (bh + 1)) "/") eqn:Eauth.
  - apply andb_true_iff in Eauth as [[Hlt H1]%andb_true_iff H2].
    apply Nat.ltb_lt in Hlt. apply Ascii.eqb_eq in H1, H2.
    destruct (Uri.parse_hostport env _) as [bp hp] eqn:Ehp.
    destruct (parse_hostport_ok _ _ _ _ Ehp) as [-> | (k & -> & _)].
    + right. split; [reflexivity|]. exists bh. rewrite Ehp.
      split; [exact Hlt|]. split; [|reflexivity].
      unfold Uri.substr. rewrite substr_from_cons by lia. rewrite H1.
      replace (S bh) with (bh + 1)%nat by lia.
      rewrite substr_from_cons by lia. rewrite H2. cbn [Uri.prefix].
      now destruct (Uri.substr_from inp (S (bh + 1))).
    + left. replace (0 <=? Z.of_nat k) with true
        by (symmetry; apply Z.leb_le; lia).
      eauto.
  - left. eauto.
Qed.

Lemma substr_two inp bh :
  (bh + 1 < String.length inp)%nat ->
  Uri.substr inp bh 2
  = String (Uri.nth_char inp bh) (String (Uri.nth_char inp (bh + 1)) "").
Proof.
  intros H. unfold Uri.substr. rewrite substr_from_cons by lia.
  replace (S bh) with (bh + 1)%nat by lia.
  rewrite substr_from_cons by lia. cbn [Uri.prefix].
  now destruct (Uri.substr_from inp (S (bh + 1))).
Qed.

(** The return value of [parse_uri], read off its two exits. *)
Lemma parse_uri_fst env inp out0 :
  fst (Uri.parse_uri env inp out0)
  = let n := fst (Uri.parse_scheme inp) in
    let bh := if Nat.eqb n 0 then O else S n in
    if (bh + 1 <? String.length inp)%nat
       && Ascii.eqb (Uri.nth_char inp bh) "/"
       && Ascii.eqb (Uri.nth_char inp (bh + 1)) "/"
    then
      let r := fst (Uri.parse_hostport env
                      (Uri.c_str (Uri.substr_from inp (bh + 2)))) in
      if 0 <=? r then UPNP_E_SUCCESS else r
    else UPNP_E_SUCCESS.
Proof.
  unfold Uri.parse_uri. destruct (Uri.parse_scheme inp) as [n sch].
  cbn [fst]. cbv zeta.
  assert ((if negb (Nat.eqb n 0) then S n else n)
          = (if Nat.eqb n 0 then O else S n)) as ->
    by (destruct (Nat.eqb_spec n 0); [subst; reflexivity | reflexivity]).
  destruct (_ && _ && _); [|reflexivity].
  destruct (Uri.parse_hostport env _) as [r hp]. cbn [fst].
  destruct (0 <=? r); reflexivity.
Qed.

(** X27: [parse_uri] returns success or [UPNP_E_INVALID_URL], nothing
    else.  It fails exactly when the input has "//" right after the
    scheme and its colon (at its head when there is no scheme) and
    [parse_hostport] refuses what follows these two characters: a
    reference without authority always parses. *)
Theorem parse_uri_codes (env : Uri.NetEnv) (inp : string)
    (out0 : Uri.uri_type) :
  let n := fst (Uri.parse_scheme inp) in
  let bh := if Nat.eqb n 0 then O else S n in
  let authority :=
    (bh + 1 < String.length inp)%nat /\ Uri.substr inp bh 2 = "//" in
  (fst (Uri.parse_uri env inp out0) = UPNP_E_SUCCESS
   \/ fst (Uri.parse_uri env inp out0) = Uri.UPNP_E_INVALID_URL)
  /\ (fst (Uri.parse_uri env inp out0) <> UPNP_E_SUCCESS
      <-> authority
          /\ fst (Uri.parse_hostport env
                    (Uri.c_str (Uri.substr_from inp (bh + 2))))
             = Uri.UPNP_E_INVALID_URL)
  /\ (~ authority -> fst (Uri.parse_uri env inp out0) = UPNP_E_SUCCESS).
Proof.
  intros n bh authority. rewrite parse_uri_fst. fold n. fold bh. cbv zeta.
  assert (Hauth : (bh + 1 <? String.length inp)%nat
                  && Ascii.eqb (Uri.nth_char inp bh) "/"
                  && Ascii.eqb (Uri.nth_char inp (bh + 1)) "/" = true
                  <-> authority).
  { unfold authority. rewrite !andb_true_iff, Nat.ltb_lt. split.
    - intros [[Hlt H1] H2]. apply Ascii.eqb_eq in H1, H2.
      split; [exact Hlt|]. now rewrite substr_two, H1, H2 by exact Hlt.
    - intros [Hlt Hs]. rewrite substr_two in Hs by exact Hlt.
      injection Hs as H1 H2. rewrite H1, H2. now repeat split. }
  destruct (_ && _ && _).
  - destruct (Uri.parse_hostport env _) as [r hp] eqn:Ehp. cbn [fst].
    destruct (parse_hostport_ok _ _ _ _ Ehp) as [-> | (k & -> & _)].
    + change (0 <=? Uri.UPNP_E_INVALID_URL) with false. cbv iota.
      split; [now right|]. split.
      * split; [intros _; split; [now apply Hauth | reflexivity]
               | intros _; discriminate].
      * intros Hn. destruct Hn. now apply Hauth.
    + replace (0 <=? Z.of_nat k) with true
        by (symmetry; apply Z.leb_le; lia).
      split; [now left|]. split; [|reflexivity].
      split; [congruence|]. intros [_ Hk]. exfalso.
      unfold Uri.UPNP_E_INVALID_URL in Hk. lia.
  - split; [now left|]. split; [|reflexivity].
    split; [congruence|]. intros [Ha _]. apply Hauth in Ha. discriminate Ha.
Qed.

Lemma parse_uri_codes_witness :
  fst (Uri.parse_uri net0 "a//b" uri_empty) = UPNP_E_SUCCESS
  /\ fst (Uri.parse_hostport net0 (Uri.c_str (Uri.substr_from "http://[::1/x" 7)))
     = Uri.UPNP_E_INVALID_URL.
Proof.
  split.
  - apply (parse_uri_codes net0 "a//b" uri_empty).
    intros [_ H]. vm_compute in H. discriminate H.
  - destruct (parse_uri_codes net0 "http://[::1/x" uri_empty) as (_ & [H _] & _).
    apply H. vm_compute. discriminate.
Defined.

Lemma remove_dots_twice p :
  Uri.query_free p = true ->
  Uri.remove_dots (Uri.remove_dots p) = Uri.remove_dots p.
Proof.
  intros Hq. rewrite (remove_dots_eq p). destruct p as [|c0 p'].
  - reflexivity.
  - destruct (Uri.dots_scan [] "" (String c0 p')) as [v|] eqn:E;
      [|reflexivity].
    apply remove_dots_out_fixed.
    apply (dots_scan_plain _ [] "" v Hq); [reflexivity | constructor | exact E].
Qed.

(** X28: the path of every URI that [parse_uri] accepts is one on which
    [remove_dots] is idempotent: normalising the path of a parsed
    reference, as [resolve_rel_url] does, and normalising it again give
    the same path. *)
Theorem parse_uri_remove_dots (env : Uri.NetEnv) (inp : string)
    (out0 out : Uri.uri_type) :
  Uri.parse_uri env inp out0 = (UPNP_E_SUCCESS, out) ->
  Uri.query_free (Uri.path out) = true
  /\ Uri.remove_dots (Uri.remove_dots (Uri.path out))
     = Uri.remove_dots (Uri.path out).
Proof.
  intros Hok.
  assert (Uri.query_free (Uri.path out) = true) as Hq.
  { destruct (parse_uri_cases env inp out0)
      as [(bp & out1 & E) | (E & _)].
    - rewrite E in Hok. injection Hok as <-.
      destruct (parse_uri_path_tail inp bp out1)
        as ((q & f & _ & _ & _ & Hp & _) & _).
      exact Hp.
    - rewrite Hok in E. discriminate E. }
  split; [exact Hq | now apply remove_dots_twice].
Qed.

Lemma parse_uri_remove_dots_witness :
  Uri.remove_dots (Uri.remove_dots "/a/../b/./c")
  = Uri.remove_dots "/a/../b/./c".
Proof.
  apply (parse_uri_remove_dots net0 "http://localhost/a/../b/./c?x=/../y"
           uri_empty
           (snd (Uri.parse_uri net0 "http://localhost/a/../b/./c?x=/../y"
                   uri_empty))).
  reflexivity.
Defined.

(** ** Port numbers *)

Lemma atoi_decimal p t :
  0 <= p < 2 ^ 31 ->
  Uri.starts_with "/" t = true ->
  Uri.atoi (decimal p +:+ t) = p
  /\ Uri.span isdigit (decimal p +:+ t) = (decimal p, t).
Proof.
  intros Hp Ht.
  destruct t as [|c t']; [discriminate Ht|].
  cbn [Uri.starts_with] in Ht. apply Ascii.eqb_eq in Ht. subst c.
  destruct p as [|q|q]; try lia.
  { split; reflexivity. }
  unfold decimal. cbn [Z.to_int NilZero.string_of_int].
  pose proof (Unsigned.of_to q) as Hq.
  pose proof (scan_digits_uint_app (Pos.to_uint q) (String "/" t')) as Hs.
  pose proof (all_digits_of_uint (Pos.to_uint q)) as Ha.
  rewrite Hq in Hs. cbn [Z.of_N] in Hs.
  assert (NilZero.string_of_uint (Pos.to_uint q)
          = NilEmpty.string_of_uint (Pos.to_uint q)) as E
    by (destruct (Pos.to_uint q); [discriminate Hq | reflexivity ..]).
  rewrite E.
  destruct (NilEmpty.string_of_uint (Pos.to_uint q)) as [|d ds] eqn:Es.
  { destruct (Pos.to_uint q); discriminate. }
  pose proof Ha as Ha'. cbn [all_digits] in Ha'.
  apply andb_true_iff in Ha' as [Hd _].
  split.
  - unfold Uri.atoi. rewrite append_cons. cbn [skip_space].
    rewrite (isdigit_not_space _ Hd).
    destruct (isdigit_not_sign _ Hd) as [-> ->].
    rewrite <- append_cons, Hs.
    cbn [scan_digits]. change (isdigit "/") with false. cbv iota.
    cbn [fst]. rewrite Z.min_r, Z.max_r by lia.
    apply wrap_int_small. lia.
  - rewrite all_digits_all_chars in Ha.
    apply str_span_stop; [exact Ha | reflexivity].
Qed.

(** X29: port numbers are taken modulo 65536.  For a bracketed address
    that [inet_pton] accepts, followed by a colon, a number below 2^31
    in decimal and the path, [parse_hostport] refuses the input when
    the number is a multiple of 65536 (0 included) and otherwise stores
    the number modulo 65536 as the port and returns the length of the
    text up to the last digit. *)
Theorem parse_hostport_port_wraps (env : Uri.NetEnv) (a t addr : string)
    (p : Z) :
  let H := "[" +:+ a +:+ "]:" +:+ decimal p in
  lacks "]" a = true ->
  (String.length H < 255)%nat ->
  0 <= p < 2 ^ 31 ->
  Uri.starts_with "/" t = true ->
  Uri.inet_pton env Uri.AF_INET6 a = (1, addr) ->
  if p mod 65536 =? 0
  then fst (Uri.parse_hostport env (H +:+ t)) = Uri.UPNP_E_INVALID_URL
  else Uri.parse_hostport env (H +:+ t)
       = (Z.of_nat (String.length H),
          {| Uri.text := H;
             Uri.IPaddress :=
               {| Uri.ss_family := Uri.AF_INET6;
                  Uri.sin_port := p mod 65536;
                  Uri.sin_addr := addr;
                  Uri.sin6_scope_id := Uri.gIF_INDEX env |} |}).
Proof.
  intros H Hbr Hlen Hp Ht Hpton.
  set (t' := Uri.prefix t (255 - String.length H)).
  assert (Ht' : Uri.starts_with "/" t' = true).
  { unfold t'. destruct t as [|c t0]; [discriminate Ht|].
    destruct (255 - String.length H)%nat as [|k] eqn:Ek; [lia|].
    exact Ht. }
  destruct (atoi_decimal p t' Hp Ht') as [Hatoi Hspan].
  assert (Hwork : upnp_strlcpy (H +:+ t) 256 = H +:+ t').
  { unfold upnp_strlcpy. rewrite str_substring_prefix.
    change (Z.to_nat (256 - 1)) with 255%nat.
    replace 255%nat with (String.length H + (255 - String.length H))%nat
      at 1 by lia.
    apply str_prefix_app_ge. }
  unfold Uri.parse_hostport. rewrite Hwork. unfold H.
  rewrite !append_assoc, !append_cons, !append_empty.
  cbn [Uri.starts_with Uri.str_tail]. change (Ascii.eqb "[" "[") with true.
  cbv iota.
  rewrite str_span_stop by (exact Hbr || reflexivity).
  cbn [Uri.starts_with Uri.str_tail]. change (Ascii.eqb ":" ":") with true.
  cbv iota. unfold Uri.parse_hostport_port.
  rewrite Hatoi, Hspan. cbn [andb fst].
  destruct (p mod 65536 =? 0); [reflexivity|].
  rewrite Hpton. change (1 <=? 0) with false. change (1 =? 1) with true.
  cbv iota.
  assert ((1 + String.length a + 1 + 1 + String.length (decimal p))%nat
          = String.length
              (String "[" (a +:+ String "]" (String ":" (decimal p)))))
    as ->.
  { cbn [String.length]. rewrite str_length_app. cbn [String.length]. lia. }
  replace (String "[" (a +:+ String "]" (String ":" (decimal p +:+ t))))
    with (String "[" (a +:+ String "]" (String ":" (decimal p))) +:+ t)
    by now rewrite append_cons, !append_assoc.
  rewrite str_prefix_app. reflexivity.
Qed.

Lemma parse_hostport_port_wraps_witness :
  fst (Uri.parse_hostport net0 "[::1]:65536/x") = Uri.UPNP_E_INVALID_URL
  /\ Uri.sin_port (Uri.IPaddress (snd (Uri.parse_hostport net0 "[::1]:65616/x")))
     = 80.
Proof.
  split.
  - apply (parse_hostport_port_wraps net0 "::1" "/x" "::1" 65536);
      [reflexivity | vm_compute; lia | lia | reflexivity | reflexivity].
  - pose proof (parse_hostport_port_wraps net0 "::1" "/x" "::1" 65616
                  eq_refl ltac:(vm_compute; lia) ltac:(lia) eq_refl eq_refl)
      as W.
    change (65616 mod 65536 =? 0) with false in W. cbv iota in W.
    change "[::1]:65616/x"
      with (("[" +:+ "::1" +:+ "]:" +:+ decimal 65616) +:+ "/x").
    rewrite W. reflexivity.
Defined.
